(** * A shallow embedding of the pub/sub broker

    The Go sources embedded here are [models.go] (wire records),
    [ringbuffer.go] (the bounded circular buffer), [pubsub.go] (the
    registry of topics, clients and subscription edges),
    [websocket.go] (the per-connection session that validates requests)
    and [handlers.go] (the HTTP handlers that create and delete topics).

    Conventions.
    - A Go [int] is a [Z].  Ring-buffer indices never leave the interval
      [-capacity, 2*capacity) and the buffer length bounds [capacity], so
      that arithmetic is written without wrap-around; the [int64] message
      counter grows without bound and has its wrap-around written out.
    - A run-time panic (index out of range, division by zero, [make] with
      a negative length, nil dereference) is [None] in the [option] monad.
    - A Go [error] return value is data: [None] for [nil], [Some e]
      otherwise.
    - [time.Now()] and [uuid.New()] are read from arguments of the
      operation that calls them.
    - An operation of the registry is a function from the state it starts
      in to the state it ends in, as when no other goroutine runs in
      between.  [Subscribe] is embedded a second time by its critical
      sections ([Interleaved]), for the schedules that separate them. *)

From stdpp Require Import gmap strings list fin_maps numbers.
From Stdlib Require Import ZArith Lia.

Local Open Scope Z_scope.
#[local] Set Warnings "-clear-no-such-hyp".

(** ** Wire records ([models.go]) *)

Definition Time := Z.

Record ErrorData := mkErrorData { Code : string; ErrMessage : string }.

(** [MessageData.Payload] is an [interface{}]; these are the dynamic
    types the program stores in it. *)
Inductive Payload :=
| PayloadNil
| PayloadJSON (v : string)
| PayloadText (s : string)
| PayloadStatus (status : string)
| PayloadError (e : ErrorData).

Record MessageData := mkMessageData { ID : string; payload : Payload }.

Record EventResponse := mkEventResponse {
  evType : string;
  evTopic : string;
  evMessage : MessageData;
  evTimestamp : Time
}.

(** The zero value Go stores in a freshly made slice. *)
Definition zeroEvent : EventResponse :=
  mkEventResponse "" "" (mkMessageData "" PayloadNil) 0.

(** ** Go primitives *)

(** [l[i]] *)
Definition index {A} (l : list A) (i : Z) : option A :=
  if decide (0 ≤ i) then l !! Z.to_nat i else None.

(** [l[i] = x] *)
Definition store {A} (l : list A) (i : Z) (x : A) : option (list A) :=
  if decide (0 ≤ i < Z.of_nat (length l)) then Some (<[Z.to_nat i := x]> l) else None.

(** [a % b]: truncated remainder, panics on a zero divisor. *)
Definition go_rem (a b : Z) : option Z :=
  if decide (b = 0) then None else Some (Z.rem a b).

(** [for _, x := range l { s = body(x, s) }] with a body that may panic. *)
Fixpoint range_loop {A S} (body : A → S → option S) (l : list A) (s : S) : option S :=
  match l with
  | [] => Some s
  | x :: l' => s' ← body x s; range_loop body l' s'
  end.

(** ** The ring buffer ([ringbuffer.go]) *)

Record RingBuffer := mkRingBuffer {
  rb_buffer : list EventResponse;
  rb_head : Z;
  rb_tail : Z;
  rb_size : Z;
  rb_capacity : Z;
  rb_full : bool
}.

Definition NewRingBuffer (capacity : Z) : option RingBuffer :=
  if decide (capacity < 0) then None
  else Some (mkRingBuffer (replicate (Z.to_nat capacity) zeroEvent) 0 0 0 capacity false).

Definition Push (message : EventResponse) (rb : RingBuffer) : option RingBuffer :=
  buf ← store (rb_buffer rb) (rb_head rb) message;
  head' ← go_rem (rb_head rb + 1) (rb_capacity rb);
  if rb_full rb then
    tail' ← go_rem (rb_tail rb + 1) (rb_capacity rb);
    Some (mkRingBuffer buf head' tail' (rb_size rb) (rb_capacity rb) (rb_full rb))
  else
    let size' := rb_size rb + 1 in
    Some (mkRingBuffer buf head' (rb_tail rb) size' (rb_capacity rb)
            (if decide (size' = rb_capacity rb) then true else rb_full rb)).

Definition Pop (rb : RingBuffer) : option (option EventResponse * RingBuffer) :=
  if decide (rb_size rb = 0) then Some (None, rb)
  else
    message ← index (rb_buffer rb) (rb_tail rb);
    tail' ← go_rem (rb_tail rb + 1) (rb_capacity rb);
    Some (Some message,
          mkRingBuffer (rb_buffer rb) (rb_head rb) tail' (rb_size rb - 1) (rb_capacity rb) false).

(** The read loop shared by [PopAll] and [GetLastN]:
    [for i := 0; i < count; i++ { messages[i] = buffer[(start+i) % capacity] }]. *)
Definition read_from (rb : RingBuffer) (start count : Z) : option (list EventResponse) :=
  mapM (λ i, j ← go_rem (start + i) (rb_capacity rb); index (rb_buffer rb) j) (seqZ 0 count).

Definition PopAll (rb : RingBuffer) : option (list EventResponse * RingBuffer) :=
  if decide (rb_size rb = 0) then Some ([], rb)
  else if decide (rb_size rb < 0) then None
  else
    messages ← read_from rb (rb_tail rb) (rb_size rb);
    Some (messages, mkRingBuffer (rb_buffer rb) 0 0 0 (rb_capacity rb) false).

Definition GetLastN (n : Z) (rb : RingBuffer) : option (list EventResponse) :=
  if decide (rb_size rb = 0 ∨ n ≤ 0) then Some []
  else
    let count := if decide (n > rb_size rb) then rb_size rb else n in
    if decide (count < 0) then None
    else
      let start := rb_head rb - count in
      let start := if decide (start < 0) then start + rb_capacity rb else start in
      read_from rb start count.

Definition Size (rb : RingBuffer) : Z := rb_size rb.
Definition IsFull (rb : RingBuffer) : bool := rb_full rb.
Definition Clear (rb : RingBuffer) : RingBuffer :=
  mkRingBuffer (rb_buffer rb) 0 0 0 (rb_capacity rb) false.

(** The logical FIFO contents, oldest first: the [size] slots read from
    [tail], exactly as [PopAll] reads them. *)
Definition contents (rb : RingBuffer) : option (list EventResponse) :=
  read_from rb (rb_tail rb) (rb_size rb).

(** The representation invariant of a ring buffer. *)
Record rb_wf (rb : RingBuffer) : Prop := mk_rb_wf {
  wf_cap : 0 ≤ rb_capacity rb;
  wf_len : length (rb_buffer rb) = Z.to_nat (rb_capacity rb);
  wf_size : 0 ≤ rb_size rb ≤ rb_capacity rb;
  wf_tail : 0 ≤ rb_tail rb < Z.max 1 (rb_capacity rb);
  wf_head : 0 ≤ rb_head rb < Z.max 1 (rb_capacity rb);
  wf_wrap : rb_head rb = rb_tail rb + rb_size rb
            ∨ rb_head rb = rb_tail rb + rb_size rb - rb_capacity rb;
  wf_full : rb_full rb = true ↔ 0 < rb_capacity rb ∧ rb_size rb = rb_capacity rb
}.

(** Ring buffers that the program can build: a fresh one, and the result
    of any operation on one. *)
Inductive rb_reachable : RingBuffer → Prop :=
| reach_new c rb : NewRingBuffer c = Some rb → rb_reachable rb
| reach_push e rb rb' : rb_reachable rb → Push e rb = Some rb' → rb_reachable rb'
| reach_pop rb o rb' : rb_reachable rb → Pop rb = Some (o, rb') → rb_reachable rb'
| reach_popall rb l rb' : rb_reachable rb → PopAll rb = Some (l, rb') → rb_reachable rb'
| reach_clear rb : rb_reachable rb → rb_reachable (Clear rb).

(** The last [k] elements of a list. *)
Definition last_n {A} (k : nat) (l : list A) : list A := drop (length l - k)%nat l.

(** The slot that holds the [i]-th element counted from position [start]. *)
Definition slot (rb : RingBuffer) (start i : Z) : nat :=
  Z.to_nat (if decide (start + i < rb_capacity rb) then start + i
            else start + i - rb_capacity rb).

Definition cell (rb : RingBuffer) (k : nat) : EventResponse :=
  default zeroEvent (rb_buffer rb !! k).

(** [count] cells from position [start], as a total function. *)
Definition cells (rb : RingBuffer) (start count : Z) : list EventResponse :=
  (λ i : nat, cell rb (slot rb start (Z.of_nat i))) <$> seq 0 (Z.to_nat count).

(** The contents as a total function, for well-formed buffers. *)
Definition elems (rb : RingBuffer) : list EventResponse :=
  cells rb (rb_tail rb) (rb_size rb).


(** ** The registry ([pubsub.go]) *)

Definition DefaultBufferSize : Z := 100.
Definition TopicHistoryBufferSize : Z := 1000.

(** A Go [error] value: built by [fmt.Errorf], or an [ErrorData]
    (which implements the interface in [models.go]). *)
Inductive error :=
| ErrorString (s : string)
| ErrorOf (e : ErrorData).

Definition Error (e : error) : string :=
  match e with
  | ErrorString s => s
  | ErrorOf d => ErrMessage d
  end.

(** [int64] addition. *)
Definition wrap64 (x : Z) : Z := (x + 2 ^ 63) `mod` 2 ^ 64 - 2 ^ 63.

(** A [chan EventResponse] is a reference into a heap of buffered
    channels; a reference the heap does not hold behaves as a nil channel.
    The heap holds open channels: the registry never closes one.  A
    session closes its own in its teardown, and a send on a closed channel
    panics, which the heap cannot express: what is proved of a session's
    sends on its own channel assumes that channel in the heap. *)
Definition ChanRef := nat.

Record Chan := mkChan { chCap : nat; chQueue : list EventResponse }.

Abbreviation Heap := (gmap nat Chan).

(** [select { case ch <- e: ... default: ... }]: [Some] heap when the send
    went through, [None] when the default branch ran. *)
Definition offer (ch : ChanRef) (e : EventResponse) (h : Heap) : option Heap :=
  match h !! ch with
  | Some c =>
      if decide (length (chQueue c) < chCap c)%nat
      then Some (<[ch := mkChan (chCap c) (chQueue c ++ [e])]> h)
      else None
  | None => None
  end.

Record PubSubClient := mkPubSubClient {
  ClientID : string;
  Buffer : RingBuffer;
  WriteChan : ChanRef;
  LastActive : Time;
  Connected : bool
}.

(** [Client] is a [*PubSubClient].  The program allocates one
    [PubSubClient] per client id (in [Subscribe]) and never replaces or
    removes it, so the object is addressed by the id it was allocated
    under and the [clients] registry doubles as the store of these
    objects. *)
Record Subscriber := mkSubscriber {
  subClientID : string;
  subTopic : string;
  subClient : string
}.

Record Topic := mkTopic {
  Name : string;
  Subscribers : gmap string Subscriber;
  MessageCount : Z;
  CreatedAt : Time;
  MessageHistory : RingBuffer
}.

Record PubSubSystem := mkPubSubSystem {
  topics : gmap string Topic;
  clients : gmap string PubSubClient;
  clientTopics : gmap string (gmap string bool);
  startTime : Time
}.

(** The registry together with the channels its clients point to. *)
Record World := mkWorld { sys : PubSubSystem; chans : Heap }.

Definition NewPubSubSystem (now : Time) : PubSubSystem :=
  mkPubSubSystem ∅ ∅ ∅ now.

Definition CreateTopic (name : string) (now : Time) (ps : PubSubSystem)
  : option (option error * PubSubSystem) :=
  match topics ps !! name with
  | Some _ => Some (Some (ErrorString ("topic " +:+ name +:+ " already exists")), ps)
  | None =>
      history ← NewRingBuffer TopicHistoryBufferSize;
      Some (None,
            mkPubSubSystem (<[name := mkTopic name ∅ 0 now history]> (topics ps))
              (clients ps) (clientTopics ps) (startTime ps))
  end.

(** [delete(clientTopics, name); if len(clientTopics) == 0 { delete(ps.clientTopics, clientID) }] *)
Definition drop_edge (clientID name : string) (inner : gmap string bool)
    (ct : gmap string (gmap string bool)) : gmap string (gmap string bool) :=
  let inner' := delete name inner in
  if decide (size inner' = 0%nat) then delete clientID ct else <[clientID := inner']> ct.

(** The body of the loop of [DeleteTopic]; [uuid] and [clock] give
    [uuid.New().String()] and [time.Now()] for the notice of each client.
    Go leaves the order of a range over a map unspecified; [DeleteTopic]
    and [Publish] below take the order of [map_to_list], and the lemmas
    about their loops are proved for any list of subscribers. *)
Definition notify_evict (cls : gmap string PubSubClient) (name : string)
    (uuid : string → string) (clock : string → Time) (subscriber : Subscriber)
    (st : gmap string (gmap string bool) * Heap)
  : option (gmap string (gmap string bool) * Heap) :=
  client ← cls !! subClient subscriber;
  let notice :=
    mkEventResponse "info" name
      (mkMessageData (uuid (subClientID subscriber)) (PayloadText "topic_deleted"))
      (clock (subClientID subscriber)) in
  let h' := default st.2 (offer (WriteChan client) notice st.2) in
  let ct' := match st.1 !! subClientID subscriber with
             | Some inner => drop_edge (subClientID subscriber) name inner st.1
             | None => st.1
             end in
  Some (ct', h').

Definition DeleteTopic (name : string) (uuid : string → string) (clock : string → Time)
    (w : World) : option (option error * World) :=
  match topics (sys w) !! name with
  | None => Some (Some (ErrorString ("topic " +:+ name +:+ " not found")), w)
  | Some topic =>
      st ← range_loop (notify_evict (clients (sys w)) name uuid clock)
             (map_to_list (Subscribers topic)).*2 (clientTopics (sys w), chans w);
      Some (None,
            mkWorld (mkPubSubSystem (delete name (topics (sys w))) (clients (sys w))
                       st.1 (startTime (sys w)))
                    st.2)
  end.

(** The block "register or get existing client" of [Subscribe]. *)
Definition register_client (clientID : string) (writeChan : ChanRef) (now : Time)
    (cls : gmap string PubSubClient) : option PubSubClient :=
  match cls !! clientID with
  | None =>
      buf ← NewRingBuffer DefaultBufferSize;
      Some (mkPubSubClient clientID buf writeChan now true)
  | Some client =>
      Some (mkPubSubClient (ClientID client) (Buffer client) writeChan now true)
  end.

Definition Subscribe (clientID topicName : string) (lastN : Z) (writeChan : ChanRef)
    (now : Time) (ps : PubSubSystem)
  : option (list EventResponse * option error * PubSubSystem) :=
  match topics ps !! topicName with
  | None => Some ([], Some (ErrorString ("topic " +:+ topicName +:+ " not found")), ps)
  | Some topic =>
      let inner := default ∅ (clientTopics ps !! clientID) in
      let ct := <[clientID := <[topicName := true]> inner]> (clientTopics ps) in
      client ← register_client clientID writeChan now (clients ps);
      let cls := <[clientID := client]> (clients ps) in
      let subscriber := mkSubscriber clientID topicName clientID in
      let topic' := mkTopic (Name topic) (<[clientID := subscriber]> (Subscribers topic))
                      (MessageCount topic) (CreatedAt topic) (MessageHistory topic) in
      lastMessages ← (if decide (lastN > 0) then GetLastN lastN (MessageHistory topic)
                      else Some []);
      Some (lastMessages, None,
            mkPubSubSystem (<[topicName := topic']> (topics ps)) cls ct (startTime ps))
  end.

Definition not_subscribed (clientID topicName : string) : error :=
  ErrorString ("client " +:+ clientID +:+ " is not subscribed to topic " +:+ topicName).

Definition Unsubscribe (clientID topicName : string) (ps : PubSubSystem)
  : option error * PubSubSystem :=
  match clientTopics ps !! clientID with
  | None => (Some (not_subscribed clientID topicName), ps)
  | Some inner =>
      if negb (default false (inner !! topicName))
      then (Some (not_subscribed clientID topicName), ps)
      else
        let ct := drop_edge clientID topicName inner (clientTopics ps) in
        match topics ps !! topicName with
        | None =>
            (Some (ErrorString ("topic " +:+ topicName +:+ " not found")),
             mkPubSubSystem (topics ps) (clients ps) ct (startTime ps))
        | Some topic =>
            let topic' := mkTopic (Name topic) (delete clientID (Subscribers topic))
                            (MessageCount topic) (CreatedAt topic) (MessageHistory topic) in
            (None,
             mkPubSubSystem (<[topicName := topic']> (topics ps)) (clients ps) ct (startTime ps))
        end
  end.

(** The body of the fan-out loop of [Publish]; [clock] gives the
    [time.Now()] stored in [LastActive] of each client. *)
Definition deliver (event : EventResponse) (clock : string → Time) (subscriber : Subscriber)
    (st : gmap string PubSubClient * Heap) : option (gmap string PubSubClient * Heap) :=
  client ← st.1 !! subClient subscriber;
  if negb (Connected client) then Some st
  else
    buf ← Push event (Buffer client);
    match offer (WriteChan client) event st.2 with
    | Some h' =>
        Some (<[subClient subscriber :=
                  mkPubSubClient (ClientID client) buf (WriteChan client)
                    (clock (subClient subscriber)) (Connected client)]> st.1, h')
    | None =>
        Some (<[subClient subscriber :=
                  mkPubSubClient (ClientID client) buf (WriteChan client)
                    (LastActive client) (Connected client)]> st.1, st.2)
    end.

Definition Publish (topicName : string) (message : MessageData) (senderClientID : string)
    (now : Time) (clock : string → Time) (w : World) : option (option error * World) :=
  match topics (sys w) !! topicName with
  | None => Some (Some (ErrorString ("topic " +:+ topicName +:+ " not found")), w)
  | Some topic =>
      let event := mkEventResponse "event" topicName message now in
      let count := wrap64 (MessageCount topic + 1) in
      history ← Push event (MessageHistory topic);
      st ← range_loop (deliver event clock) (map_to_list (Subscribers topic)).*2
             (clients (sys w), chans w);
      let topic' := mkTopic (Name topic) (Subscribers topic) count (CreatedAt topic) history in
      Some (None,
            mkWorld (mkPubSubSystem (<[topicName := topic']> (topics (sys w))) st.1
                       (clientTopics (sys w)) (startTime (sys w)))
                    st.2)
  end.

(** The body of the loop of [DisconnectClient]. *)
Definition remove_subscriber (clientID : string) (tps : gmap string Topic) (topicName : string)
  : gmap string Topic :=
  match tps !! topicName with
  | Some topic =>
      <[topicName := mkTopic (Name topic) (delete clientID (Subscribers topic))
                       (MessageCount topic) (CreatedAt topic) (MessageHistory topic)]> tps
  | None => tps
  end.

Definition DisconnectClient (clientID : string) (ps : PubSubSystem) : PubSubSystem :=
  let cls := match clients ps !! clientID with
             | Some client =>
                 <[clientID := mkPubSubClient (ClientID client) (Buffer client) (WriteChan client)
                                 (LastActive client) false]> (clients ps)
             | None => clients ps
             end in
  match clientTopics ps !! clientID with
  | None => mkPubSubSystem (topics ps) cls (clientTopics ps) (startTime ps)
  | Some topicsMap =>
      mkPubSubSystem
        (foldl (remove_subscriber clientID) (topics ps) (map_to_list topicsMap).*1)
        cls (delete clientID (clientTopics ps)) (startTime ps)
  end.

(** ** Runs of the registry *)

(** One completed core operation, with the clock and uuid readings it
    makes; [OpChannels] is a step of the environment (a session creates a
    channel, a writer drains one). *)
Inductive Op :=
| OpCreateTopic (name : string) (now : Time)
| OpDeleteTopic (name : string) (uuid : string → string) (clock : string → Time)
| OpSubscribe (clientID topicName : string) (lastN : Z) (writeChan : ChanRef) (now : Time)
| OpUnsubscribe (clientID topicName : string)
| OpPublish (topicName : string) (message : MessageData) (senderClientID : string)
    (now : Time) (clock : string → Time)
| OpDisconnect (clientID : string)
| OpChannels (f : Heap → Heap).

(** What the operation returned: its [error], and for [Subscribe] the
    history it hands back. *)
Definition Ret : Type := list EventResponse * option error.

Definition step (op : Op) (w : World) : option (Ret * World) :=
  match op with
  | OpCreateTopic name now =>
      r ← CreateTopic name now (sys w); Some (([], r.1), mkWorld r.2 (chans w))
  | OpDeleteTopic name uuid clock =>
      r ← DeleteTopic name uuid clock w; Some (([], r.1), r.2)
  | OpSubscribe c t lastN ch now =>
      r ← Subscribe c t lastN ch now (sys w); Some (r.1, mkWorld r.2 (chans w))
  | OpUnsubscribe c t =>
      let r := Unsubscribe c t (sys w) in Some (([], r.1), mkWorld r.2 (chans w))
  | OpPublish t m sender now clock =>
      r ← Publish t m sender now clock w; Some (([], r.1), r.2)
  | OpDisconnect c => Some (([], None), mkWorld (DisconnectClient c (sys w)) (chans w))
  | OpChannels f => Some (([], None), mkWorld (sys w) (f (chans w)))
  end.

(** The events published so far, per topic name: [all] since the start,
    [live] since the topic of that name was last created. *)
Record Log := mkLog {
  all : string → list EventResponse;
  live : string → list EventResponse
}.

Definition upd (f : string → list EventResponse) (t : string) (l : list EventResponse)
  : string → list EventResponse :=
  λ t', if decide (t' = t) then l else f t'.

Definition log_step (op : Op) (r : Ret) (log : Log) : Log :=
  match op, r.2 with
  | OpPublish t m _ now _, None =>
      let e := mkEventResponse "event" t m now in
      mkLog (upd (all log) t (all log t ++ [e])) (upd (live log) t (live log t ++ [e]))
  | OpCreateTopic t _, None => mkLog (all log) (upd (live log) t [])
  | _, _ => log
  end.

(** The worlds reached by completed operations from a fresh registry,
    with the log of what was published on the way.  Each operation runs
    from start to end before the next one starts: [run] says nothing of
    operations whose critical sections interleave (for those see
    [Interleaved] below), and serves as the condition on the registry that
    a single call starts from. *)
Inductive run : World → Log → Prop :=
| run_init now h : run (mkWorld (NewPubSubSystem now) h) (mkLog (λ _, []) (λ _, []))
| run_step op w log r w' :
    run w log → step op w = Some (r, w') → run w' (log_step op r log).

(** [t ∈ client_topics[c]] *)
Definition in_client_topics (ps : PubSubSystem) (c t : string) : Prop :=
  ∃ inner, clientTopics ps !! c = Some inner ∧ is_Some (inner !! t).

(** [c] is a key of [topics[t].subscribers] *)
Definition subscribed (ps : PubSubSystem) (c t : string) : Prop :=
  ∃ topic, topics ps !! t = Some topic ∧ is_Some (Subscribers topic !! c).

(** The value [clientTopics[c][t]] and the entry [topics[t].Subscribers[c]],
    as partial functions of the pair. *)
Definition ct_lookup (ct : gmap string (gmap string bool)) (c t : string) : option bool :=
  inner ← ct !! c; inner !! t.

Definition sub_lookup (tps : gmap string Topic) (t c : string) : option Subscriber :=
  topic ← tps !! t; Subscribers topic !! c.

(** Every client's overflow ring is well formed, with the default capacity. *)
Definition buffers_wf (cls : gmap string PubSubClient) : Prop :=
  ∀ c client, cls !! c = Some client →
    rb_wf (Buffer client) ∧ rb_capacity (Buffer client) = DefaultBufferSize.

(** The invariant of the registry between operations. *)
Record sys_inv (ps : PubSubSystem) : Prop := mk_sys_inv {
  inv_edge : ∀ c t,
      is_Some (ct_lookup (clientTopics ps) c t) ↔ is_Some (sub_lookup (topics ps) t c);
  inv_true : ∀ c t b, ct_lookup (clientTopics ps) c t = Some b → b = true;
  inv_sub : ∀ t c s,
      sub_lookup (topics ps) t c = Some s →
      subClientID s = c ∧ subClient s = c ∧ is_Some (clients ps !! c);
  inv_hist : ∀ t topic,
      topics ps !! t = Some topic →
      rb_wf (MessageHistory topic) ∧ rb_capacity (MessageHistory topic) = TopicHistoryBufferSize;
  inv_buf : buffers_wf (clients ps)
}.

(** The history ring and the message counter of every topic against the log. *)
Definition log_inv (ps : PubSubSystem) (log : Log) : Prop :=
  (∀ t, live log t `suffix_of` all log t) ∧
  ∀ t topic, topics ps !! t = Some topic →
    elems (MessageHistory topic) = last_n (Z.to_nat TopicHistoryBufferSize) (live log t)
    ∧ MessageCount topic = wrap64 (Z.of_nat (length (live log t))).

(** The topics of [tps'] are topics of [tps] with the same history ring
    and message counter. *)
Definition histories_kept (tps tps' : gmap string Topic) : Prop :=
  ∀ t topic', tps' !! t = Some topic' →
    ∃ topic, tps !! t = Some topic ∧ MessageHistory topic' = MessageHistory topic
             ∧ MessageCount topic' = MessageCount topic.

(** The executable form of [run]: the operations of [ops] in order. *)
Fixpoint exec (ops : list Op) (w : World) (log : Log) : option (World * Log) :=
  match ops with
  | [] => Some (w, log)
  | op :: ops' => r ← step op w; exec ops' r.2 (log_step op r.1 log)
  end.

(** ** The connection session ([websocket.go], requests of [models.go]) *)

Record SubscribeRequest := mkSubscribeRequest {
  sub_Type : string;
  sub_Topic : string;
  sub_ClientID : string;
  sub_LastN : Z;
  sub_RequestID : string
}.

Record UnsubscribeRequest := mkUnsubscribeRequest {
  unsub_Type : string;
  unsub_Topic : string;
  unsub_ClientID : string;
  unsub_RequestID : string
}.

Record PublishRequest := mkPublishRequest {
  pub_Type : string;
  pub_Topic : string;
  pub_Message : MessageData;
  pub_ClientID : string;
  pub_RequestID : string
}.

Record PingRequest := mkPingRequest {
  ping_Type : string;
  ping_RequestID : string
}.

Record AckResponse := mkAckResponse {
  ack_Type : string;
  ack_RequestID : string;
  ack_Topic : string;
  ack_Status : string;
  ack_Timestamp : Time
}.

Record ErrorResponse := mkErrorResponse {
  err_Type : string;
  err_RequestID : string;
  err_Error : ErrorData;
  err_Timestamp : Time
}.

Record PongResponse := mkPongResponse {
  pong_Type : string;
  pong_RequestID : string;
  pong_Timestamp : Time
}.

(** The dynamic types [ParseMessage] returns in its [interface{}]. *)
Inductive Request :=
| ReqSubscribe (req : SubscribeRequest)
| ReqUnsubscribe (req : UnsubscribeRequest)
| ReqPublish (req : PublishRequest)
| ReqPing (req : PingRequest).

(** What [json.Unmarshal] reads from a frame into the request records: the
    fields of the JSON object, a field that is absent being the zero value. *)
Record Frame := mkFrame {
  f_type : string;
  f_topic : string;
  f_client_id : string;
  f_last_n : Z;
  f_request_id : string;
  f_message : MessageData
}.

(** [data] is [inl msg] when [json.Unmarshal] fails with [msg]. *)
Definition ParseMessage (data : string + Frame) : error + Request :=
  match data with
  | inl msg => inl (ErrorString msg)
  | inr f =>
      if decide (f_type f = "subscribe") then
        inr (ReqSubscribe (mkSubscribeRequest (f_type f) (f_topic f) (f_client_id f)
                             (f_last_n f) (f_request_id f)))
      else if decide (f_type f = "unsubscribe") then
        inr (ReqUnsubscribe (mkUnsubscribeRequest (f_type f) (f_topic f) (f_client_id f)
                               (f_request_id f)))
      else if decide (f_type f = "publish") then
        inr (ReqPublish (mkPublishRequest (f_type f) (f_topic f) (f_message f)
                           (f_client_id f) (f_request_id f)))
      else if decide (f_type f = "ping") then
        inr (ReqPing (mkPingRequest (f_type f) (f_request_id f)))
      else
        inl (ErrorOf (mkErrorData "INVALID_MESSAGE_TYPE"
                        ("Unknown message type: " +:+ f_type f)))
  end.

(** The fields of the Go [Client] that the handlers use: the outbound
    channel and the client id bound to the connection.  Its [pubsub]
    pointer is the registry of the [World] the handlers run in. *)
Record Client := mkClient { send : ChanRef; clientID : string }.

(** The message types [sendMessage] accepts in its type switch. *)
Inductive Outgoing :=
| OutEvent (msg : EventResponse)
| OutAck (msg : AckResponse)
| OutError (msg : ErrorResponse)
| OutPong (msg : PongResponse).

Definition to_event (message : Outgoing) : EventResponse :=
  match message with
  | OutEvent msg => msg
  | OutAck msg =>
      mkEventResponse (ack_Type msg) (ack_Topic msg)
        (mkMessageData (ack_RequestID msg) (PayloadStatus (ack_Status msg))) (ack_Timestamp msg)
  | OutError msg =>
      mkEventResponse (err_Type msg) ""
        (mkMessageData (err_RequestID msg) (PayloadError (err_Error msg))) (err_Timestamp msg)
  | OutPong msg =>
      mkEventResponse (pong_Type msg) ""
        (mkMessageData (pong_RequestID msg) (PayloadText "pong")) (pong_Timestamp msg)
  end.

Definition sendMessage (message : Outgoing) (c : Client) (h : Heap) : option error * Heap :=
  match offer (send c) (to_event message) h with
  | Some h' => (None, h')
  | None => (Some (ErrorOf (mkErrorData "CLIENT_OVERLOADED" "Client send buffer is full")), h)
  end.

Definition bad_request (msg : string) : error := ErrorOf (mkErrorData "BAD_REQUEST" msg).

(** [if c.clientID == "" { c.clientID = id } else if c.clientID != id { return ... }] *)
Definition bind_client (id : string) (c : Client) : error + Client :=
  if decide (clientID c = "") then inr (mkClient (send c) id)
  else if decide (clientID c ≠ id)
       then inl (bad_request "client_id mismatch with existing connection")
       else inr c.

Definition handleSubscribe (req : SubscribeRequest) (now : Time) (c : Client) (w : World)
  : option (option error * Client * World) :=
  if decide (sub_RequestID req = "") then Some (Some (bad_request "request_id is required"), c, w)
  else if decide (sub_ClientID req = "") then
    Some (Some (bad_request "client_id is required"), c, w)
  else
    match bind_client (sub_ClientID req) c with
    | inl e => Some (Some e, c, w)
    | inr c =>
        r ← Subscribe (clientID c) (sub_Topic req) (sub_LastN req) (send c) now (sys w);
        match r.1.2 with
        | Some err =>
            let errorResp :=
              mkErrorResponse "error" (sub_RequestID req)
                (mkErrorData "SUBSCRIBE_FAILED" (Error err)) now in
            let s := sendMessage (OutError errorResp) c (chans w) in
            Some (s.1, c, mkWorld r.2 s.2)
        | None =>
            let ackResp := mkAckResponse "ack" (sub_RequestID req) (sub_Topic req) "ok" now in
            let s := sendMessage (OutAck ackResp) c (chans w) in
            match s.1 with
            | Some err => Some (Some err, c, mkWorld r.2 s.2)
            | None =>
                Some (None, c,
                      mkWorld r.2
                        (foldl (λ h lastMsg, (sendMessage (OutEvent lastMsg) c h).2) s.2 r.1.1))
            end
        end
    end.

Definition handleUnsubscribe (req : UnsubscribeRequest) (now : Time) (c : Client) (w : World)
  : option (option error * Client * World) :=
  if decide (unsub_RequestID req = "") then
    Some (Some (bad_request "request_id is required"), c, w)
  else if decide (unsub_ClientID req = "") then
    Some (Some (bad_request "client_id is required"), c, w)
  else
    match bind_client (unsub_ClientID req) c with
    | inl e => Some (Some e, c, w)
    | inr c =>
        let r := Unsubscribe (clientID c) (unsub_Topic req) (sys w) in
        match r.1 with
        | Some err =>
            let errorResp :=
              mkErrorResponse "error" (unsub_RequestID req)
                (mkErrorData "UNSUBSCRIBE_FAILED" (Error err)) now in
            let s := sendMessage (OutError errorResp) c (chans w) in
            Some (s.1, c, mkWorld r.2 s.2)
        | None =>
            let ackResp := mkAckResponse "ack" (unsub_RequestID req) (unsub_Topic req) "ok" now in
            let s := sendMessage (OutAck ackResp) c (chans w) in
            Some (s.1, c, mkWorld r.2 s.2)
        end
    end.

Definition handlePing (req : PingRequest) (now : Time) (c : Client) (w : World)
  : option (option error * Client * World) :=
  if decide (ping_RequestID req = "") then
    Some (Some (bad_request "request_id is required"), c, w)
  else
    let s := sendMessage (OutPong (mkPongResponse "pong" (ping_RequestID req) now)) c (chans w) in
    Some (s.1, c, mkWorld (sys w) s.2).

Section session.

(** [uuid.Parse] of github.com/google/uuid: [true] when it returns no error. *)
Variable uuid_Parse : string → bool.

Definition handlePublish (req : PublishRequest) (now : Time) (clock : string → Time)
    (c : Client) (w : World) : option (option error * Client * World) :=
  if decide (pub_RequestID req = "") then
    Some (Some (bad_request "request_id is required"), c, w)
  else
    match (if decide (clientID c = "") then
             if decide (pub_ClientID req = "") then
               inl (bad_request "client_id is required for first message on this connection")
             else inr (mkClient (send c) (pub_ClientID req))
           else if decide (pub_ClientID req ≠ "" ∧ clientID c ≠ pub_ClientID req) then
             inl (bad_request "client_id mismatch with existing connection")
           else inr c) with
    | inl e => Some (Some e, c, w)
    | inr c =>
        let invalid_id :=
          mkErrorResponse "error" (pub_RequestID req)
            (mkErrorData "BAD_REQUEST" "message.id must be a valid UUID") now in
        if decide (ID (pub_Message req) = "") then
          let s := sendMessage (OutError invalid_id) c (chans w) in
          Some (s.1, c, mkWorld (sys w) s.2)
        else if negb (uuid_Parse (ID (pub_Message req))) then
          let s := sendMessage (OutError invalid_id) c (chans w) in
          Some (s.1, c, mkWorld (sys w) s.2)
        else
          r ← Publish (pub_Topic req) (pub_Message req) (clientID c) now clock w;
          match r.1 with
          | Some err =>
              let errorResp :=
                mkErrorResponse "error" (pub_RequestID req)
                  (mkErrorData "PUBLISH_FAILED" (Error err)) now in
              let s := sendMessage (OutError errorResp) c (chans r.2) in
              Some (s.1, c, mkWorld (sys r.2) s.2)
          | None =>
              let ackResp := mkAckResponse "ack" (pub_RequestID req) (pub_Topic req) "ok" now in
              let s := sendMessage (OutAck ackResp) c (chans r.2) in
              Some (s.1, c, mkWorld (sys r.2) s.2)
          end
    end.

Definition handleMessage (data : string + Frame) (now : Time) (clock : string → Time)
    (c : Client) (w : World) : option (option error * Client * World) :=
  match ParseMessage data with
  | inl err => Some (Some err, c, w)
  | inr (ReqSubscribe msg) => handleSubscribe msg now c w
  | inr (ReqUnsubscribe msg) => handleUnsubscribe msg now c w
  | inr (ReqPublish msg) => handlePublish msg now clock c w
  | inr (ReqPing msg) => handlePing msg now c w
  end.

(** One turn of the loop of [processPump], for a frame taken from the
    receive channel. *)
Definition processPump (data : string + Frame) (now : Time) (clock : string → Time)
    (c : Client) (w : World) : option (Client * World) :=
  r ← handleMessage data now clock c w;
  match r.1.1 with
  | Some err =>
      let errorResp :=
        mkErrorResponse "error" "" (mkErrorData "PROCESSING_ERROR" (Error err)) now in
      Some (r.1.2, mkWorld (sys r.2) (sendMessage (OutError errorResp) r.1.2 (chans r.2)).2)
  | None => Some (r.1.2, r.2)
  end.

(** The requests the session must reject: no [request_id], no
    [client_id] where one is required, or a publish whose [message.id]
    is not a UUID. *)
Definition invalid (c : Client) (r : Request) : Prop :=
  match r with
  | ReqSubscribe req => sub_RequestID req = "" ∨ sub_ClientID req = ""
  | ReqUnsubscribe req => unsub_RequestID req = "" ∨ unsub_ClientID req = ""
  | ReqPublish req =>
      pub_RequestID req = "" ∨ (clientID c = "" ∧ pub_ClientID req = "")
      ∨ ID (pub_Message req) = "" ∨ uuid_Parse (ID (pub_Message req)) = false
  | ReqPing req => ping_RequestID req = ""
  end.

End session.

(** The error code carried by a frame on the wire, if it is an error frame. *)
Definition frame_code (e : EventResponse) : option string :=
  if decide (evType e = "error") then
    match payload (evMessage e) with
    | PayloadError d => Some (Code d)
    | _ => None
    end
  else None.

(** ** Concrete worlds used to exercise the theorems *)

Definition demo_message : MessageData := mkMessageData "echo-test-1" (PayloadJSON "text").

Definition demo_init : World := mkWorld (NewPubSubSystem 0) {[ 1%nat := mkChan 10 [] ]}.

Definition demo_ops : list Op :=
  [OpCreateTopic "T" 1; OpSubscribe "c1" "T" 0 1%nat 2;
   OpPublish "T" demo_message "c2" 3 (λ _, 4)].

Definition demo_final : World * Log :=
  Eval vm_compute in
    default (demo_init, mkLog (λ _, []) (λ _, []))
      (exec demo_ops demo_init (mkLog (λ _, []) (λ _, []))).

Definition demo_world : World := demo_final.1.

Definition demo_log : Log := demo_final.2.

Definition demo_topic : Topic :=
  Eval vm_compute in
    default (mkTopic "" ∅ 0 0 (mkRingBuffer [] 0 0 0 0 false)) (topics (sys demo_world) !! "T").

(** A ring of capacity 3 after four pushes. *)
Definition demo_event (n : Z) : EventResponse :=
  mkEventResponse "event" "T" (mkMessageData "id" PayloadNil) n.

Definition demo_ring : RingBuffer :=
  Eval vm_compute in
    default (mkRingBuffer [] 0 0 0 0 false)
      (rb ← NewRingBuffer 3;
       range_loop Push [demo_event 1; demo_event 2; demo_event 3; demo_event 4] rb).

(** A registry with a stale edge: client "c" holds topic "gone", which
    the registry does not have. *)
Definition stale_system : PubSubSystem :=
  mkPubSubSystem ∅ ∅ {[ "c" := {[ "gone" := true ]} ]} 0.


(** ** The ring buffer as a bounded queue *)

(** [holds c rb l]: [rb] was built by [NewRingBuffer c] and operations on
    it, and [l] is what a FIFO queue bounded by [c] holds after the same
    operations, oldest first: a push appends and keeps the newest [c], a
    pop removes the oldest, [PopAll] and [Clear] remove all.  The list is
    kept beside the buffer and is not read from it. *)
Inductive holds (c : Z) : RingBuffer → list EventResponse → Prop :=
| holds_new rb : NewRingBuffer c = Some rb → holds c rb []
| holds_push e rb l rb' :
    holds c rb l → Push e rb = Some rb' → holds c rb' (last_n (Z.to_nat c) (l ++ [e]))
| holds_pop rb l o rb' : holds c rb l → Pop rb = Some (o, rb') → holds c rb' (drop 1 l)
| holds_popall rb l out rb' : holds c rb l → PopAll rb = Some (out, rb') → holds c rb' []
| holds_clear rb l : holds c rb l → holds c (Clear rb) [].

(** ** The critical sections of the registry

    The operations of [pubsub.go] above are each run from start to end.
    [Subscribe] takes and releases its locks four times, and between two
    of its critical sections another goroutine can run a whole operation.
    Here the registry holds its [Topic] objects by address, as the Go map
    holds pointers: a goroutine that has looked a topic up keeps the
    address across its critical sections, whether or not the registry
    still holds it.  Clients stay addressed by their id. *)

Module Interleaved.

Record Store := mkStore {
  objects : gmap nat Topic;
  allocated : nat;
  s_topics : gmap string nat;
  s_clients : gmap string PubSubClient;
  s_clientTopics : gmap string (gmap string bool);
  s_startTime : Time;
  s_chans : Heap
}.


Definition NewPubSubSystem (now : Time) (h : Heap) : Store :=
  mkStore ∅ 0 ∅ ∅ ∅ now h.

(** [&Topic{...}] takes the next free address. *)
Definition CreateTopic (name : string) (now : Time) (s : Store)
  : option (option error * Store) :=
  match s_topics s !! name with
  | Some _ => Some (Some (ErrorString ("topic " +:+ name +:+ " already exists")), s)
  | None =>
      history ← NewRingBuffer TopicHistoryBufferSize;
      Some (None,
            mkStore (<[allocated s := mkTopic name ∅ 0 now history]> (objects s))
              (S (allocated s)) (<[name := allocated s]> (s_topics s))
              (s_clients s) (s_clientTopics s) (s_startTime s) (s_chans s))
  end.

(** [DeleteTopic] run from start to end; the object stays where it is,
    reachable only through the addresses goroutines still hold. *)
Definition DeleteTopic (name : string) (uuid : string → string) (clock : string → Time)
    (s : Store) : option (option error * Store) :=
  match s_topics s !! name with
  | None => Some (Some (ErrorString ("topic " +:+ name +:+ " not found")), s)
  | Some addr =>
      topic ← objects s !! addr;
      st ← range_loop (notify_evict (s_clients s) name uuid clock)
             (map_to_list (Subscribers topic)).*2 (s_clientTopics s, s_chans s);
      Some (None,
            mkStore (objects s) (allocated s) (delete name (s_topics s)) (s_clients s)
              st.1 (s_startTime s) st.2)
  end.

(** The body of the loop of [DisconnectClient]. *)
Definition remove_subscriber (clientID : string) (tps : gmap string nat)
    (objs : gmap nat Topic) (topicName : string) : gmap nat Topic :=
  match tps !! topicName with
  | Some addr =>
      match objs !! addr with
      | Some topic =>
          <[addr := mkTopic (Name topic) (delete clientID (Subscribers topic))
                      (MessageCount topic) (CreatedAt topic) (MessageHistory topic)]> objs
      | None => objs
      end
  | None => objs
  end.

(** [DisconnectClient] run from start to end. *)
Definition DisconnectClient (clientID : string) (s : Store) : Store :=
  let cls := match s_clients s !! clientID with
             | Some client =>
                 <[clientID := mkPubSubClient (ClientID client) (Buffer client)
                                 (WriteChan client) (LastActive client) false]> (s_clients s)
             | None => s_clients s
             end in
  match s_clientTopics s !! clientID with
  | None =>
      mkStore (objects s) (allocated s) (s_topics s) cls (s_clientTopics s)
        (s_startTime s) (s_chans s)
  | Some topicsMap =>
      mkStore
        (foldl (remove_subscriber clientID (s_topics s)) (objects s)
           (map_to_list topicsMap).*1)
        (allocated s) (s_topics s) cls (delete clientID (s_clientTopics s))
        (s_startTime s) (s_chans s)
  end.

(** [Subscribe], first critical section (under [topicsMutex.RLock]): the
    lookup; [None] is the not-found return. *)
Definition Subscribe_lookup (topicName : string) (s : Store) : option nat :=
  s_topics s !! topicName.

(** Second critical section (under [clientMutex]):
    [ps.clientTopics[clientID][topicName] = true]. *)
Definition Subscribe_edge (clientID topicName : string) (s : Store) : Store :=
  let inner := default ∅ (s_clientTopics s !! clientID) in
  mkStore (objects s) (allocated s) (s_topics s) (s_clients s)
    (<[clientID := <[topicName := true]> inner]> (s_clientTopics s))
    (s_startTime s) (s_chans s).

(** Third critical section (under [clientMutex]): register or get the client. *)
Definition Subscribe_client (clientID : string) (writeChan : ChanRef) (now : Time)
    (s : Store) : option Store :=
  client ← register_client clientID writeChan now (s_clients s);
  Some (mkStore (objects s) (allocated s) (s_topics s)
          (<[clientID := client]> (s_clients s)) (s_clientTopics s)
          (s_startTime s) (s_chans s)).

(** Fourth critical section (under [topic.mutex] of the topic found by
    the first): the subscriber entry and the history. *)
Definition Subscribe_attach (clientID topicName : string) (topic : nat) (lastN : Z)
    (s : Store) : option (list EventResponse * Store) :=
  obj ← objects s !! topic;
  let subscriber := mkSubscriber clientID topicName clientID in
  let obj' := mkTopic (Name obj) (<[clientID := subscriber]> (Subscribers obj))
                (MessageCount obj) (CreatedAt obj) (MessageHistory obj) in
  lastMessages ← (if decide (lastN > 0) then GetLastN lastN (MessageHistory obj)
                  else Some []);
  Some (lastMessages,
        mkStore (<[topic := obj']> (objects s)) (allocated s) (s_topics s) (s_clients s)
          (s_clientTopics s) (s_startTime s) (s_chans s)).

(** The four critical sections of [Subscribe] with nothing in between. *)
Definition Subscribe (clientID topicName : string) (lastN : Z) (writeChan : ChanRef)
    (now : Time) (s : Store) : option (list EventResponse * option error * Store) :=
  match Subscribe_lookup topicName s with
  | None => Some ([], Some (ErrorString ("topic " +:+ topicName +:+ " not found")), s)
  | Some topic =>
      s3 ← Subscribe_client clientID writeChan now (Subscribe_edge clientID topicName s);
      r ← Subscribe_attach clientID topicName topic lastN s3;
      Some (r.1, None, r.2)
  end.





End Interleaved.



(** ** Further invariants *)

(** Between operations: a topic carries its key as name and a client
    record its id, every subscriber of a topic is a connected client, and
    no client is left with an empty topic set. *)
Record aux_inv (ps : PubSubSystem) : Prop := mk_aux_inv {
  aux_name : ∀ t topic, topics ps !! t = Some topic → Name topic = t;
  aux_conn : ∀ t c s,
      sub_lookup (topics ps) t c = Some s →
      ∃ client, clients ps !! c = Some client ∧ Connected client = true;
  aux_cid : ∀ c client, clients ps !! c = Some client → ClientID client = c;
  aux_nonempty : ∀ c inner, clientTopics ps !! c = Some inner → inner ≠ ∅
}.

(** No channel holds more than its capacity. *)
Definition heap_bounded (h : Heap) : Prop :=
  ∀ ch q, h !! ch = Some q → (length (chQueue q) ≤ chCap q)%nat.

(** From [h] to [h'] no channel appears or disappears, capacities stay,
    and every queue only grows, at its end, by events that satisfy [P],
    never beyond a capacity it respected. *)
Definition heap_extends (P : EventResponse → Prop) (h h' : Heap) : Prop :=
  ∀ ch,
    (h !! ch = None → h' !! ch = None)
    ∧ ∀ q, h !! ch = Some q →
        ∃ l, h' !! ch = Some (mkChan (chCap q) (chQueue q ++ l)) ∧ Forall P l
             ∧ ((length (chQueue q) ≤ chCap q)%nat →
                (length (chQueue q ++ l) ≤ chCap q)%nat).

(** The notice [DeleteTopic] sends for topic [name]. *)
Definition is_notice (name : string) (e : EventResponse) : Prop :=
  evType e = "info" ∧ evTopic e = name ∧ payload (evMessage e) = PayloadText "topic_deleted".

(** The record of client "c1" in [demo_world]. *)
Definition demo_client : PubSubClient :=
  Eval vm_compute in
    default (mkPubSubClient "" (mkRingBuffer [] 0 0 0 0 false) 0%nat 0 false)
      (clients (sys demo_world) !! "c1").

(** The frames the registry itself puts on channels: copies of published
    events and topic-deletion notices. *)
Definition core_frame (e : EventResponse) : Prop :=
  evType e = "event"
  ∨ (evType e = "info" ∧ payload (evMessage e) = PayloadText "topic_deleted").

(** ** The read-only queries of the registry ([pubsub.go])

    A [range] over a Go map visits the entries in an unspecified order;
    the loops below visit them in the order of [map_to_list], and the
    theorems about them speak of membership and counts only. *)

Record TopicInfo := mkTopicInfo { ti_Name : string; ti_Subscribers : Z }.

Definition GetTopics (ps : PubSubSystem) : list TopicInfo :=
  foldl (λ acc topic,
           acc ++ [mkTopicInfo (Name topic) (Z.of_nat (size (Subscribers topic)))])
    [] (map_to_list (topics ps)).*2.

Record TopicStats := mkTopicStats { ts_Messages : Z; ts_Subscribers : Z }.

Definition GetStats (ps : PubSubSystem) : gmap string TopicStats :=
  foldl (λ stats nt,
           <[nt.1 := mkTopicStats (MessageCount nt.2)
                       (Z.of_nat (size (Subscribers nt.2)))]> stats)
    ∅ (map_to_list (topics ps)).

Record HealthResponse := mkHealthResponse {
  h_UptimeSeconds : Z;
  h_Topics : Z;
  h_Subscribers : Z
}.

(** [since] stands for [int(time.Since(_).Seconds())] at the time of the
    call; the running total is a Go [int]. *)
Definition GetHealth (since : Time → Z) (ps : PubSubSystem) : HealthResponse :=
  let totalSubscribers :=
    foldl (λ total topic, wrap64 (total + Z.of_nat (size (Subscribers topic))))
      0 (map_to_list (topics ps)).*2 in
  mkHealthResponse (since (startTime ps)) (Z.of_nat (size (topics ps))) totalSubscribers.

(** [for k := range m { keys = append(keys, k) }] *)
Definition keys_of {V} (m : gmap string V) : list string :=
  foldl (λ acc k, acc ++ [k]) [] (map_to_list m).*1.

Definition GetClientTopics (clientID : string) (ps : PubSubSystem) : list string :=
  match clientTopics ps !! clientID with
  | None => []
  | Some topicsMap => keys_of topicsMap
  end.

Record ClientSubscription := mkClientSubscription {
  cs_ClientID : string;
  cs_Topics : list string
}.

Record SubscriptionsStatusResponse := mkSubscriptionsStatusResponse {
  TotalClients : Z;
  TotalTopics : Z;
  Subscriptions : list ClientSubscription;
  TopicBreakdown : gmap string (list string)
}.

Definition GetSubscriptionsStatus (ps : PubSubSystem) : SubscriptionsStatusResponse :=
  let subscriptions :=
    foldl (λ acc ct, acc ++ [mkClientSubscription ct.1 (keys_of ct.2)])
      [] (map_to_list (clientTopics ps)) in
  let topicBreakdown :=
    foldl (λ acc nt, <[nt.1 := keys_of (Subscribers nt.2)]> acc)
      ∅ (map_to_list (topics ps)) in
  mkSubscriptionsStatusResponse (Z.of_nat (size (clientTopics ps)))
    (Z.of_nat (size (topics ps))) subscriptions topicBreakdown.

(** The subscription edges, read from either side of the index. *)
Definition client_edges (ps : PubSubSystem) : list (string * string) :=
  ct ← map_to_list (clientTopics ps); (λ t, (ct.1, t)) <$> (map_to_list ct.2).*1.

Definition topic_edges (ps : PubSubSystem) : list (string * string) :=
  nt ← map_to_list (topics ps); (λ c, (c, nt.1)) <$> (map_to_list (Subscribers nt.2)).*1.

(** The number of clients whose topic set contains [t]. *)
Definition subscriber_count (ps : PubSubSystem) (t : string) : nat :=
  length (filter (λ c, t ∈ GetClientTopics c ps) (keys_of (clientTopics ps))).

(** ** The session, continued *)

(** What every handler of a session guarantees in a world reached by
    completed operations: it ends in such a world again; it keeps the
    outbound channel of the session, and its client id once bound; it
    only adds frames at the end of channels, within their capacity; and it
    neither creates nor deletes a topic. *)
Definition handled (c : Client) (w : World) (c' : Client) (w' : World) : Prop :=
  (∃ log', run w' log')
  ∧ send c' = send c ∧ (clientID c ≠ "" → clientID c' = clientID c)
  ∧ heap_extends (λ _, True) (chans w) (chans w')
  ∧ ∀ t, is_Some (topics (sys w') !! t) ↔ is_Some (topics (sys w) !! t).

(** The core operations a session calls. *)
Definition session_op (op : Op) : Prop :=
  match op with
  | OpSubscribe _ _ _ _ _ | OpUnsubscribe _ _ | OpPublish _ _ _ _ _ => True
  | _ => False
  end.

(** A request that names a client id other than the one the connection
    is bound to. *)
Definition mismatch (c : Client) (r : Request) : Prop :=
  clientID c ≠ "" ∧
  match r with
  | ReqSubscribe req => clientID c ≠ sub_ClientID req
  | ReqUnsubscribe req => clientID c ≠ unsub_ClientID req
  | ReqPublish req => pub_ClientID req ≠ "" ∧ clientID c ≠ pub_ClientID req
  | ReqPing _ => False
  end.

(** The frames of [h'] are those of [h] and, at the end of the channel
    of session [c] only, frames that satisfy [P]. *)
Definition replies_only (P : EventResponse → Prop) (c : Client) (h h' : Heap) : Prop :=
  heap_extends P h h' ∧ ∀ ch : nat, ch ≠ send c → h' !! ch = h !! ch.

(** The error frame a handler queues when the registry turns a request down. *)
Definition failed_frame (code requestID msg : string) (now : Time) : EventResponse :=
  mkEventResponse "error" "" (mkMessageData requestID (PayloadError (mkErrorData code msg))) now.

(** ** The HTTP handlers ([handlers.go]) *)

Module HTTPHandlers.

Record CreateTopicRequest := mkCreateTopicRequest { req_Name : string }.

(** What a handler writes as the body of its response. *)
Inductive Body :=
| BodyText (msg : string)
| BodyCreateTopicResponse (status topic : string)
| BodyDeleteTopicResponse (status topic : string)
| BodyErrorMap (msg : string).

Record Response := mkResponse {
  StatusCode : Z;
  ContentType : string;
  ResponseBody : Body
}.

Definition StatusOK : Z := 200.
Definition StatusCreated : Z := 201.
Definition StatusBadRequest : Z := 400.
Definition StatusNotFound : Z := 404.
Definition StatusConflict : Z := 409.

(** [http.Error(w, msg, code)] of net/http. *)
Definition http_Error (msg : string) (code : Z) : Response :=
  mkResponse code "text/plain; charset=utf-8" (BodyText msg).

Definition json (code : Z) (body : Body) : Response :=
  mkResponse code "application/json" body.

(** POST /topics; [body] is [None] when the JSON decoder fails, and [now]
    is the [time.Now()] of the registry's [CreateTopic]. *)
Definition CreateTopic (body : option CreateTopicRequest) (now : Time) (w : World)
  : option (Response * World) :=
  match body with
  | None => Some (http_Error "Invalid JSON payload" StatusBadRequest, w)
  | Some req =>
      if decide (req_Name req = "")
      then Some (http_Error "Topic name is required" StatusBadRequest, w)
      else
        r ← CreateTopic (req_Name req) now (sys w);
        match r.1 with
        | Some _ =>
            Some (json StatusConflict (BodyCreateTopicResponse "exists" (req_Name req)),
                  mkWorld r.2 (chans w))
        | None =>
            Some (json StatusCreated (BodyCreateTopicResponse "created" (req_Name req)),
                  mkWorld r.2 (chans w))
        end
  end.

(** DELETE /topics/{name}; [topicName] is [mux.Vars(r)["name"]]. *)
Definition DeleteTopic (topicName : string) (uuid : string → string)
    (clock : string → Time) (w : World) : option (Response * World) :=
  if decide (topicName = "")
  then Some (http_Error "Topic name is required" StatusBadRequest, w)
  else
    r ← DeleteTopic topicName uuid clock w;
    match r.1 with
    | Some _ => Some (json StatusNotFound (BodyErrorMap "Topic not found"), r.2)
    | None => Some (json StatusOK (BodyDeleteTopicResponse "deleted" topicName), r.2)
    end.

End HTTPHandlers.
(** ** Ring buffer: supporting lemmas *)

Lemma rem_wrap (x c : Z) :
  0 ≤ x < 2 * c → Z.rem x c = if decide (x < c) then x else x - c.
Proof.
  intros Hx. case_decide.
  - apply Z.rem_small; lia.
  - rewrite Z.rem_mod_nonneg by lia.
    replace x with ((x - c) + 1 * c) by lia.
    rewrite Z.mod_add by lia. rewrite Z.mod_small; lia.
Qed.

Lemma go_rem_wrap (x c : Z) :
  0 < c → 0 ≤ x < 2 * c → go_rem x c = Some (if decide (x < c) then x else x - c).
Proof.
  intros Hc Hx. unfold go_rem. rewrite decide_False by lia.
  by rewrite rem_wrap.
Qed.



Lemma length_cells rb start count : length (cells rb start count) = Z.to_nat count.
Proof. unfold cells. by rewrite length_fmap, length_seq. Qed.

Lemma cells_lookup rb start count (i : nat) :
  (i < Z.to_nat count)%nat →
  cells rb start count !! i = Some (cell rb (slot rb start (Z.of_nat i))).
Proof.
  intros Hi. unfold cells. rewrite list_lookup_fmap.
  by rewrite (lookup_seq_lt 0 (Z.to_nat count) i Hi).
Qed.

Lemma slot_lt rb start i :
  0 < rb_capacity rb → 0 ≤ start < rb_capacity rb → 0 ≤ i < rb_capacity rb →
  length (rb_buffer rb) = Z.to_nat (rb_capacity rb) →
  (slot rb start i < length (rb_buffer rb))%nat.
Proof. intros ??? ->. unfold slot. case_decide; lia. Qed.

Lemma read_from_cells rb start count :
  0 < rb_capacity rb → length (rb_buffer rb) = Z.to_nat (rb_capacity rb) →
  0 ≤ start < rb_capacity rb → 0 ≤ count ≤ rb_capacity rb →
  read_from rb start count = Some (cells rb start count).
Proof.
  intros Hc Hlen Hs Hn. unfold read_from, cells, seqZ.
  apply mapM_Some. apply Forall2_fmap. apply Forall_Forall2_diag.
  apply list.Forall_forall. intros i Hi%elem_of_seq. simpl.
  rewrite go_rem_wrap by lia. simpl.
  unfold index. rewrite decide_True by (case_decide; lia).
  pose proof (slot_lt rb start (Z.of_nat i) Hc Hs ltac:(lia) Hlen) as Hlt.
  apply lookup_lt_is_Some_2 in Hlt as [x Hx].
  unfold cell, slot in *. replace (Z.of_nat i + 0) with (Z.of_nat i) by lia.
  by rewrite Hx.
Qed.


Lemma contents_elems rb : rb_wf rb → contents rb = Some (elems rb).
Proof.
  intros [Hc Hl Hs Ht Hh Hw Hf]. unfold contents, elems.
  destruct (decide (rb_capacity rb = 0)) as [H0|Hpos].
  - assert (rb_size rb = 0) as -> by lia. done.
  - apply read_from_cells; lia.
Qed.

Lemma length_elems rb : length (elems rb) = Z.to_nat (rb_size rb).
Proof. apply length_cells. Qed.

Lemma NewRingBuffer_wf c rb : NewRingBuffer c = Some rb → rb_wf rb ∧ rb_capacity rb = c ∧ rb_size rb = 0.
Proof.
  unfold NewRingBuffer. case_decide; [done|]. intros [= <-]. simpl.
  split; [|done]. split; simpl; rewrite ?length_replicate; try lia.
Qed.

Lemma Push_wf e rb rb' : rb_wf rb → Push e rb = Some rb' → rb_wf rb' ∧ rb_capacity rb' = rb_capacity rb.
Proof.
  intros [Hc Hl Hs Ht Hh Hw Hf]. unfold Push, store.
  destruct (decide (0 ≤ rb_head rb < Z.of_nat (length (rb_buffer rb)))) as [Hin|]; [|done]; simpl.
  assert (0 < rb_capacity rb) as Hpos by lia.
  destruct (rb_full rb) eqn:Hfull.
  - rewrite !go_rem_wrap by lia. simpl. intros [= <-]. simpl.
    destruct Hf as [Hf _]. specialize (Hf eq_refl).
    split; [|done]. split; simpl; rewrite ?length_insert; repeat case_decide; try lia.
    all: try (split; [done|lia]).
  - rewrite !go_rem_wrap by lia. simpl. intros [= <-]. simpl.
    assert (rb_size rb < rb_capacity rb) as Hlt.
    { destruct (decide (rb_size rb = rb_capacity rb)) as [He|]; [|lia].
      destruct Hf as [_ Hf]. by specialize (Hf ltac:(lia)). }
    split; [|done]. split; simpl; rewrite ?length_insert; repeat case_decide; try lia.
    all: try (split; [done|lia]); try (split; [done|intros; lia]).
Qed.

Lemma Pop_wf rb o rb' : rb_wf rb → Pop rb = Some (o, rb') → rb_wf rb' ∧ rb_capacity rb' = rb_capacity rb.
Proof.
  intros Hwf. pose proof Hwf as [Hc Hl Hs Ht Hh Hw Hf]. unfold Pop.
  case_decide as Hz; [by intros [= <- <-]|].
  destruct (index _ _) as [m|]; [|done]. simpl.
  rewrite go_rem_wrap by lia. simpl. intros [= <- <-]. simpl.
  split; [|done]. split; simpl; repeat case_decide; try lia.
Qed.

Lemma Clear_wf rb : rb_wf rb → rb_wf (Clear rb).
Proof.
  intros [Hc Hl Hs Ht Hh Hw Hf]. split; simpl; try lia; try done.
Qed.

Lemma PopAll_wf rb l rb' : rb_wf rb → PopAll rb = Some (l, rb') → rb_wf rb' ∧ rb_capacity rb' = rb_capacity rb.
Proof.
  intros Hwf. unfold PopAll. case_decide; [by intros [= <- <-]|].
  case_decide; [done|]. destruct (read_from _ _ _); [|done]. simpl.
  intros [= <- <-]. split; [|done]. by apply (Clear_wf rb).
Qed.

Lemma rb_reachable_wf rb : rb_reachable rb → rb_wf rb.
Proof.
  induction 1 as [c rb Hnew|e rb rb' _ IH Hp|rb o rb' _ IH Hp|rb l rb' _ IH Hp|rb _ IH].
  - by apply NewRingBuffer_wf in Hnew as [? _].
  - by apply (Push_wf e rb rb') in Hp as [? _].
  - by apply (Pop_wf rb o rb') in Hp as [? _].
  - by apply (PopAll_wf rb l rb') in Hp as [? _].
  - by apply Clear_wf.
Qed.

Lemma Push_elems e rb rb' :
  rb_wf rb → Push e rb = Some rb' →
  elems rb' = (if decide (rb_size rb = rb_capacity rb) then drop 1 (elems rb) else elems rb) ++ [e]
  ∧ rb_size rb' = (if decide (rb_size rb = rb_capacity rb) then rb_capacity rb else rb_size rb + 1)
  ∧ rb_tail rb' = (if decide (rb_size rb = rb_capacity rb) then Z.rem (rb_tail rb + 1) (rb_capacity rb)
                   else rb_tail rb).
Proof.
  intros Hwf HP. pose proof Hwf as [Hc Hl Hs Ht Hh Hw Hf]. unfold Push, store in HP.
  destruct (decide (0 ≤ rb_head rb < Z.of_nat (length (rb_buffer rb)))) as [Hin|]; [|done].
  simpl in HP. assert (0 < rb_capacity rb) as Hpos by lia.
  destruct (rb_full rb) eqn:Hfull.
  - rewrite !go_rem_wrap in HP by lia. simpl in HP. injection HP as <-.
    destruct Hf as [Hf _]. specialize (Hf eq_refl) as [_ Hsz].
    destruct (decide (rb_size rb = rb_capacity rb)) as [_|]; [|done].
    simpl. rewrite rem_wrap by lia. split; [|done].
    apply (list_eq_same_length _ _ (Z.to_nat (rb_capacity rb))).
    + rewrite length_app, length_drop, length_elems. simpl. lia.
    + rewrite length_elems. simpl. lia.
    + intros i x y Hi Hx Hy. unfold elems in Hx.
      rewrite cells_lookup in Hx by (simpl; lia). simpl in Hx.
      destruct (decide (i < Z.to_nat (rb_capacity rb) - 1)%nat) as [Hlt|Hge].
      * rewrite lookup_app_l in Hy by (rewrite length_drop, length_elems; lia).
        rewrite lookup_drop in Hy. unfold elems in Hy.
        rewrite cells_lookup in Hy by lia.
        injection Hx as <-. injection Hy as <-.
        unfold cell, slot. simpl.
        rewrite list_lookup_insert_ne by (repeat case_decide; lia).
        do 2 f_equal. repeat case_decide; lia.
      * rewrite lookup_app_r in Hy by (rewrite length_drop, length_elems; lia).
        rewrite length_drop, length_elems in Hy.
        replace (i - (Z.to_nat (rb_size rb) - 1))%nat with 0%nat in Hy by lia.
        injection Hx as <-. injection Hy as <-.
        unfold cell, slot. simpl.
        replace (Z.to_nat _) with (Z.to_nat (rb_head rb)) by (repeat case_decide; lia).
        rewrite list_lookup_insert_eq by lia. done.
  - rewrite !go_rem_wrap in HP by lia. simpl in HP. injection HP as <-.
    assert (rb_size rb < rb_capacity rb) as Hlt.
    { destruct (decide (rb_size rb = rb_capacity rb)) as [He|]; [|lia].
      destruct Hf as [_ Hf]. by specialize (Hf ltac:(lia)). }
    destruct (decide (rb_size rb = rb_capacity rb)) as [|_]; [lia|].
    simpl. split; [|done].
    apply (list_eq_same_length _ _ (Z.to_nat (rb_size rb + 1))).
    + rewrite length_app, length_elems. simpl. lia.
    + rewrite length_elems. simpl. lia.
    + intros i x y Hi Hx Hy. unfold elems in Hx.
      rewrite cells_lookup in Hx by (simpl; lia). simpl in Hx.
      destruct (decide (i < Z.to_nat (rb_size rb))%nat) as [Hlt'|Hge].
      * rewrite lookup_app_l in Hy by (rewrite length_elems; lia).
        unfold elems in Hy. rewrite cells_lookup in Hy by lia.
        injection Hx as <-. injection Hy as <-.
        unfold cell, slot. simpl.
        rewrite list_lookup_insert_ne by (repeat case_decide; lia). done.
      * rewrite lookup_app_r in Hy by (rewrite length_elems; lia).
        rewrite length_elems in Hy.
        replace (i - Z.to_nat (rb_size rb))%nat with 0%nat in Hy by lia.
        injection Hx as <-. injection Hy as <-.
        unfold cell, slot. simpl.
        replace (Z.to_nat _) with (Z.to_nat (rb_head rb)) by (repeat case_decide; lia).
        rewrite list_lookup_insert_eq by lia. done.
Qed.

Lemma Pop_elems rb o rb' :
  rb_wf rb → Pop rb = Some (o, rb') →
  o = elems rb !! 0%nat ∧ elems rb' = drop 1 (elems rb).
Proof.
  intros Hwf HP. pose proof Hwf as [Hc Hl Hs Ht Hh Hw Hf]. unfold Pop in HP.
  destruct (decide (rb_size rb = 0)) as [Hz|Hnz].
  - injection HP as <- <-. unfold elems, cells. rewrite Hz. done.
  - assert (0 < rb_capacity rb) as Hpos by lia.
    unfold index in HP. rewrite decide_True in HP by lia.
    destruct (rb_buffer rb !! Z.to_nat (rb_tail rb)) as [m|] eqn:Hm; [|done].
    simpl in HP. rewrite go_rem_wrap in HP by lia. simpl in HP.
    injection HP as <- <-. split.
    + unfold elems. rewrite cells_lookup by lia. f_equal.
      unfold cell, slot. simpl. rewrite decide_True by lia.
      replace (rb_tail rb + Z.of_nat 0) with (rb_tail rb) by lia. by rewrite Hm.
    + apply (list_eq_same_length _ _ (Z.to_nat (rb_size rb - 1))).
      * rewrite length_drop, length_elems. lia.
      * rewrite length_elems. simpl. lia.
      * intros i x y Hi Hx Hy. unfold elems in Hx, Hy.
        rewrite cells_lookup in Hx by (simpl; lia).
        rewrite lookup_drop, cells_lookup in Hy by lia.
        injection Hx as <-. injection Hy as <-.
        unfold cell, slot. simpl. do 2 f_equal. repeat case_decide; lia.
Qed.

Lemma PopAll_elems rb l rb' :
  rb_wf rb → PopAll rb = Some (l, rb') → l = elems rb ∧ elems rb' = [].
Proof.
  intros Hwf HP. unfold PopAll in HP.
  destruct (decide (rb_size rb = 0)) as [Hz|Hnz].
  - injection HP as <- <-. unfold elems, cells. rewrite Hz. done.
  - case_decide; [done|].
    change (read_from rb (rb_tail rb) (rb_size rb)) with (contents rb) in HP.
    rewrite contents_elems in HP by done. simpl in HP. by injection HP as <- <-.
Qed.

Lemma GetLastN_elems n rb :
  rb_wf rb →
  GetLastN n rb = Some (last_n (Z.to_nat (Z.min n (rb_size rb))) (elems rb)).
Proof.
  intros Hwf. pose proof Hwf as [Hc Hl Hs Ht Hh Hw Hf]. unfold GetLastN, last_n.
  rewrite length_elems.
  destruct (decide (rb_size rb = 0 ∨ n ≤ 0)) as [Hz|Hnz].
  - f_equal. symmetry. apply drop_ge. rewrite length_elems. lia.
  - assert (0 < rb_capacity rb) as Hpos by lia.
    set (count := if decide (n > rb_size rb) then rb_size rb else n).
    assert (count = Z.min n (rb_size rb)) as Hcount by (unfold count; case_decide; lia).
    rewrite decide_False by lia.
    rewrite read_from_cells by (repeat case_decide; lia). f_equal.
    apply (list_eq_same_length _ _ (Z.to_nat count)).
    + rewrite length_drop, length_elems. lia.
    + rewrite length_cells. done.
    + intros i x y Hi Hx Hy.
      rewrite cells_lookup in Hx by lia. unfold elems in Hy.
      rewrite lookup_drop, cells_lookup in Hy by lia.
      injection Hx as <-. injection Hy as <-.
      unfold cell, slot. do 2 f_equal. repeat case_decide; lia.
Qed.

Lemma reach_pushes es rb rb' :
  rb_reachable rb → range_loop Push es rb = Some rb' → rb_reachable rb'.
Proof.
  revert rb. induction es as [|e es IH]; intros rb Hrb; simpl.
  - by intros [= <-].
  - destruct (Push e rb) as [rb1|] eqn:HP; simpl; [|done].
    apply IH. by eapply reach_push.
Defined.

(** ** Registry: supporting lemmas *)

Lemma wrap64_small x : - 2 ^ 63 ≤ x < 2 ^ 63 → wrap64 x = x.
Proof. intros Hx. unfold wrap64. rewrite Z.mod_small; lia. Qed.

Lemma wrap64_range x : - 2 ^ 63 ≤ wrap64 x < 2 ^ 63.
Proof.
  unfold wrap64. pose proof (Z.mod_pos_bound (x + 2 ^ 63) (2 ^ 64) ltac:(lia)). lia.
Qed.

Lemma wrap64_add x y : wrap64 (wrap64 x + y) = wrap64 (x + y).
Proof.
  unfold wrap64. f_equal.
  replace ((x + 2 ^ 63) `mod` 2 ^ 64 - 2 ^ 63 + y + 2 ^ 63)
    with ((x + 2 ^ 63) `mod` 2 ^ 64 + y) by lia.
  rewrite Zplus_mod_idemp_l. f_equal. lia.
Qed.

Lemma last_n_length {A} k (l : list A) : length (last_n k l) = (length l `min` k)%nat.
Proof. unfold last_n. rewrite length_drop. lia. Qed.

Lemma last_n_suffix {A} k (l : list A) : last_n k l `suffix_of` l.
Proof. apply suffix_drop. Qed.

Lemma last_n_snoc {A} k (l : list A) x :
  (0 < k)%nat →
  last_n k (l ++ [x]) =
  (if decide (length (last_n k l) = k) then drop 1 (last_n k l) else last_n k l) ++ [x].
Proof.
  intros Hk. rewrite last_n_length. unfold last_n. rewrite length_app. simpl.
  case_decide.
  - rewrite drop_drop. rewrite drop_app_le by lia. do 2 f_equal. lia.
  - replace (length l - k)%nat with 0%nat by lia.
    replace (length l + 1 - k)%nat with 0%nat by lia. done.
Qed.

Lemma in_client_topics_lookup ps c t :
  in_client_topics ps c t ↔ is_Some (ct_lookup (clientTopics ps) c t).
Proof.
  unfold in_client_topics, ct_lookup. split.
  - intros (inner & -> & H). done.
  - destruct (clientTopics ps !! c) as [inner|]; simpl; [eauto|by intros [? ?]].
Qed.

Lemma subscribed_lookup ps c t :
  subscribed ps c t ↔ is_Some (sub_lookup (topics ps) t c).
Proof.
  unfold subscribed, sub_lookup. split.
  - intros (topic & -> & H). done.
  - destruct (topics ps !! t) as [topic|]; simpl; [eauto|by intros [? ?]].
Qed.

Lemma ct_lookup_drop_edge ct c name inner c' t' :
  ct !! c = Some inner →
  ct_lookup (drop_edge c name inner ct) c' t' =
  if decide (c' = c ∧ t' = name) then None else ct_lookup ct c' t'.
Proof.
  intros Hc. unfold ct_lookup, drop_edge.
  destruct (decide (c' = c)) as [->|Hne].
  - rewrite Hc. simpl. case_decide as Hsz.
    + rewrite lookup_delete_eq. simpl. apply map_size_empty_iff in Hsz.
      case_decide as Hd; [done|].
      assert (t' ≠ name) by naive_solver.
      rewrite <- (lookup_delete_ne inner name t') by done. by rewrite Hsz.
    + rewrite lookup_insert_eq. simpl. case_decide as Hd.
      * destruct Hd as [_ ->]. apply lookup_delete_eq.
      * apply lookup_delete_ne. naive_solver.
  - destruct (decide (c' = c ∧ t' = name)) as [[? _]|_]; [done|].
    case_decide; by rewrite ?lookup_delete_ne, ?lookup_insert_ne.
Qed.

Lemma ct_lookup_subscribe ct c t c' t' :
  ct_lookup (<[c := <[t := true]> (default ∅ (ct !! c))]> ct) c' t' =
  if decide (c' = c ∧ t' = t) then Some true else ct_lookup ct c' t'.
Proof.
  unfold ct_lookup. destruct (decide (c' = c)) as [->|Hne].
  - rewrite lookup_insert_eq. simpl. case_decide as Hd.
    + destruct Hd as [_ ->]. apply lookup_insert_eq.
    + rewrite lookup_insert_ne by naive_solver.
      destruct (ct !! c); simpl; [done|apply lookup_empty].
  - destruct (decide (c' = c ∧ t' = t)) as [[? _]|_]; [done|].
    by rewrite lookup_insert_ne.
Qed.

Lemma ct_lookup_delete ct c c' t' :
  ct_lookup (delete c ct) c' t' = if decide (c' = c) then None else ct_lookup ct c' t'.
Proof.
  unfold ct_lookup. case_decide as Hd.
  - subst. by rewrite lookup_delete_eq.
  - by rewrite lookup_delete_ne.
Qed.

Lemma sub_lookup_insert tps t topic t' c' :
  sub_lookup (<[t := topic]> tps) t' c' =
  if decide (t' = t) then Subscribers topic !! c' else sub_lookup tps t' c'.
Proof.
  unfold sub_lookup. case_decide as Hd.
  - subst. by rewrite lookup_insert_eq.
  - by rewrite lookup_insert_ne.
Qed.

Lemma sub_lookup_delete tps t t' c' :
  sub_lookup (delete t tps) t' c' = if decide (t' = t) then None else sub_lookup tps t' c'.
Proof.
  unfold sub_lookup. case_decide as Hd.
  - subst. by rewrite lookup_delete_eq.
  - by rewrite lookup_delete_ne.
Qed.

Lemma sub_lookup_Some tps t c s :
  sub_lookup tps t c = Some s ↔ ∃ topic, tps !! t = Some topic ∧ Subscribers topic !! c = Some s.
Proof.
  unfold sub_lookup. destruct (tps !! t) as [topic|]; simpl; split.
  - eauto.
  - by intros (? & [= <-] & ?).
  - done.
  - by intros (? & [=] & _).
Qed.

Lemma NewPubSubSystem_inv now : sys_inv (NewPubSubSystem now).
Proof.
  split; simpl; unfold ct_lookup, sub_lookup; intros *; rewrite ?lookup_empty; simpl; done.
Qed.

(** *** CreateTopic *)

Lemma CreateTopic_total name now ps : is_Some (CreateTopic name now ps).
Proof. unfold CreateTopic. destruct (topics ps !! name); done. Qed.

Lemma CreateTopic_new name now ps e ps' :
  CreateTopic name now ps = Some (e, ps') →
  (e ≠ None ∧ ps' = ps ∧ is_Some (topics ps !! name)) ∨
  (e = None ∧ topics ps !! name = None ∧
   ∃ history, NewRingBuffer TopicHistoryBufferSize = Some history ∧
     ps' = mkPubSubSystem (<[name := mkTopic name ∅ 0 now history]> (topics ps))
             (clients ps) (clientTopics ps) (startTime ps)).
Proof.
  unfold CreateTopic. destruct (topics ps !! name) as [topic|] eqn:Ht.
  - intros [= <- <-]. left. eauto.
  - destruct (NewRingBuffer TopicHistoryBufferSize) as [history|] eqn:Hn; [|done].
    simpl. intros [= <- <-]. right. eauto.
Qed.

Lemma CreateTopic_inv name now ps e ps' :
  sys_inv ps → CreateTopic name now ps = Some (e, ps') → sys_inv ps'.
Proof.
  intros Hinv [(_ & -> & _)|(_ & Hnone & history & Hnew & ->)]%CreateTopic_new; [done|].
  destruct Hinv as [He Ht Hs Hh Hb].
  assert (∀ t c, sub_lookup (<[name := mkTopic name ∅ 0 now history]> (topics ps)) t c
                 = sub_lookup (topics ps) t c) as Hsame.
  { intros t c. rewrite sub_lookup_insert. case_decide as Hd; [|done].
    subst. simpl. rewrite lookup_empty. unfold sub_lookup. by rewrite Hnone. }
  split; simpl.
  - intros c t. rewrite Hsame. apply He.
  - done.
  - intros t c s. rewrite Hsame. apply Hs.
  - intros t topic. destruct (decide (t = name)) as [->|Hne].
    + rewrite lookup_insert_eq. intros [= <-]. simpl.
      by destruct (NewRingBuffer_wf _ _ Hnew) as (? & ? & ?).
    + rewrite lookup_insert_ne by done. apply Hh.
  - done.
Qed.

(** *** Subscribe *)

Lemma register_client_spec c ch now cls :
  buffers_wf cls →
  ∃ client, register_client c ch now cls = Some client
    ∧ WriteChan client = ch ∧ Connected client = true ∧ LastActive client = now
    ∧ rb_wf (Buffer client) ∧ rb_capacity (Buffer client) = DefaultBufferSize
    ∧ (∀ old, cls !! c = Some old → ClientID client = ClientID old ∧ Buffer client = Buffer old).
Proof.
  intros Hb. unfold register_client. destruct (cls !! c) as [old|] eqn:Hc.
  - eexists. split; [done|]. simpl. destruct (Hb _ _ Hc). split_and!; try done.
    by intros ? [= <-].
  - destruct (NewRingBuffer DefaultBufferSize) as [buf|] eqn:Hn; [|done].
    destruct (NewRingBuffer_wf _ _ Hn) as (? & ? & ?).
    eexists. split; [done|]. simpl. split_and!; done.
Qed.

Lemma last_messages_total lastN rb :
  rb_wf rb →
  (if decide (lastN > 0) then GetLastN lastN rb else Some []) =
  Some (if decide (lastN > 0) then last_n (Z.to_nat (Z.min lastN (rb_size rb))) (elems rb) else []).
Proof. intros Hwf. case_decide; [by apply GetLastN_elems|done]. Qed.

Lemma Subscribe_found c t lastN ch now ps topic :
  sys_inv ps → topics ps !! t = Some topic →
  ∃ client,
    register_client c ch now (clients ps) = Some client ∧
    Subscribe c t lastN ch now ps =
    Some (if decide (lastN > 0)
          then last_n (Z.to_nat (Z.min lastN (rb_size (MessageHistory topic))))
                 (elems (MessageHistory topic))
          else [],
          None,
          mkPubSubSystem
            (<[t := mkTopic (Name topic) (<[c := mkSubscriber c t c]> (Subscribers topic))
                      (MessageCount topic) (CreatedAt topic) (MessageHistory topic)]> (topics ps))
            (<[c := client]> (clients ps))
            (<[c := <[t := true]> (default ∅ (clientTopics ps !! c))]> (clientTopics ps))
            (startTime ps)).
Proof.
  intros Hinv Ht. destruct (register_client_spec c ch now (clients ps) (inv_buf ps Hinv))
    as (client & Hreg & _).
  exists client. split; [done|]. unfold Subscribe. rewrite Ht, Hreg. simpl.
  rewrite last_messages_total by (by destruct (inv_hist ps Hinv t topic Ht)). done.
Qed.

Lemma Subscribe_missing c t lastN ch now ps :
  topics ps !! t = None →
  Subscribe c t lastN ch now ps =
  Some ([], Some (ErrorString ("topic " +:+ t +:+ " not found")), ps).
Proof. intros Ht. unfold Subscribe. by rewrite Ht. Qed.

Lemma Subscribe_total c t lastN ch now ps :
  sys_inv ps → is_Some (Subscribe c t lastN ch now ps).
Proof.
  intros Hinv. destruct (topics ps !! t) as [topic|] eqn:Ht.
  - destruct (Subscribe_found c t lastN ch now ps topic Hinv Ht) as (? & _ & ->). done.
  - by rewrite Subscribe_missing.
Qed.

Lemma Subscribe_inv c t lastN ch now ps r :
  sys_inv ps → Subscribe c t lastN ch now ps = Some r → sys_inv r.2.
Proof.
  intros Hinv HS. destruct (topics ps !! t) as [topic|] eqn:Htp.
  2:{ rewrite Subscribe_missing in HS by done. by injection HS as <-. }
  destruct (Subscribe_found c t lastN ch now ps topic Hinv Htp) as (client & Hreg & HS').
  rewrite HS' in HS. injection HS as <-. simpl. clear HS'.
  destruct (register_client_spec c ch now (clients ps) (inv_buf ps Hinv))
    as (client' & Hreg' & _ & _ & _ & Hwf & Hcap & _).
  rewrite Hreg in Hreg'. injection Hreg' as <-.
  pose proof Hinv as [He Ht Hs Hh Hb].
  assert (∀ c', sub_lookup (topics ps) t c' = Subscribers topic !! c') as Hsub.
  { intros c'. unfold sub_lookup. by rewrite Htp. }
  split; simpl.
  - intros c' t'. rewrite ct_lookup_subscribe, sub_lookup_insert. simpl.
    destruct (decide (t' = t)) as [->|Hnt].
    + destruct (decide (c' = c)) as [->|Hnc].
      * rewrite decide_True by done. by rewrite lookup_insert_eq.
      * destruct (decide (c' = c ∧ t = t)) as [[? _]|_]; [done|].
        rewrite lookup_insert_ne by done. rewrite <- Hsub. apply He.
    + destruct (decide (c' = c ∧ t' = t)) as [[_ ?]|_]; [done|]. apply He.
  - intros c' t' b. rewrite ct_lookup_subscribe. case_decide; [congruence|apply Ht].
  - intros t' c' s. rewrite sub_lookup_insert. simpl. case_decide as Hd.
    + destruct (decide (c' = c)) as [->|Hnc].
      * rewrite !lookup_insert_eq. by intros [= <-].
      * rewrite !lookup_insert_ne by done. rewrite <- Hsub. apply Hs.
    + intros H. destruct (Hs _ _ _ H) as (? & ? & ?). split_and!; try done.
      by apply lookup_insert_is_Some'; right.
  - intros t' topic'. destruct (decide (t' = t)) as [->|Hnt].
    + rewrite lookup_insert_eq. intros [= <-]. simpl. by apply (Hh t).
    + rewrite lookup_insert_ne by done. apply Hh.
  - intros c' client'. destruct (decide (c' = c)) as [->|Hnc].
    + rewrite lookup_insert_eq. by intros [= <-].
    + rewrite lookup_insert_ne by done. apply Hb.
Qed.

(** *** Unsubscribe *)

Lemma Unsubscribe_inv c t ps : sys_inv ps → sys_inv (Unsubscribe c t ps).2.
Proof.
  intros Hinv. pose proof Hinv as [He Ht Hs Hh Hb]. unfold Unsubscribe.
  destruct (clientTopics ps !! c) as [inner|] eqn:Hc; [|done].
  destruct (inner !! t) as [b|] eqn:Hb'; simpl; [|done].
  destruct b; simpl; [|done].
  assert (ct_lookup (clientTopics ps) c t = Some true) as Hedge.
  { unfold ct_lookup. by rewrite Hc. }
  assert (is_Some (sub_lookup (topics ps) t c)) as [s Hsub] by (apply He; by rewrite Hedge).
  apply sub_lookup_Some in Hsub as (topic & Htp & Hsc). rewrite Htp.
  assert (∀ c', sub_lookup (topics ps) t c' = Subscribers topic !! c') as Hsub.
  { intros c'. unfold sub_lookup. by rewrite Htp. }
  split; simpl.
  - intros c' t'. rewrite ct_lookup_drop_edge, sub_lookup_insert by done. simpl.
    destruct (decide (t' = t)) as [->|Hnt].
    + destruct (decide (c' = c)) as [->|Hnc].
      * rewrite decide_True by done. by rewrite lookup_delete_eq.
      * destruct (decide (c' = c ∧ t = t)) as [[? _]|_]; [done|].
        rewrite lookup_delete_ne by done. rewrite <- Hsub. apply He.
    + destruct (decide (c' = c ∧ t' = t)) as [[_ ?]|_]; [done|]. apply He.
  - intros c' t' b. rewrite ct_lookup_drop_edge by done. case_decide; [done|apply Ht].
  - intros t' c' s'. rewrite sub_lookup_insert. simpl. case_decide as Hd; [|apply Hs].
    destruct (decide (c' = c)) as [->|Hnc].
    + by rewrite lookup_delete_eq.
    + rewrite lookup_delete_ne by done. rewrite <- Hsub. apply Hs.
  - intros t' topic'. destruct (decide (t' = t)) as [->|Hnt].
    + rewrite lookup_insert_eq. intros [= <-]. simpl. by apply (Hh t).
    + rewrite lookup_insert_ne by done. apply Hh.
  - done.
Qed.

(** *** Publish *)

Lemma Push_total e rb : rb_wf rb → 0 < rb_capacity rb → is_Some (Push e rb).
Proof.
  intros [Hc Hl Hs Ht Hh Hw Hf] Hpos. unfold Push, store.
  destruct (decide (0 ≤ rb_head rb < Z.of_nat (length (rb_buffer rb)))) as [_|]; [|lia].
  simpl. destruct (rb_full rb); rewrite !go_rem_wrap by lia; done.
Qed.

Lemma deliver_loop event clock subs cls h :
  (∀ s, s ∈ subs → is_Some (cls !! subClient s)) → buffers_wf cls →
  ∃ cls' h', range_loop (deliver event clock) subs (cls, h) = Some (cls', h')
    ∧ (∀ c, is_Some (cls' !! c) ↔ is_Some (cls !! c)) ∧ buffers_wf cls'.
Proof.
  revert cls h. induction subs as [|s subs IH]; intros cls h Hin Hwf; simpl.
  - by exists cls, h.
  - assert (∃ cls1 h1, deliver event clock s (cls, h) = Some (cls1, h1)
              ∧ (∀ c, is_Some (cls1 !! c) ↔ is_Some (cls !! c)) ∧ buffers_wf cls1)
      as (cls1 & h1 & -> & Hkeys & Hwf1).
    { destruct (Hin s) as [client Hcl]; [by left|]. unfold deliver. simpl. rewrite Hcl. simpl.
      destruct (Connected client); simpl; [|by exists cls, h].
      destruct (Hwf _ _ Hcl) as [Hrb Hcap].
      destruct (Push_total event (Buffer client) Hrb) as [buf Hbuf];
        [rewrite Hcap; done|].
      rewrite Hbuf. simpl. destruct (Push_wf _ _ _ Hrb Hbuf) as [Hrb' Hcap'].
      destruct (offer (WriteChan client) event h) as [h'|]; eexists _, _; (split; [done|]).
      all: split; [intros c; rewrite lookup_insert_is_Some; split;
                   [intros [<-|[_ ?]]; eauto|intros ?; destruct (decide (subClient s = c)); eauto]|].
      all: intros c cl; destruct (decide (subClient s = c)) as [<-|Hne];
        [rewrite lookup_insert_eq; intros [= <-]; simpl; split; [done|congruence]
        |rewrite lookup_insert_ne by done; apply Hwf]. }
    simpl. destruct (IH cls1 h1) as (cls' & h' & Hloop & Hkeys' & Hwf'); [|done|].
    { intros s' Hs'. apply Hkeys, Hin. by right. }
    exists cls', h'. split; [done|]. split; [|done].
    intros c. by rewrite Hkeys', Hkeys.
Qed.

Lemma subscriber_values tps t topic s :
  tps !! t = Some topic → s ∈ (map_to_list (Subscribers topic)).*2 →
  ∃ c, sub_lookup tps t c = Some s.
Proof.
  intros Ht ([c s'] & -> & Hin%elem_of_map_to_list)%list_elem_of_fmap.
  exists c. apply sub_lookup_Some. eauto.
Qed.

Lemma Publish_missing t m sender now clock w :
  topics (sys w) !! t = None →
  Publish t m sender now clock w =
  Some (Some (ErrorString ("topic " +:+ t +:+ " not found")), w).
Proof. intros Ht. unfold Publish. by rewrite Ht. Qed.

Lemma Publish_found t m sender now clock w topic :
  sys_inv (sys w) → topics (sys w) !! t = Some topic →
  ∃ history cls h,
    Push (mkEventResponse "event" t m now) (MessageHistory topic) = Some history
    ∧ (∀ c, is_Some (cls !! c) ↔ is_Some (clients (sys w) !! c)) ∧ buffers_wf cls
    ∧ Publish t m sender now clock w =
      Some (None,
            mkWorld (mkPubSubSystem
                       (<[t := mkTopic (Name topic) (Subscribers topic)
                                 (wrap64 (MessageCount topic + 1)) (CreatedAt topic) history]>
                          (topics (sys w)))
                       cls (clientTopics (sys w)) (startTime (sys w))) h).
Proof.
  intros Hinv Ht. pose proof Hinv as [He Htr Hs Hh Hb].
  destruct (Hh _ _ Ht) as [Hrb Hcap].
  destruct (Push_total (mkEventResponse "event" t m now) (MessageHistory topic) Hrb)
    as [history Hpush]; [by rewrite Hcap|].
  destruct (deliver_loop (mkEventResponse "event" t m now) clock
              (map_to_list (Subscribers topic)).*2 (clients (sys w)) (chans w))
    as (cls & h & Hloop & Hkeys & Hwf); [|done|].
  { intros s Hin. destruct (subscriber_values _ _ _ _ Ht Hin) as [c Hc].
    destruct (Hs _ _ _ Hc) as (_ & -> & ?). done. }
  exists history, cls, h. split_and!; try done.
  unfold Publish. rewrite Ht, Hpush. simpl. rewrite Hloop. done.
Qed.

Lemma Publish_total t m sender now clock w :
  sys_inv (sys w) → is_Some (Publish t m sender now clock w).
Proof.
  intros Hinv. destruct (topics (sys w) !! t) as [topic|] eqn:Ht.
  - destruct (Publish_found t m sender now clock w topic Hinv Ht) as (?&?&?&_&_&_&->). done.
  - by rewrite Publish_missing.
Qed.

Lemma Publish_inv t m sender now clock w r :
  sys_inv (sys w) → Publish t m sender now clock w = Some r → sys_inv (sys r.2).
Proof.
  intros Hinv HP. destruct (topics (sys w) !! t) as [topic|] eqn:Htp.
  2:{ rewrite Publish_missing in HP by done. by injection HP as <-. }
  destruct (Publish_found t m sender now clock w topic Hinv Htp)
    as (history & cls & h & Hpush & Hkeys & Hwf & HP').
  rewrite HP' in HP. injection HP as <-. simpl. clear HP'.
  pose proof Hinv as [He Ht Hs Hh Hb].
  assert (∀ t' c', sub_lookup (<[t := mkTopic (Name topic) (Subscribers topic)
                       (wrap64 (MessageCount topic + 1)) (CreatedAt topic) history]>
                       (topics (sys w))) t' c' = sub_lookup (topics (sys w)) t' c') as Hsame.
  { intros t' c'. rewrite sub_lookup_insert. case_decide as Hd; [|done].
    subst. simpl. unfold sub_lookup. by rewrite Htp. }
  split; simpl.
  - intros c' t'. rewrite Hsame. apply He.
  - done.
  - intros t' c' s. rewrite Hsame. intros H. destruct (Hs _ _ _ H) as (? & ? & ?).
    split_and!; try done. by apply Hkeys.
  - intros t' topic'. destruct (decide (t' = t)) as [->|Hnt].
    + rewrite lookup_insert_eq. intros [= <-]. simpl.
      destruct (Hh _ _ Htp) as [Hrb Hcap].
      destruct (Push_wf _ _ _ Hrb Hpush) as [? ?]. split; [done|congruence].
    + rewrite lookup_insert_ne by done. apply Hh.
  - done.
Qed.

(** *** DeleteTopic *)

Lemma evict_loop cls name uuid clock subs ct h :
  (∀ s, s ∈ subs → is_Some (cls !! subClient s)) →
  ∃ ct' h', range_loop (notify_evict cls name uuid clock) subs (ct, h) = Some (ct', h')
    ∧ ∀ c t, ct_lookup ct' c t =
             if decide (t = name ∧ c ∈ subClientID <$> subs) then None else ct_lookup ct c t.
Proof.
  revert ct h. induction subs as [|s subs IH]; intros ct h Hin; simpl.
  - exists ct, h. split; [done|]. intros c t.
    destruct (decide (t = name ∧ c ∈ [])) as [[_ H]|_]; [by apply elem_of_nil in H|done].
  - destruct (Hin s) as [client Hcl]; [by left|].
    pose (ct1 := match ct !! subClientID s with
                 | Some inner => drop_edge (subClientID s) name inner ct
                 | None => ct
                 end).
    pose (h1 := default h (offer (WriteChan client)
                             (mkEventResponse "info" name
                                (mkMessageData (uuid (subClientID s)) (PayloadText "topic_deleted"))
                                (clock (subClientID s))) h)).
    assert (notify_evict cls name uuid clock s (ct, h) = Some (ct1, h1)) as ->.
    { unfold notify_evict. rewrite Hcl. done. }
    simpl.
    assert (∀ c t, ct_lookup ct1 c t =
                   if decide (c = subClientID s ∧ t = name) then None else ct_lookup ct c t)
      as Hct1.
    { intros c t. unfold ct1. destruct (ct !! subClientID s) as [inner|] eqn:Hs.
      - by apply ct_lookup_drop_edge.
      - case_decide as Hd; [|done]. destruct Hd as [-> ->]. unfold ct_lookup. by rewrite Hs. }
    destruct (IH ct1 h1) as (ct' & h' & Hloop & Hct').
    { intros s' Hs'. apply Hin. by right. }
    exists ct', h'. split; [done|]. intros c t. rewrite Hct', Hct1.
    repeat case_decide; try done; exfalso; set_solver.
Qed.

Lemma DeleteTopic_missing name uuid clock w :
  topics (sys w) !! name = None →
  DeleteTopic name uuid clock w =
  Some (Some (ErrorString ("topic " +:+ name +:+ " not found")), w).
Proof. intros Ht. unfold DeleteTopic. by rewrite Ht. Qed.

Lemma DeleteTopic_found name uuid clock w topic :
  sys_inv (sys w) → topics (sys w) !! name = Some topic →
  ∃ ct h,
    (∀ c t, ct_lookup ct c t =
            if decide (t = name) then None else ct_lookup (clientTopics (sys w)) c t)
    ∧ DeleteTopic name uuid clock w =
      Some (None,
            mkWorld (mkPubSubSystem (delete name (topics (sys w))) (clients (sys w)) ct
                       (startTime (sys w))) h).
Proof.
  intros Hinv Ht. pose proof Hinv as [He Htr Hs Hh Hb].
  destruct (evict_loop (clients (sys w)) name uuid clock
              (map_to_list (Subscribers topic)).*2 (clientTopics (sys w)) (chans w))
    as (ct & h & Hloop & Hct).
  { intros s Hin. destruct (subscriber_values _ _ _ _ Ht Hin) as [c Hc].
    destruct (Hs _ _ _ Hc) as (_ & -> & ?). done. }
  exists ct, h. split.
  - intros c t. rewrite Hct. destruct (decide (t = name)) as [->|Hnt].
    + case_decide as Hd; [done|].
      destruct (ct_lookup (clientTopics (sys w)) c name) as [b|] eqn:Hedge; [|done].
      exfalso. apply Hd. split; [done|].
      assert (is_Some (sub_lookup (topics (sys w)) name c)) as [s Hsub]
        by (apply He; by rewrite Hedge).
      destruct (Hs _ _ _ Hsub) as (<- & _ & _).
      apply sub_lookup_Some in Hsub as (topic' & Ht' & Hsub).
      rewrite Ht in Ht'. injection Ht' as <-.
      apply list_elem_of_fmap. exists s. split; [done|].
      apply list_elem_of_fmap. exists (subClientID s, s). split; [done|].
      by apply elem_of_map_to_list.
    + destruct (decide (t = name ∧ _)) as [[? _]|_]; done.
  - unfold DeleteTopic. rewrite Ht, Hloop. done.
Qed.

Lemma DeleteTopic_total name uuid clock w :
  sys_inv (sys w) → is_Some (DeleteTopic name uuid clock w).
Proof.
  intros Hinv. destruct (topics (sys w) !! name) as [topic|] eqn:Ht.
  - destruct (DeleteTopic_found name uuid clock w topic Hinv Ht) as (?&?&_&->). done.
  - by rewrite DeleteTopic_missing.
Qed.

Lemma DeleteTopic_inv name uuid clock w r :
  sys_inv (sys w) → DeleteTopic name uuid clock w = Some r → sys_inv (sys r.2).
Proof.
  intros Hinv HD. destruct (topics (sys w) !! name) as [topic|] eqn:Htp.
  2:{ rewrite DeleteTopic_missing in HD by done. by injection HD as <-. }
  destruct (DeleteTopic_found name uuid clock w topic Hinv Htp) as (ct & h & Hct & HD').
  rewrite HD' in HD. injection HD as <-. simpl. clear HD'.
  pose proof Hinv as [He Ht Hs Hh Hb].
  split; simpl.
  - intros c t. rewrite Hct, sub_lookup_delete. case_decide; [done|apply He].
  - intros c t b. rewrite Hct. case_decide; [done|apply Ht].
  - intros t c s. rewrite sub_lookup_delete. case_decide; [done|apply Hs].
  - intros t topic'. destruct (decide (t = name)) as [->|Hnt].
    + by rewrite lookup_delete_eq.
    + rewrite lookup_delete_ne by done. apply Hh.
  - done.
Qed.

(** *** DisconnectClient *)

Lemma lookup_remove_subscriber c k tps t :
  remove_subscriber c tps k !! t =
  (λ topic, if decide (t = k)
            then mkTopic (Name topic) (delete c (Subscribers topic))
                   (MessageCount topic) (CreatedAt topic) (MessageHistory topic)
            else topic) <$> tps !! t.
Proof.
  unfold remove_subscriber. destruct (decide (t = k)) as [->|Hne].
  - destruct (tps !! k) as [topic|] eqn:Hk.
    + by rewrite lookup_insert_eq.
    + by rewrite Hk.
  - destruct (tps !! k) as [topic|] eqn:Hk.
    + rewrite lookup_insert_ne by done. by destruct (tps !! t).
    + by destruct (tps !! t).
Qed.

Lemma foldl_remove_subscriber c ks tps t :
  foldl (remove_subscriber c) tps ks !! t =
  (λ topic, if decide (t ∈ ks)
            then mkTopic (Name topic) (delete c (Subscribers topic))
                   (MessageCount topic) (CreatedAt topic) (MessageHistory topic)
            else topic) <$> tps !! t.
Proof.
  revert tps. induction ks as [|k ks IH]; intros tps; simpl.
  - by destruct (tps !! t).
  - rewrite IH, lookup_remove_subscriber.
    destruct (tps !! t) as [topic|]; simpl; [|done]. f_equal.
    destruct (decide (t = k)) as [->|Hne].
    + rewrite (decide_True (P := k ∈ k :: ks)) by (by left).
      case_decide; simpl; [|done]. f_equal. apply delete_delete_eq.
    + destruct (decide (t ∈ ks)) as [Hin|Hin].
      * rewrite decide_True; [done|by right].
      * rewrite decide_False; [done|]. by intros [?|?]%elem_of_cons.
Qed.

Lemma DisconnectClient_inv c ps : sys_inv ps → sys_inv (DisconnectClient c ps).
Proof.
  intros Hinv. pose proof Hinv as [He Ht Hs Hh Hb]. unfold DisconnectClient.
  set (cls := match clients ps !! c with
              | Some client => <[c := _]> (clients ps)
              | None => clients ps
              end).
  assert (∀ c', is_Some (clients ps !! c') → is_Some (cls !! c')) as Hkeys.
  { intros c' H. unfold cls. destruct (clients ps !! c) eqn:Hc; [|done].
    apply lookup_insert_is_Some'. by right. }
  assert (buffers_wf cls) as Hwf.
  { unfold cls. destruct (clients ps !! c) as [client|] eqn:Hc; [|done].
    intros c' client'. destruct (decide (c' = c)) as [->|Hnc].
    - rewrite lookup_insert_eq. intros [= <-]. simpl. by apply (Hb c).
    - rewrite lookup_insert_ne by done. apply Hb. }
  destruct (clientTopics ps !! c) as [topicsMap|] eqn:Hc.
  - assert (∀ t c', sub_lookup (foldl (remove_subscriber c) (topics ps)
                                  (map_to_list topicsMap).*1) t c' =
                    if decide (c' = c) then None else sub_lookup (topics ps) t c') as Hsub.
    { intros t c'. unfold sub_lookup at 1. rewrite foldl_remove_subscriber.
      destruct (topics ps !! t) as [topic|] eqn:Htp; simpl.
      2:{ unfold sub_lookup. rewrite Htp. by case_decide. }
      assert (sub_lookup (topics ps) t c' = Subscribers topic !! c') as Heq.
      { unfold sub_lookup. by rewrite Htp. }
      destruct (decide (c' = c)) as [->|Hnc].
      - case_decide as Hin; simpl; [apply lookup_delete_eq|].
        destruct (Subscribers topic !! c) as [s|] eqn:Hsc; [|done].
        exfalso. apply Hin.
        assert (is_Some (ct_lookup (clientTopics ps) c t)) as [b Hedge]
          by (apply He; rewrite Heq; done).
        unfold ct_lookup in Hedge. rewrite Hc in Hedge. simpl in Hedge.
        apply list_elem_of_fmap. exists (t, b). split; [done|].
        by apply elem_of_map_to_list.
      - rewrite Heq. case_decide; simpl; [by rewrite lookup_delete_ne|done]. }
    split; simpl.
    + intros c' t. rewrite ct_lookup_delete, Hsub. case_decide; [done|apply He].
    + intros c' t b. rewrite ct_lookup_delete. case_decide; [done|apply Ht].
    + intros t c' s. rewrite Hsub. case_decide; [done|].
      intros Hsl. destruct (Hs _ _ _ Hsl) as (? & ? & ?). split_and!; try done.
      by apply Hkeys.
    + intros t topic'. rewrite foldl_remove_subscriber.
      destruct (topics ps !! t) as [topic|] eqn:Htp; simpl; [|done].
      intros [= <-]. case_decide; simpl; by apply (Hh t).
    + done.
  - split; simpl; try done.
    intros t c' s Hsl. destruct (Hs _ _ _ Hsl) as (? & ? & ?). split_and!; try done.
    by apply Hkeys.
Qed.

(** *** Steps and runs *)

Lemma step_total op w : sys_inv (sys w) → is_Some (step op w).
Proof.
  intros Hinv. destruct op as [name now|name uuid clock|c t lastN ch now|c t|t m sender now clock|c|f]; simpl; try done.
  - by destruct (CreateTopic_total name now (sys w)) as [? ->].
  - by destruct (DeleteTopic_total name uuid clock w Hinv) as [? ->].
  - by destruct (Subscribe_total c t lastN ch now (sys w) Hinv) as [? ->].
  - by destruct (Publish_total t m sender now clock w Hinv) as [? ->].
Qed.

Lemma step_inv op w r w' : sys_inv (sys w) → step op w = Some (r, w') → sys_inv (sys w').
Proof.
  intros Hinv. destruct op as [name now|name uuid clock|c t lastN ch now|c t|t m sender now clock|c|f]; simpl.
  - destruct (CreateTopic _ _ _) as [[e ps']|] eqn:H; simpl; [|done].
    intros [= <- <-]. simpl. by eapply CreateTopic_inv.
  - destruct (DeleteTopic _ _ _ _) as [r'|] eqn:H; simpl; [|done].
    intros [= <- <-]. by eapply DeleteTopic_inv.
  - destruct (Subscribe _ _ _ _ _ _) as [r'|] eqn:H; simpl; [|done].
    intros [= <- <-]. simpl. by eapply Subscribe_inv.
  - intros [= <- <-]. simpl. by apply Unsubscribe_inv.
  - destruct (Publish _ _ _ _ _ _) as [r'|] eqn:H; simpl; [|done].
    intros [= <- <-]. by eapply Publish_inv.
  - intros [= <- <-]. simpl. by apply DisconnectClient_inv.
  - by intros [= <- <-].
Qed.

Lemma log_inv_kept ps ps' log :
  histories_kept (topics ps) (topics ps') → log_inv ps log → log_inv ps' log.
Proof.
  intros Hk [Hsuf Hh]. split; [done|]. intros t topic' Ht.
  destruct (Hk _ _ Ht) as (topic & Ht0 & -> & ->). by apply Hh.
Qed.

Lemma histories_kept_refl tps : histories_kept tps tps.
Proof. intros t topic Ht. eauto. Qed.

Lemma histories_kept_insert tps t topic topic' :
  tps !! t = Some topic → MessageHistory topic' = MessageHistory topic →
  MessageCount topic' = MessageCount topic →
  histories_kept tps (<[t := topic']> tps).
Proof.
  intros Ht Hh Hc t' topic''. destruct (decide (t' = t)) as [->|Hne].
  - rewrite lookup_insert_eq. intros [= <-]. eauto.
  - rewrite lookup_insert_ne by done. eauto.
Qed.

Lemma step_log_inv op w log r w' :
  sys_inv (sys w) → log_inv (sys w) log → step op w = Some (r, w') →
  log_inv (sys w') (log_step op r log).
Proof.
  intros Hinv Hlog. destruct op as [name now|name uuid clock|c t lastN ch now|c t|t m sender now clock|c|f]; simpl.
  - (* CreateTopic *)
    destruct (CreateTopic _ _ _) as [[e ps']|] eqn:H; simpl; [|done].
    intros [= <- <-]. unfold log_step. simpl.
    apply CreateTopic_new in H as [(He & -> & _)|(-> & Hnone & history & Hnew & ->)].
    + by destruct e.
    + destruct Hlog as [Hsuf Hh]. split; simpl.
      * intros t'. unfold upd. case_decide; [apply suffix_nil|apply Hsuf].
      * intros t' topic. unfold upd. destruct (decide (t' = name)) as [->|Hne].
        -- rewrite lookup_insert_eq. intros [= <-]. simpl.
           unfold NewRingBuffer in Hnew. simpl in Hnew. by injection Hnew as <-.
        -- rewrite lookup_insert_ne by done. apply Hh.
  - (* DeleteTopic *)
    destruct (DeleteTopic _ _ _ _) as [[e w'']|] eqn:H; simpl; [|done].
    intros [= <- <-]. unfold log_step. simpl.
    eapply log_inv_kept; [|done].
    destruct (topics (sys w) !! name) as [topic|] eqn:Htp.
    + destruct (DeleteTopic_found name uuid clock w topic Hinv Htp) as (ct & h & _ & HD).
      rewrite HD in H. injection H as <- <-. simpl.
      intros t' topic' [_ Ht]%lookup_delete_Some. eauto.
    + rewrite DeleteTopic_missing in H by done. injection H as <- <-.
      apply histories_kept_refl.
  - (* Subscribe *)
    destruct (Subscribe _ _ _ _ _ _) as [[[l e] ps']|] eqn:H; simpl; [|done].
    intros [= <- <-]. unfold log_step. simpl.
    eapply log_inv_kept; [|done]. simpl.
    destruct (topics (sys w) !! t) as [topic|] eqn:Htp.
    + destruct (Subscribe_found c t lastN ch now (sys w) topic Hinv Htp)
        as (client & _ & HS).
      rewrite HS in H. injection H as <- <- <-. simpl.
      by apply (histories_kept_insert _ _ topic).
    + rewrite Subscribe_missing in H by done. injection H as <- <- <-.
      apply histories_kept_refl.
  - (* Unsubscribe *)
    intros [= <- <-]. unfold log_step. simpl.
    eapply log_inv_kept; [|done]. simpl. unfold Unsubscribe.
    destruct (clientTopics (sys w) !! c) as [inner|]; [|apply histories_kept_refl].
    destruct (negb _); [apply histories_kept_refl|].
    destruct (topics (sys w) !! t) as [topic|] eqn:Htp; simpl;
      [|apply histories_kept_refl].
    by apply (histories_kept_insert _ _ topic).
  - (* Publish *)
    destruct (Publish _ _ _ _ _ _) as [[e w'']|] eqn:H; simpl; [|done].
    intros [= <- <-]. unfold log_step. simpl.
    destruct (topics (sys w) !! t) as [topic|] eqn:Htp.
    + destruct (Publish_found t m sender now clock w topic Hinv Htp)
        as (history & cls & h & Hpush & _ & _ & HP).
      rewrite HP in H. injection H as <- <-. simpl.
      destruct Hlog as [Hsuf Hh]. split; simpl.
      * intros t'. unfold upd. case_decide; [subst; by apply suffix_app|apply Hsuf].
      * intros t' topic'. unfold upd. destruct (decide (t' = t)) as [->|Hne].
        -- rewrite lookup_insert_eq. intros [= <-]. simpl.
           destruct (inv_hist _ Hinv _ _ Htp) as [Hrb Hcap].
           destruct (Push_elems _ _ _ Hrb Hpush) as (-> & _ & _).
           destruct (Hh _ _ Htp) as [Hel Hcount]. split.
           ++ rewrite last_n_snoc by (unfold TopicHistoryBufferSize; lia).
              rewrite <- Hel. f_equal. rewrite length_elems, Hcap.
              destruct Hrb. repeat case_decide; try done; lia.
           ++ rewrite Hcount, wrap64_add, length_app. simpl. f_equal. lia.
        -- rewrite lookup_insert_ne by done. apply Hh.
    + rewrite Publish_missing in H by done. injection H as <- <-. done.
  - (* Disconnect *)
    intros [= <- <-]. unfold log_step. simpl.
    eapply log_inv_kept; [|done]. simpl. unfold DisconnectClient.
    destruct (clientTopics (sys w) !! c) as [topicsMap|]; simpl;
      [|apply histories_kept_refl].
    intros t' topic'. rewrite foldl_remove_subscriber.
    destruct (topics (sys w) !! t') as [topic|]; simpl; [|done].
    intros [= <-]. exists topic. split; [done|]. by case_decide.
  - (* environment *)
    by intros [= <- <-].
Qed.

Lemma run_inv w log : run w log → sys_inv (sys w) ∧ log_inv (sys w) log.
Proof.
  induction 1 as [now h|op w log r w' _ [IH1 IH2] Hstep].
  - split; [apply NewPubSubSystem_inv|]. split; [done|]. intros t topic. simpl.
    by rewrite lookup_empty.
  - split; [by eapply step_inv|by eapply step_log_inv].
Qed.

Lemma exec_run ops w log w' log' :
  run w log → exec ops w log = Some (w', log') → run w' log'.
Proof.
  revert w log. induction ops as [|op ops IH]; intros w log Hrun; simpl.
  - by intros [= <- <-].
  - destruct (step op w) as [[r w1]|] eqn:Hstep; simpl; [|done].
    apply IH. by eapply run_step.
Defined.

Lemma exec_total ops w log : run w log → is_Some (exec ops w log).
Proof.
  revert w log. induction ops as [|op ops IH]; intros w log Hrun; simpl; [done|].
  destruct (step_total op w) as [[r w1] Hstep]; [by apply run_inv in Hrun as [? _]|].
  rewrite Hstep. simpl. apply IH. by eapply run_step.
Qed.

(** ** Session: supporting lemmas *)

Section session_facts.

Variable uuid_Parse : string → bool.

Lemma sendMessage_room message c h ch :
  h !! send c = Some ch → (length (chQueue ch) < chCap ch)%nat →
  sendMessage message c h =
  (None, <[send c := mkChan (chCap ch) (chQueue ch ++ [to_event message])]> h).
Proof.
  intros Hch Hroom. unfold sendMessage, offer. rewrite Hch.
  by rewrite decide_True.
Qed.

(** The validation of a request happens before any call into the
    registry: a request that is invalid leaves the registry as it was,
    and the session does not panic on it. *)
Lemma invalid_core_unchanged data req now clock c w :
  ParseMessage data = inr req → invalid uuid_Parse c req →
  ∃ c' w', processPump uuid_Parse data now clock c w = Some (c', w') ∧ sys w' = sys w.
Proof.
  intros Hparse Hinv. unfold processPump, handleMessage. rewrite Hparse.
  destruct req as [req|req|req|req]; simpl in Hinv.
  - unfold handleSubscribe.
    destruct (decide (sub_RequestID req = "")); [simpl; eauto|].
    destruct (decide (sub_ClientID req = "")); [simpl; eauto|].
    by destruct Hinv.
  - unfold handleUnsubscribe.
    destruct (decide (unsub_RequestID req = "")); [simpl; eauto|].
    destruct (decide (unsub_ClientID req = "")); [simpl; eauto|].
    by destruct Hinv.
  - unfold handlePublish.
    destruct (decide (pub_RequestID req = "")); [simpl; eauto|].
    destruct (decide (clientID c = "")) as [Hc|Hc].
    + destruct (decide (pub_ClientID req = "")); [simpl; eauto|].
      destruct (decide (ID (pub_Message req) = "")) as [|Hid].
      { simpl. destruct (sendMessage _ _ _) as [[se|] h]; simpl; eauto. }
      destruct (uuid_Parse (ID (pub_Message req))) eqn:Hu; simpl.
      { destruct Hinv as [?|[[_ ?]|[?|?]]]; done. }
      destruct (sendMessage _ _ _) as [[se|] h]; simpl; eauto.
    + destruct (decide (pub_ClientID req ≠ "" ∧ clientID c ≠ pub_ClientID req));
        [simpl; eauto|].
      destruct (decide (ID (pub_Message req) = "")) as [|Hid].
      { simpl. destruct (sendMessage _ _ _) as [[se|] h]; simpl; eauto. }
      destruct (uuid_Parse (ID (pub_Message req))) eqn:Hu; simpl.
      { destruct Hinv as [?|[[? _]|[?|?]]]; done. }
      destruct (sendMessage _ _ _) as [[se|] h]; simpl; eauto.
  - unfold handlePing. rewrite decide_True by done. simpl. eauto.
Qed.

(** A publish that passes the first two checks and carries a
    [message.id] that is not a UUID is answered, when the outbound channel
    has room, by one error frame with the request id and code BAD_REQUEST. *)
Lemma non_uuid_reply topic message cid rid now clock c w ch :
  rid ≠ "" → clientID c ≠ "" → (cid = "" ∨ cid = clientID c) →
  ID message = "" ∨ uuid_Parse (ID message) = false →
  chans w !! send c = Some ch → (length (chQueue ch) < chCap ch)%nat →
  let frame :=
    mkEventResponse "error" ""
      (mkMessageData rid
         (PayloadError (mkErrorData "BAD_REQUEST" "message.id must be a valid UUID"))) now in
  processPump uuid_Parse (inr (mkFrame "publish" topic cid 0 rid message)) now clock c w =
  Some (c, mkWorld (sys w)
             (<[send c := mkChan (chCap ch) (chQueue ch ++ [frame])]> (chans w)))
  ∧ frame_code frame = Some "BAD_REQUEST".
Proof.
  intros Hrid Hc Hcid Hid Hch Hroom frame. split; [|done].
  unfold processPump, handleMessage. simpl. unfold handlePublish. simpl.
  rewrite decide_False by done.
  destruct (decide (clientID c = "")) as [|_]; [done|].
  destruct (decide (cid ≠ "" ∧ clientID c ≠ cid)) as [[? ?]|_]; [by destruct Hcid|].
  destruct (decide (ID message = "")) as [|Hne].
  - simpl. by rewrite (sendMessage_room _ _ _ ch).
  - destruct Hid as [|Hid]; [done|]. rewrite Hid. simpl.
    by rewrite (sendMessage_room _ _ _ ch).
Qed.

(** A request without [request_id] is answered, when the outbound channel
    has room, by one error frame whose code is PROCESSING_ERROR: the
    handler returns its BAD_REQUEST [ErrorData] as a Go error and
    [processPump] keeps only its message. *)
Lemma missing_request_id_reply type topic cid last_n message now clock c w ch :
  type = "subscribe" ∨ type = "unsubscribe" ∨ type = "publish" ∨ type = "ping" →
  chans w !! send c = Some ch → (length (chQueue ch) < chCap ch)%nat →
  let frame :=
    mkEventResponse "error" ""
      (mkMessageData ""
         (PayloadError (mkErrorData "PROCESSING_ERROR" "request_id is required"))) now in
  processPump uuid_Parse (inr (mkFrame type topic cid last_n "" message)) now clock c w =
  Some (c, mkWorld (sys w)
             (<[send c := mkChan (chCap ch) (chQueue ch ++ [frame])]> (chans w)))
  ∧ frame_code frame = Some "PROCESSING_ERROR".
Proof.
  intros Htype Hch Hroom frame. split; [|done].
  unfold processPump, handleMessage.
  destruct Htype as [-> | [-> | [-> | ->]]]; simpl;
    by rewrite (sendMessage_room _ _ _ ch).
Qed.

End session_facts.

(** ** The ring buffer against the bounded queue *)

Lemma holds_elems c rb l : holds c rb l → rb_wf rb ∧ rb_capacity rb = c ∧ elems rb = l.
Proof.
  induction 1 as [rb Hnew|e rb l rb' _ (Hwf & Hcap & Hel) HP|rb l o rb' _ (Hwf & Hcap & Hel) HP
                  |rb l out rb' _ (Hwf & Hcap & Hel) HP|rb l _ (Hwf & Hcap & Hel)].
  - destruct (NewRingBuffer_wf _ _ Hnew) as (Hwf & Hcap & Hsz). split_and!; try done.
    pose proof (length_elems rb) as Hlen. rewrite Hsz in Hlen. by destruct (elems rb).
  - destruct (Push_wf _ _ _ Hwf HP) as [Hwf' Hcap'].
    destruct (Push_elems _ _ _ Hwf HP) as (Hel' & _ & _).
    split_and!; [done|congruence|]. rewrite Hel', Hel.
    pose proof (length_elems rb) as Hlen. rewrite Hel in Hlen.
    pose proof (wf_size _ Hwf) as Hsz. unfold last_n. rewrite length_app. simpl.
    destruct (decide (rb_size rb = rb_capacity rb)) as [Hfull|Hroom].
    + assert (1 ≤ rb_capacity rb) as Hpos.
      { destruct (decide (1 ≤ rb_capacity rb)) as [|Hzero]; [done|].
        unfold Push, store in HP. pose proof (wf_len _ Hwf). pose proof (wf_head _ Hwf).
        destruct (decide (0 ≤ rb_head rb < Z.of_nat (length (rb_buffer rb)))); [lia|].
        by simpl in HP. }
      replace (length l + 1 - Z.to_nat c)%nat with 1%nat by lia.
      rewrite drop_app_le by lia. done.
    + replace (length l + 1 - Z.to_nat c)%nat with 0%nat by lia. done.
  - destruct (Pop_wf _ _ _ Hwf HP) as [Hwf' Hcap'].
    destruct (Pop_elems _ _ _ Hwf HP) as [_ Hel']. split_and!; [done|congruence|].
    by rewrite Hel', Hel.
  - destruct (PopAll_wf _ _ _ Hwf HP) as [Hwf' Hcap'].
    destruct (PopAll_elems _ _ _ Hwf HP) as [_ Hel']. split_and!; [done|congruence|done].
  - split_and!; [by apply Clear_wf|done|done].
Qed.

(** Every buffer the program can build has such a queue beside it. *)
Lemma reachable_holds rb : rb_reachable rb → ∃ c l, holds c rb l.
Proof.
  induction 1 as [c rb Hnew|e rb rb' _ (c & l & IH) HP|rb o rb' _ (c & l & IH) HP
                  |rb out rb' _ (c & l & IH) HP|rb _ (c & l & IH)].
  - exists c, []. by apply holds_new.
  - eexists c, _. by apply (holds_push c e rb l).
  - eexists c, _. by apply (holds_pop c rb l o).
  - exists c, []. by apply (holds_popall c rb l out).
  - exists c, []. by apply (holds_clear c rb l).
Qed.

Lemma holds_pushes c es rb l rb' :
  holds c rb l → range_loop Push es rb = Some rb' →
  holds c rb' (foldl (λ l e, last_n (Z.to_nat c) (l ++ [e])) l es).
Proof.
  revert rb l. induction es as [|e es IH]; intros rb l Hrb; simpl.
  - by intros [= <-].
  - destruct (Push e rb) as [rb1|] eqn:HP; simpl; [|done].
    apply IH. by eapply holds_push.
Defined.

Lemma demo_ring_holds : holds 3 demo_ring [demo_event 2; demo_event 3; demo_event 4].
Proof.
  apply (holds_pushes 3 [demo_event 1; demo_event 2; demo_event 3; demo_event 4]
           (mkRingBuffer (replicate 3 zeroEvent) 0 0 0 3 false) []).
  - by apply (holds_new 3).
  - vm_compute. reflexivity.
Defined.

(** ** The critical sections against the operations run one at a time *)










(** * The claims *)

(** ** Concrete worlds used to exercise the theorems *)

Lemma demo_run : run demo_world demo_log.
Proof.
  apply (exec_run demo_ops demo_init (mkLog (λ _, []) (λ _, []))).
  - apply run_init.
  - vm_compute. reflexivity.
Defined.

Lemma demo_topic_lookup : topics (sys demo_world) !! "T" = Some demo_topic.
Proof. vm_compute. reflexivity. Defined.

Lemma demo_ring_reachable : rb_reachable demo_ring.
Proof.
  apply (reach_pushes [demo_event 1; demo_event 2; demo_event 3; demo_event 4]
           (mkRingBuffer (replicate 3 zeroEvent) 0 0 0 3 false)).
  - by apply (reach_new 3).
  - vm_compute. reflexivity.
Defined.

(** ** The ring buffer *)

(** C7: for every ring buffer the program can build and every [n], with
    [l] the events a FIFO queue bounded by the buffer's capacity holds
    after the operations that built the buffer, oldest first: the size is
    the length of [l]; [GetLastN n] returns the most recent [min n size]
    events of [l], in FIFO order; it returns the empty list when [n <= 0]
    or the buffer is empty, and the whole of [l] when [n] exceeds the
    size.  [GetLastN] only reads: the embedding gives it no buffer to
    return, as the Go method assigns to no field.  Every buffer the
    program can build has such an [l] (lemma [reachable_holds]). *)
Theorem C7_GetLastN_last_events (c : Z) (rb : RingBuffer) (l : list EventResponse) (n : Z) :
  holds c rb l →
  Size rb = Z.of_nat (length l)
  ∧ GetLastN n rb = Some (last_n (Z.to_nat (Z.min n (Size rb))) l)
  ∧ (n ≤ 0 ∨ Size rb = 0 → GetLastN n rb = Some [])
  ∧ (n > Size rb → GetLastN n rb = Some l).
Proof.
  intros (Hwf & _ & <-)%holds_elems. unfold Size.
  pose proof (wf_size rb Hwf) as Hsize.
  split_and!.
  - rewrite length_elems. lia.
  - by apply GetLastN_elems.
  - intros Hn. rewrite GetLastN_elems by done. unfold last_n. f_equal.
    apply drop_ge. rewrite length_elems. lia.
  - intros Hn. rewrite GetLastN_elems by done. unfold last_n. f_equal.
    rewrite length_elems. replace (_ - _)%nat with 0%nat by lia. done.
Qed.

Lemma C7_witness :
  Size demo_ring = Z.of_nat (length [demo_event 2; demo_event 3; demo_event 4])
  ∧ GetLastN 2 demo_ring
    = Some (last_n (Z.to_nat (Z.min 2 (Size demo_ring)))
              [demo_event 2; demo_event 3; demo_event 4])
  ∧ (2 ≤ 0 ∨ Size demo_ring = 0 → GetLastN 2 demo_ring = Some [])
  ∧ (2 > Size demo_ring →
     GetLastN 2 demo_ring = Some [demo_event 2; demo_event 3; demo_event 4]).
Proof.
  apply (C7_GetLastN_last_events 3 demo_ring [demo_event 2; demo_event 3; demo_event 4] 2).
  exact demo_ring_holds.
Defined.

(** C8 as stated fails: a ring buffer of capacity 0 is built by
    [NewRingBuffer(0)], its size equals its capacity, and [Push] on it
    panics on the first index. *)
Lemma C8_counterexample_capacity_zero :
  NewRingBuffer 0 = Some (mkRingBuffer [] 0 0 0 0 false)
  ∧ rb_reachable (mkRingBuffer [] 0 0 0 0 false)
  ∧ Size (mkRingBuffer [] 0 0 0 0 false) = rb_capacity (mkRingBuffer [] 0 0 0 0 false)
  ∧ Push zeroEvent (mkRingBuffer [] 0 0 0 0 false) = None.
Proof.
  split_and!; try reflexivity. by apply (reach_new 0).
Qed.

(** C8 (amended): for every ring buffer of capacity at least 1, [Push e]
    never fails: below capacity it appends [e] and the size grows by one;
    at capacity it drops the oldest element, advancing the tail, appends
    [e], and the size stays at capacity.  With capacity 1 the contents
    after a push are exactly the event pushed. *)
Theorem C8_Push_drop_oldest (e : EventResponse) (rb : RingBuffer) :
  rb_reachable rb → 1 ≤ rb_capacity rb →
  ∃ l rb', contents rb = Some l
    ∧ Push e rb = Some rb'
    ∧ rb_capacity rb' = rb_capacity rb
    ∧ (Size rb < rb_capacity rb →
         contents rb' = Some (l ++ [e]) ∧ Size rb' = Size rb + 1 ∧ rb_tail rb' = rb_tail rb)
    ∧ (Size rb = rb_capacity rb →
         contents rb' = Some (drop 1 l ++ [e]) ∧ Size rb' = rb_capacity rb
         ∧ rb_tail rb' = Z.rem (rb_tail rb + 1) (rb_capacity rb))
    ∧ (rb_capacity rb = 1 → contents rb' = Some [e] ∧ GetLastN 1 rb' = Some [e]).
Proof.
  intros Hwf%rb_reachable_wf Hcap. unfold Size.
  destruct (Push_total e rb Hwf) as [rb' HP]; [lia|].
  destruct (Push_wf e rb rb' Hwf HP) as [Hwf' Hcap'].
  destruct (Push_elems e rb rb' Hwf HP) as (Hel & Hsz & Htl).
  pose proof (wf_size rb Hwf) as Hsize.
  pose proof (length_elems rb) as Hlen.
  exists (elems rb), rb'. split_and!; try done.
  - by apply contents_elems.
  - intros Hlt. rewrite contents_elems, Hel, Hsz, Htl by done.
    by rewrite !decide_False by lia.
  - intros Heq. rewrite contents_elems, Hel, Hsz, Htl by done.
    by rewrite !decide_True by done.
  - intros Hone.
    assert (elems rb' = [e]) as Hone'.
    { rewrite Hel. case_decide.
      - destruct (elems rb) as [|x [|y l]]; simpl in *; try done; lia.
      - destruct (elems rb) as [|x l]; simpl in *; try done; lia. }
    split.
    + by rewrite contents_elems, Hone'.
    + rewrite GetLastN_elems, Hone', Hsz by done. case_decide; f_equal.
      all: replace (Z.to_nat _) with 1%nat by lia; done.
Qed.

Lemma C8_witness :
  ∃ l rb', contents demo_ring = Some l
    ∧ Push (demo_event 5) demo_ring = Some rb'
    ∧ rb_capacity rb' = rb_capacity demo_ring
    ∧ (Size demo_ring < rb_capacity demo_ring →
         contents rb' = Some (l ++ [demo_event 5]) ∧ Size rb' = Size demo_ring + 1
         ∧ rb_tail rb' = rb_tail demo_ring)
    ∧ (Size demo_ring = rb_capacity demo_ring →
         contents rb' = Some (drop 1 l ++ [demo_event 5]) ∧ Size rb' = rb_capacity demo_ring
         ∧ rb_tail rb' = Z.rem (rb_tail demo_ring + 1) (rb_capacity demo_ring))
    ∧ (rb_capacity demo_ring = 1 →
         contents rb' = Some [demo_event 5] ∧ GetLastN 1 rb' = Some [demo_event 5]).
Proof.
  apply (C8_Push_drop_oldest (demo_event 5) demo_ring).
  - exact demo_ring_reachable.
  - vm_compute. discriminate.
Defined.

(** ** The registry *)

(** C1 fails on the code ([TestNoEchoBack] replayed): [Publish] takes
    [senderClientID] and never reads it; client1, subscribed to the topic
    and publishing to it, finds its own event on its outbound channel and
    in its overflow ring. *)
Theorem C1_sender_receives_own_event :
  let event := mkEventResponse "event" "echo-topic" demo_message 3 in
  (r1 ← CreateTopic "echo-topic" 1 (NewPubSubSystem 0);
   r2 ← Subscribe "client1" "echo-topic" 0 1%nat 2 r1.2;
   r3 ← Publish "echo-topic" demo_message "client1" 3 (λ _, 4)
          (mkWorld r2.2 {[ 1%nat := mkChan 10 [] ]});
   Some (r1.1, r2.1, r3.1,
         chQueue <$> chans r3.2 !! 1%nat,
         (λ client, elems (Buffer client)) <$> clients (sys r3.2) !! "client1"))
  = Some (None, ([], None), None, Some [event], Some [event]).
Proof. vm_compute. reflexivity. Qed.

(** C3: [Publish] to a topic that is absent returns the topic-not-found
    error and leaves the world as it was; to a topic that exists it
    returns no error, adds one to the [int64] message counter (exactly one
    whenever the counter is below its maximum) and pushes the event onto
    the history ring, whatever the subscribers of the topic are, none
    included. *)
Theorem C3_Publish_counts_and_records (w : World) (log : Log) (t : string)
    (m : MessageData) (sender : string) (now : Time) (clock : string → Time) :
  run w log →
  (topics (sys w) !! t = None →
     Publish t m sender now clock w =
     Some (Some (ErrorString ("topic " +:+ t +:+ " not found")), w))
  ∧ (∀ topic, topics (sys w) !! t = Some topic →
       ∃ w' topic' l,
         Publish t m sender now clock w = Some (None, w')
         ∧ topics (sys w') !! t = Some topic'
         ∧ MessageCount topic' = wrap64 (MessageCount topic + 1)
         ∧ (MessageCount topic < 2 ^ 63 - 1 → MessageCount topic' = MessageCount topic + 1)
         ∧ contents (MessageHistory topic) = Some l
         ∧ contents (MessageHistory topic') =
           Some ((if decide (Size (MessageHistory topic) = TopicHistoryBufferSize)
                  then drop 1 l else l) ++ [mkEventResponse "event" t m now])
         ∧ Subscribers topic' = Subscribers topic).
Proof.
  intros [Hinv [_ Hlog]]%run_inv. split; [apply Publish_missing|].
  intros topic Ht.
  destruct (Publish_found t m sender now clock w topic Hinv Ht)
    as (history & cls & h & Hpush & _ & _ & HP).
  destruct (inv_hist _ Hinv _ _ Ht) as [Hrb Hcap].
  destruct (Push_wf _ _ _ Hrb Hpush) as [Hrb' _].
  destruct (Push_elems _ _ _ Hrb Hpush) as (Hel & _ & _).
  eexists _, _, (elems (MessageHistory topic)). split; [exact HP|]. simpl.
  rewrite lookup_insert_eq. split; [done|]. simpl. split_and!; try done.
  - intros Hmax. apply wrap64_small.
    destruct (Hlog _ _ Ht) as [_ Hcount].
    pose proof (wrap64_range (Z.of_nat (length (live log t)))) as Hr.
    rewrite <- Hcount in Hr. lia.
  - by apply contents_elems.
  - rewrite contents_elems, Hel by done. unfold Size. by rewrite Hcap.
Qed.

Lemma C3_witness :
  (topics (sys demo_world) !! "T" = None →
     Publish "T" demo_message "c1" 9 (λ _, 9) demo_world =
     Some (Some (ErrorString ("topic " +:+ "T" +:+ " not found")), demo_world))
  ∧ (∀ topic, topics (sys demo_world) !! "T" = Some topic →
       ∃ w' topic' l,
         Publish "T" demo_message "c1" 9 (λ _, 9) demo_world = Some (None, w')
         ∧ topics (sys w') !! "T" = Some topic'
         ∧ MessageCount topic' = wrap64 (MessageCount topic + 1)
         ∧ (MessageCount topic < 2 ^ 63 - 1 → MessageCount topic' = MessageCount topic + 1)
         ∧ contents (MessageHistory topic) = Some l
         ∧ contents (MessageHistory topic') =
           Some ((if decide (Size (MessageHistory topic) = TopicHistoryBufferSize)
                  then drop 1 l else l) ++ [mkEventResponse "event" "T" demo_message 9])
         ∧ Subscribers topic' = Subscribers topic).
Proof.
  apply (C3_Publish_counts_and_records demo_world demo_log "T" demo_message "c1" 9 (λ _, 9)).
  exact demo_run.
Defined.




(** C5: in every world reached by completed operations, the history ring
    of a topic holds at most 1000 events, and its contents are the last
    events published to the topic since it was created, in publish order:
    a suffix of everything ever published under that name. *)
Theorem C5_history_is_recent_suffix (w : World) (log : Log) (t : string) (topic : Topic) :
  run w log → topics (sys w) !! t = Some topic →
  ∃ l, contents (MessageHistory topic) = Some l
       ∧ Size (MessageHistory topic) = Z.of_nat (length l)
       ∧ Size (MessageHistory topic) ≤ TopicHistoryBufferSize
       ∧ l = last_n (Z.to_nat TopicHistoryBufferSize) (live log t)
       ∧ l `suffix_of` all log t.
Proof.
  intros [Hinv [Hsuf Hlog]]%run_inv Ht.
  destruct (inv_hist _ Hinv _ _ Ht) as [Hrb Hcap].
  destruct (Hlog _ _ Ht) as [Hel _].
  pose proof (wf_size _ Hrb) as Hsize. pose proof (length_elems (MessageHistory topic)) as Hlen.
  exists (elems (MessageHistory topic)). unfold Size. split_and!.
  - by apply contents_elems.
  - lia.
  - lia.
  - done.
  - rewrite Hel. etrans; [apply last_n_suffix|apply Hsuf].
Qed.

Lemma C5_witness :
  ∃ l, contents (MessageHistory demo_topic) = Some l
       ∧ Size (MessageHistory demo_topic) = Z.of_nat (length l)
       ∧ Size (MessageHistory demo_topic) ≤ TopicHistoryBufferSize
       ∧ l = last_n (Z.to_nat TopicHistoryBufferSize) (live demo_log "T")
       ∧ l `suffix_of` all demo_log "T".
Proof.
  apply (C5_history_is_recent_suffix demo_world demo_log "T" demo_topic).
  - exact demo_run.
  - exact demo_topic_lookup.
Defined.




(** C9: for an existing topic, a second [Subscribe] of the same client to
    the same topic leaves [clientTopics] and the topics (the subscriber
    maps with them) exactly as the first call left them; of the client it
    only replaces the outbound channel by the one of the second call and
    refreshes [Connected] and [LastActive]. *)
Theorem C9_Subscribe_twice (w : World) (log : Log) (c t : string) (topic : Topic)
    (n1 n2 : Z) (ch1 ch2 : ChanRef) (now1 now2 : Time) :
  run w log → topics (sys w) !! t = Some topic →
  ∃ l1 ps1 l2 ps2 client1,
    Subscribe c t n1 ch1 now1 (sys w) = Some (l1, None, ps1)
    ∧ Subscribe c t n2 ch2 now2 ps1 = Some (l2, None, ps2)
    ∧ clients ps1 !! c = Some client1
    ∧ clientTopics ps2 = clientTopics ps1
    ∧ topics ps2 = topics ps1
    ∧ clients ps2 =
      <[c := mkPubSubClient (ClientID client1) (Buffer client1) ch2 now2 true]> (clients ps1).
Proof.
  intros [Hinv _]%run_inv Ht.
  destruct (Subscribe_found c t n1 ch1 now1 (sys w) topic Hinv Ht) as (client1 & _ & HS1).
  pose proof (Subscribe_inv _ _ _ _ _ _ _ Hinv HS1) as Hinv1. simpl in Hinv1.
  set (topic1 := mkTopic (Name topic) (<[c := mkSubscriber c t c]> (Subscribers topic))
                   (MessageCount topic) (CreatedAt topic) (MessageHistory topic)) in *.
  set (ps1 := mkPubSubSystem (<[t := topic1]> (topics (sys w)))
                (<[c := client1]> (clients (sys w)))
                (<[c := <[t := true]> (default ∅ (clientTopics (sys w) !! c))]>
                   (clientTopics (sys w)))
                (startTime (sys w))) in *.
  assert (topics ps1 !! t = Some topic1) as Ht1 by apply lookup_insert_eq.
  destruct (Subscribe_found c t n2 ch2 now2 ps1 topic1 Hinv1 Ht1) as (client2 & Hreg & HS2).
  unfold register_client in Hreg. simpl in Hreg. rewrite lookup_insert_eq in Hreg.
  injection Hreg as <-.
  eexists _, ps1, _, _, client1. split; [exact HS1|]. split; [exact HS2|]. simpl.
  split_and!.
  - apply lookup_insert_eq.
  - rewrite lookup_insert_eq. simpl. by rewrite !insert_insert_eq.
  - unfold topic1. simpl. by rewrite !insert_insert_eq.
  - done.
Qed.

Lemma C9_witness :
  ∃ l1 ps1 l2 ps2 client1,
    Subscribe "c3" "T" 1 7%nat 5 (sys demo_world) = Some (l1, None, ps1)
    ∧ Subscribe "c3" "T" 0 8%nat 6 ps1 = Some (l2, None, ps2)
    ∧ clients ps1 !! "c3" = Some client1
    ∧ clientTopics ps2 = clientTopics ps1
    ∧ topics ps2 = topics ps1
    ∧ clients ps2 =
      <["c3" := mkPubSubClient (ClientID client1) (Buffer client1) 8%nat 6 true]> (clients ps1).
Proof.
  apply (C9_Subscribe_twice demo_world demo_log "c3" "T" demo_topic 1 0 7%nat 8%nat 5 6).
  - exact demo_run.
  - exact demo_topic_lookup.
Defined.

(** C10: when [clientTopics[c]] holds [t] and the registry has no topic
    [t], [Unsubscribe c t] returns the topic-not-found error after it has
    removed [t] from [clientTopics[c]], and the entry of [c] with it when
    that set became empty: the state differs from the one before. *)
Theorem C10_Unsubscribe_error_after_mutation (ps : PubSubSystem) (c t : string)
    (inner : gmap string bool) :
  clientTopics ps !! c = Some inner → inner !! t = Some true → topics ps !! t = None →
  ∃ ps',
    Unsubscribe c t ps = (Some (ErrorString ("topic " +:+ t +:+ " not found")), ps')
    ∧ ¬ in_client_topics ps' c t
    ∧ (delete t inner = ∅ → clientTopics ps' !! c = None)
    ∧ (delete t inner ≠ ∅ → clientTopics ps' !! c = Some (delete t inner))
    ∧ topics ps' = topics ps ∧ clients ps' = clients ps
    ∧ ps' ≠ ps.
Proof.
  intros Hc Hin Ht. unfold Unsubscribe. rewrite Hc, Hin, Ht. simpl.
  eexists. split; [done|]. simpl.
  assert (ct_lookup (drop_edge c t inner (clientTopics ps)) c t = None) as Hgone.
  { rewrite ct_lookup_drop_edge by done. by rewrite decide_True. }
  split_and!; try done.
  - rewrite in_client_topics_lookup. simpl. rewrite Hgone. by intros [? ?].
  - intros Hempty. unfold drop_edge. rewrite decide_True; [apply lookup_delete_eq|].
    by apply map_size_empty_iff.
  - intros Hne. unfold drop_edge. rewrite decide_False; [apply lookup_insert_eq|].
    by intros ?%map_size_empty_iff.
  - intros Heq. assert (ct_lookup (clientTopics ps) c t = Some true) as Hold.
    { unfold ct_lookup. by rewrite Hc. }
    rewrite <- Heq in Hold. simpl in Hold. congruence.
Qed.

Lemma C10_witness :
  ∃ ps',
    Unsubscribe "c" "gone" stale_system =
    (Some (ErrorString ("topic " +:+ "gone" +:+ " not found")), ps')
    ∧ ¬ in_client_topics ps' "c" "gone"
    ∧ (delete "gone" ({[ "gone" := true ]} : gmap string bool) = ∅ →
       clientTopics ps' !! "c" = None)
    ∧ (delete "gone" ({[ "gone" := true ]} : gmap string bool) ≠ ∅ →
       clientTopics ps' !! "c" = Some (delete "gone" {[ "gone" := true ]}))
    ∧ topics ps' = topics stale_system ∧ clients ps' = clients stale_system
    ∧ ps' ≠ stale_system.
Proof.
  apply (C10_Unsubscribe_error_after_mutation stale_system "c" "gone" {[ "gone" := true ]});
    vm_compute; reflexivity.
Defined.

(** ** The session *)

(** C2 fails on the code: a subscribe frame without [request_id], on a
    fresh connection, is answered by an error frame whose code is
    PROCESSING_ERROR, not BAD_REQUEST (the registry is left as it was). *)
Theorem C2_missing_request_id_gets_PROCESSING_ERROR (uuid_Parse : string → bool) :
  let frame :=
    mkEventResponse "error" ""
      (mkMessageData ""
         (PayloadError (mkErrorData "PROCESSING_ERROR" "request_id is required"))) 5 in
  processPump uuid_Parse
    (inr (mkFrame "subscribe" "T" "c1" 0 "" (mkMessageData "" PayloadNil))) 5 (λ _, 5)
    (mkClient 1%nat "") (mkWorld (NewPubSubSystem 0) {[ 1%nat := mkChan 256 [] ]}) =
  Some (mkClient 1%nat "", mkWorld (NewPubSubSystem 0) {[ 1%nat := mkChan 256 [frame] ]})
  ∧ frame_code frame = Some "PROCESSING_ERROR"
  ∧ frame_code frame ≠ Some "BAD_REQUEST".
Proof.
  split_and!; [vm_compute; reflexivity|reflexivity|discriminate].
Qed.

(** * Further properties of the code *)

(** ** Ring buffer *)

Lemma Pop_total rb : rb_wf rb → is_Some (Pop rb).
Proof.
  intros [Hc Hl Hs Ht Hh Hw Hf]. unfold Pop.
  destruct (decide (rb_size rb = 0)); [done|].
  unfold index. destruct (decide (0 ≤ rb_tail rb)) as [_|]; [|lia].
  destruct (lookup_lt_is_Some_2 (rb_buffer rb) (Z.to_nat (rb_tail rb))) as [m ->]; [lia|].
  simpl. rewrite go_rem_wrap by lia. done.
Qed.

Lemma PopAll_total rb : rb_wf rb → is_Some (PopAll rb).
Proof.
  intros Hwf. unfold PopAll. destruct (decide (rb_size rb = 0)); [done|].
  destruct (decide (rb_size rb < 0)) as [Hn|_]; [destruct Hwf; lia|].
  change (read_from rb (rb_tail rb) (rb_size rb)) with (contents rb).
  by rewrite contents_elems.
Qed.

Lemma last_n_last_n {A} (k c : nat) (l : list A) :
  (k ≤ c)%nat → last_n k (last_n c l) = last_n k l.
Proof.
  intros Hk. unfold last_n. rewrite drop_drop, length_drop. f_equal. lia.
Qed.

Lemma last_n_all {A} (k : nat) (l : list A) : (length l ≤ k)%nat → last_n k l = l.
Proof. intros Hk. unfold last_n. by replace (length l - k)%nat with 0%nat by lia. Qed.

Lemma pushes_elems es rb L :
  rb_wf rb → 1 ≤ rb_capacity rb →
  elems rb = last_n (Z.to_nat (rb_capacity rb)) L →
  ∃ rb', range_loop Push es rb = Some rb' ∧ rb_wf rb'
         ∧ rb_capacity rb' = rb_capacity rb
         ∧ elems rb' = last_n (Z.to_nat (rb_capacity rb)) (L ++ es).
Proof.
  revert rb L. induction es as [|e es IH]; intros rb L Hwf Hcap Hel; simpl.
  - exists rb. by rewrite app_nil_r.
  - destruct (Push_total e rb Hwf) as [rb1 HP]; [lia|]. rewrite HP. simpl.
    destruct (Push_wf _ _ _ Hwf HP) as [Hwf1 Hcap1].
    destruct (Push_elems _ _ _ Hwf HP) as (Hel1 & _ & _).
    destruct (IH rb1 (L ++ [e])) as (rb' & Hloop & Hwf' & Hcap' & Hel'); [done|lia| |].
    + rewrite Hel1, Hcap1. rewrite last_n_snoc by lia. rewrite <- Hel. f_equal.
      rewrite length_elems. destruct Hwf. repeat case_decide; try done; lia.
    + exists rb'. split_and!; try done; [congruence|].
      rewrite Hel', Hcap1. by rewrite <- app_assoc.
Qed.

(** ** Channels *)

Lemma heap_extends_refl P h : heap_extends P h h.
Proof.
  intros ch. split; [done|]. intros q Hq. exists []. rewrite app_nil_r.
  split_and!; try done. by destruct q.
Qed.

Lemma heap_extends_trans P h1 h2 h3 :
  heap_extends P h1 h2 → heap_extends P h2 h3 → heap_extends P h1 h3.
Proof.
  intros H12 H23 ch. destruct (H12 ch) as [Hn12 Hs12]. destruct (H23 ch) as [Hn23 Hs23].
  split; [auto|]. intros q Hq.
  destruct (Hs12 q Hq) as (l1 & Hq2 & HP1 & Hb1).
  destruct (Hs23 _ Hq2) as (l2 & Hq3 & HP2 & Hb2). simpl in *.
  exists (l1 ++ l2). rewrite app_assoc. split_and!; try done.
  - by apply Forall_app.
  - intros Hb. apply Hb2, Hb1, Hb.
Qed.

Lemma heap_extends_bounded P h h' : heap_extends P h h' → heap_bounded h → heap_bounded h'.
Proof.
  intros Hext Hb ch q' Hq'. destruct (Hext ch) as [Hn Hs].
  destruct (h !! ch) as [q|] eqn:Hq.
  - destruct (Hs q eq_refl) as (l & Hq2 & _ & Hbound). rewrite Hq2 in Hq'.
    injection Hq' as <-. simpl. apply Hbound. by apply (Hb ch).
  - rewrite Hn in Hq' by done. done.
Qed.

Lemma offer_Some (ch : nat) e h h' :
  offer ch e h = Some h' →
  ∃ q, h !! ch = Some q ∧ (length (chQueue q) < chCap q)%nat
       ∧ h' = <[ch := mkChan (chCap q) (chQueue q ++ [e])]> h.
Proof.
  unfold offer, ChanRef. destruct (h !! ch) as [q|]; [|done].
  case_decide; [|done]. intros [= <-]. eauto.
Qed.

Lemma offer_extends (P : EventResponse → Prop) (ch : nat) e h :
  P e → heap_extends P h (default h (offer ch e h)).
Proof.
  intros HP. destruct (offer ch e h) as [h'|] eqn:Hoff; simpl; [|apply heap_extends_refl].
  apply offer_Some in Hoff as (q & Hq & Hroom & ->). intros ch'.
  destruct (decide (ch' = ch)) as [->|Hne].
  - rewrite lookup_insert_eq. split; [intros Hn; congruence|]. intros q0 Hq0.
    assert (q0 = q) as -> by congruence.
    exists [e]. split_and!; try done; [by apply Forall_singleton|].
    intros _. rewrite length_app. simpl. lia.
  - rewrite lookup_insert_ne by done. apply heap_extends_refl.
Qed.

(** ** The fan-out loop of [Publish] *)

Lemma deliver_Some e clock s cls h cls1 h1 :
  deliver e clock s (cls, h) = Some (cls1, h1) →
  ∃ cl, cls !! subClient s = Some cl ∧
    ((Connected cl = false ∧ cls1 = cls ∧ h1 = h) ∨
     (Connected cl = true ∧ ∃ buf la,
        Push e (Buffer cl) = Some buf
        ∧ cls1 = <[subClient s := mkPubSubClient (ClientID cl) buf (WriteChan cl) la true]> cls
        ∧ h1 = default h (offer (WriteChan cl) e h)
        ∧ la = match offer (WriteChan cl) e h with
               | Some _ => clock (subClient s)
               | None => LastActive cl
               end)).
Proof.
  unfold deliver. simpl. destruct (cls !! subClient s) as [cl|] eqn:Hcl; [|done]. simpl.
  intros Hd. exists cl. split; [done|].
  destruct (Connected cl) eqn:Hconn; simpl in Hd.
  - right. split; [done|]. destruct (Push e (Buffer cl)) as [buf|]; [|done]. simpl in Hd.
    destruct (offer (WriteChan cl) e h) as [h'|]; injection Hd as <- <-;
      eexists _, _; split_and!; done.
  - left. by injection Hd as <- <-.
Qed.

Lemma deliver_loop_frame e clock subs cls h cls' h' :
  range_loop (deliver e clock) subs (cls, h) = Some (cls', h') →
  (∀ c, c ∉ subClient <$> subs → cls' !! c = cls !! c)
  ∧ (∀ c cl', cls' !! c = Some cl' →
       ∃ cl, cls !! c = Some cl ∧ ClientID cl' = ClientID cl
             ∧ WriteChan cl' = WriteChan cl ∧ Connected cl' = Connected cl)
  ∧ heap_extends (λ x, x = e) h h'
  ∧ (∀ ch, (∀ s cl, s ∈ subs → cls !! subClient s = Some cl → Connected cl = true →
            WriteChan cl ≠ ch) → h' !! ch = h !! ch).
Proof.
  revert cls h. induction subs as [|s subs IH]; intros cls h; simpl.
  - intros [= <- <-]. split_and!; eauto using heap_extends_refl.
  - destruct (deliver e clock s (cls, h)) as [[cls1 h1]|] eqn:Hd; simpl; [|done].
    intros Hloop. destruct (IH _ _ Hloop) as (Hframe & Hsame & Hext & Hch). clear IH.
    apply deliver_Some in Hd as (cl & Hcl & Hd).
    assert (∀ c cl1, cls1 !! c = Some cl1 →
              ∃ cl0, cls !! c = Some cl0 ∧ ClientID cl1 = ClientID cl0
                     ∧ WriteChan cl1 = WriteChan cl0 ∧ Connected cl1 = Connected cl0) as Hstep.
    { intros c cl1 Hc1. destruct Hd as [(_ & -> & _)|(Hconn & buf & la & _ & -> & _)]; [eauto|].
      destruct (decide (c = subClient s)) as [->|Hne].
      - rewrite lookup_insert_eq in Hc1. injection Hc1 as <-. eauto.
      - rewrite lookup_insert_ne in Hc1 by done. eauto. }
    assert (heap_extends (λ x, x = e) h h1) as Hext1.
    { destruct Hd as [(_ & _ & ->)|(_ & buf & la & _ & _ & -> & _)];
        [apply heap_extends_refl|by apply offer_extends]. }
    split_and!.
    + intros c Hc. rewrite Hframe by set_solver.
      destruct Hd as [(_ & -> & _)|(_ & buf & la & _ & -> & _)]; [done|].
      rewrite lookup_insert_ne; [done|set_solver].
    + intros c cl' Hc'. destruct (Hsame _ _ Hc') as (cl1 & Hc1 & ? & ? & ?).
      destruct (Hstep _ _ Hc1) as (cl0 & ? & ? & ? & ?).
      exists cl0. split_and!; congruence.
    + by eapply heap_extends_trans.
    + intros ch Hne. rewrite Hch.
      * destruct Hd as [(_ & _ & ->)|(Hconn & buf & la & _ & _ & -> & _)]; [done|].
        destruct (offer (WriteChan cl) e h) as [h2|] eqn:Hoff; simpl; [|done].
        apply offer_Some in Hoff as (q & _ & _ & ->).
        rewrite lookup_insert_ne; [done|]. apply (Hne s cl); [by left|done|done].
      * intros s' cl1 Hs' Hc1 Hconn1. destruct (Hstep _ _ Hc1) as (cl0 & Hc0 & _ & Hw & Hco).
        rewrite Hw. apply (Hne s' cl0); [by right|done|congruence].
Qed.

Lemma deliver_loop_push e clock subs cls h cls' h' s cl :
  range_loop (deliver e clock) subs (cls, h) = Some (cls', h') →
  NoDup (subClient <$> subs) →
  s ∈ subs → cls !! subClient s = Some cl → Connected cl = true →
  ∃ cl', cls' !! subClient s = Some cl' ∧ Push e (Buffer cl) = Some (Buffer cl').
Proof.
  revert cls h. induction subs as [|s0 subs IH]; intros cls h; simpl.
  - by intros _ _ ?%elem_of_nil.
  - destruct (deliver e clock s0 (cls, h)) as [[cls1 h1]|] eqn:Hd; simpl; [|done].
    intros Hloop [Hnotin Hnd]%list.NoDup_cons Hin Hcl Hconn.
    apply deliver_Some in Hd as (cl0 & Hcl0 & Hd).
    destruct (decide (subClient s = subClient s0)) as [Heq|Hne].
    + rewrite Heq in *. rewrite Hcl in Hcl0. injection Hcl0 as <-.
      destruct Hd as [(Hfalse & _)|(_ & buf & la & Hpush & -> & _)]; [congruence|].
      destruct (deliver_loop_frame _ _ _ _ _ _ _ Hloop) as (Hframe & _).
      rewrite Hframe by done. rewrite lookup_insert_eq. eauto.
    + apply elem_of_cons in Hin as [->|Hin]; [done|].
      apply (IH cls1 h1); try done.
      destruct Hd as [(_ & -> & _)|(_ & buf & la & _ & -> & _)]; [done|].
      by rewrite lookup_insert_ne.
Qed.

Lemma deliver_loop_send e clock subs cls h cls' h' s cl q :
  range_loop (deliver e clock) subs (cls, h) = Some (cls', h') →
  NoDup (subClient <$> subs) →
  s ∈ subs → cls !! subClient s = Some cl → Connected cl = true →
  h !! WriteChan cl = Some q → (length (chQueue q) < chCap q)%nat →
  (∀ s' cl', s' ∈ subs → cls !! subClient s' = Some cl' → Connected cl' = true →
     WriteChan cl' = WriteChan cl → subClient s' = subClient s) →
  h' !! WriteChan cl = Some (mkChan (chCap q) (chQueue q ++ [e]))
  ∧ ∃ cl', cls' !! subClient s = Some cl' ∧ LastActive cl' = clock (subClient s).
Proof.
  unfold ChanRef in *.
  revert cls h. induction subs as [|s0 subs IH]; intros cls h; simpl.
  - by intros _ _ ?%elem_of_nil.
  - destruct (deliver e clock s0 (cls, h)) as [[cls1 h1]|] eqn:Hd; simpl; [|done].
    intros Hloop [Hnotin Hnd]%list.NoDup_cons Hin Hcl Hconn Hq Hroom Huniq.
    apply deliver_Some in Hd as (cl0 & Hcl0 & Hd).
    destruct (deliver_loop_frame _ _ _ _ _ _ _ Hloop) as (Hframe & _ & _ & Hch).
    destruct (decide (subClient s = subClient s0)) as [Heq|Hne].
    + assert (cl0 = cl) as -> by (rewrite Heq in Hcl; congruence).
      destruct Hd as [(Hfalse & _)|(_ & buf & la & Hpush & Hcls1 & Hh1 & Hla)]; [congruence|].
      assert (offer (WriteChan cl) e h
              = Some (<[WriteChan cl := mkChan (chCap q) (chQueue q ++ [e])]> h)) as Hoff.
      { unfold offer. unfold ChanRef in *. rewrite Hq. by rewrite decide_True. }
      rewrite Hoff in Hh1, Hla. simpl in Hh1. subst cls1 h1 la.
      split.
      * rewrite Hch; [by rewrite lookup_insert_eq|].
        intros s' cl1 Hs' Hc1 Hconn1 Hw.
        assert (subClient s' ≠ subClient s0) as Hne' by (intros Heq'; apply Hnotin; set_solver).
        rewrite lookup_insert_ne in Hc1 by done.
        apply Hne'. rewrite <- Heq. apply (Huniq s' cl1); try done. by right.
      * rewrite Heq, Hframe by done. rewrite lookup_insert_eq. eauto.
    + apply elem_of_cons in Hin as [->|Hin]; [done|].
      assert (cls1 !! subClient s = Some cl) as Hcl1.
      { destruct Hd as [(_ & -> & _)|(_ & buf & la & _ & -> & _)]; [done|].
        by rewrite lookup_insert_ne. }
      assert (h1 !! WriteChan cl = Some q) as Hq1.
      { destruct Hd as [(_ & _ & ->)|(Hconn0 & buf & la & _ & _ & -> & _)]; [done|].
        destruct (offer (WriteChan cl0) e h) as [h2|] eqn:Hoff; simpl; [|done].
        apply offer_Some in Hoff as (q0 & _ & _ & ->).
        rewrite lookup_insert_ne; [done|]. intros Hw. apply Hne. symmetry.
        apply (Huniq s0 cl0); try done. by left. }
      apply (IH cls1 h1); try done.
      intros s' cl1 Hs' Hc1 Hconn1 Hw.
      assert (subClient s' ≠ subClient s0) as Hne' by (intros Heq'; apply Hnotin; set_solver).
      apply (Huniq s' cl1); try done; [by right|].
      destruct Hd as [(_ & -> & _)|(_ & buf & la & _ & -> & _)]; [done|].
      by rewrite lookup_insert_ne in Hc1.
Qed.

Lemma Publish_Some t m sender now clock w topic r :
  topics (sys w) !! t = Some topic → Publish t m sender now clock w = Some r →
  ∃ history cls h,
    Push (mkEventResponse "event" t m now) (MessageHistory topic) = Some history
    ∧ range_loop (deliver (mkEventResponse "event" t m now) clock)
        (map_to_list (Subscribers topic)).*2 (clients (sys w), chans w) = Some (cls, h)
    ∧ r = (None,
           mkWorld (mkPubSubSystem
                      (<[t := mkTopic (Name topic) (Subscribers topic)
                                (wrap64 (MessageCount topic + 1)) (CreatedAt topic) history]>
                         (topics (sys w)))
                      cls (clientTopics (sys w)) (startTime (sys w))) h).
Proof.
  intros Ht. unfold Publish. rewrite Ht.
  destruct (Push _ (MessageHistory topic)) as [history|]; simpl; [|done].
  destruct (range_loop _ _ _) as [[cls h]|]; simpl; [|done].
  intros [= <-]. eexists _, _, _. split_and!; done.
Qed.

(** The subscribers of a topic, in the order of the fan-out, are distinct
    clients, each stored under the key of the client it points to. *)
Lemma subscribers_NoDup ps t topic :
  sys_inv ps → topics ps !! t = Some topic →
  NoDup (subClient <$> (map_to_list (Subscribers topic)).*2)
  ∧ ∀ c s, Subscribers topic !! c = Some s →
           s ∈ (map_to_list (Subscribers topic)).*2 ∧ subClient s = c.
Proof.
  intros Hinv Ht.
  assert (∀ c s, Subscribers topic !! c = Some s → subClient s = c) as Hkey.
  { intros c s Hin. destruct (inv_sub _ Hinv t c s) as (_ & ? & _); [|done].
    apply sub_lookup_Some. eauto. }
  split.
  - assert (subClient <$> (map_to_list (Subscribers topic)).*2
            = (map_to_list (Subscribers topic)).*1) as ->.
    { rewrite <- list_fmap_compose. apply Forall_fmap_ext_1, list.Forall_forall.
      intros [c s] Hin%elem_of_map_to_list. simpl. by apply Hkey. }
    apply NoDup_fst_map_to_list.
  - intros c s Hcs. split; [|by apply Hkey].
    apply list_elem_of_fmap. exists (c, s). split; [done|]. by apply elem_of_map_to_list.
Qed.

(** ** The eviction loop of [DeleteTopic] *)

Lemma drop_edge_nonempty c name inner (ct : gmap string (gmap string bool)) :
  (∀ c' i, ct !! c' = Some i → i ≠ ∅) →
  ∀ c' i, drop_edge c name inner ct !! c' = Some i → i ≠ ∅.
Proof.
  intros Hne c' i. unfold drop_edge. case_decide as Hsz.
  - intros [_ ?]%lookup_delete_Some. eauto.
  - destruct (decide (c' = c)) as [->|Hnc].
    + rewrite lookup_insert_eq. intros [= <-] Hempty. apply Hsz.
      by apply map_size_empty_iff.
    + rewrite lookup_insert_ne by done. eauto.
Qed.

Lemma notify_evict_Some cls name uuid clock s ct h ct1 h1 :
  notify_evict cls name uuid clock s (ct, h) = Some (ct1, h1) →
  ∃ cl, cls !! subClient s = Some cl
        ∧ h1 = default h (offer (WriteChan cl)
                            (mkEventResponse "info" name
                               (mkMessageData (uuid (subClientID s))
                                  (PayloadText "topic_deleted"))
                               (clock (subClientID s))) h)
        ∧ ct1 = match ct !! subClientID s with
                | Some inner => drop_edge (subClientID s) name inner ct
                | None => ct
                end.
Proof.
  unfold notify_evict. destruct (cls !! subClient s) as [cl|]; simpl; [|done].
  intros [= <- <-]. eauto.
Qed.

Lemma evict_loop_frame cls name uuid clock subs ct h ct' h' :
  range_loop (notify_evict cls name uuid clock) subs (ct, h) = Some (ct', h') →
  heap_extends (is_notice name) h h'
  ∧ ((∀ c i, ct !! c = Some i → i ≠ ∅) → ∀ c i, ct' !! c = Some i → i ≠ ∅).
Proof.
  revert ct h. induction subs as [|s subs IH]; intros ct h; simpl.
  - intros [= <- <-]. split; [apply heap_extends_refl|done].
  - destruct (notify_evict cls name uuid clock s (ct, h)) as [[ct1 h1]|] eqn:Hstep;
      simpl; [|done].
    apply notify_evict_Some in Hstep as (cl & _ & -> & ->).
    intros Hloop. destruct (IH _ _ Hloop) as [Hext Hne]. clear IH. split.
    + eapply heap_extends_trans; [|exact Hext]. by apply offer_extends.
    + intros Hct. apply Hne. destruct (ct !! subClientID s); [|done].
      by apply drop_edge_nonempty.
Qed.

Lemma DeleteTopic_Some name uuid clock w topic r :
  topics (sys w) !! name = Some topic → DeleteTopic name uuid clock w = Some r →
  ∃ ct h,
    range_loop (notify_evict (clients (sys w)) name uuid clock)
      (map_to_list (Subscribers topic)).*2 (clientTopics (sys w), chans w) = Some (ct, h)
    ∧ r = (None,
           mkWorld (mkPubSubSystem (delete name (topics (sys w))) (clients (sys w)) ct
                      (startTime (sys w))) h).
Proof.
  intros Ht. unfold DeleteTopic. rewrite Ht.
  destruct (range_loop _ _ _) as [[ct h]|]; simpl; [|done].
  intros [= <-]. eexists _, _. split; done.
Qed.

(** ** What [DisconnectClient] removes *)

Lemma DisconnectClient_sub_lookup c ps t c' :
  sys_inv ps →
  sub_lookup (topics (DisconnectClient c ps)) t c' =
  if decide (c' = c) then None else sub_lookup (topics ps) t c'.
Proof.
  intros Hinv. unfold DisconnectClient.
  destruct (clientTopics ps !! c) as [topicsMap|] eqn:Hc; simpl.
  - unfold sub_lookup at 1. rewrite foldl_remove_subscriber.
    destruct (topics ps !! t) as [topic|] eqn:Htp; simpl.
    2:{ unfold sub_lookup. rewrite Htp. by case_decide. }
    assert (sub_lookup (topics ps) t c' = Subscribers topic !! c') as Heq.
    { unfold sub_lookup. by rewrite Htp. }
    destruct (decide (c' = c)) as [->|Hnc].
    + case_decide as Hin; simpl; [apply lookup_delete_eq|].
      destruct (Subscribers topic !! c) as [s|] eqn:Hsc; [|done].
      exfalso. apply Hin.
      assert (is_Some (ct_lookup (clientTopics ps) c t)) as [b Hedge]
        by (apply (inv_edge _ Hinv); rewrite Heq; done).
      unfold ct_lookup in Hedge. rewrite Hc in Hedge. simpl in Hedge.
      apply list_elem_of_fmap. exists (t, b). split; [done|].
      by apply elem_of_map_to_list.
    + rewrite Heq. case_decide; simpl; [by rewrite lookup_delete_ne|done].
  - case_decide as Hd; [|done]. subst c'.
    destruct (sub_lookup (topics ps) t c) as [s|] eqn:Hs; [|done].
    assert (is_Some (ct_lookup (clientTopics ps) c t)) as [b Hedge]
      by (apply (inv_edge _ Hinv); by rewrite Hs).
    unfold ct_lookup in Hedge. by rewrite Hc in Hedge.
Qed.

Lemma DisconnectClient_topic c ps t topic' :
  topics (DisconnectClient c ps) !! t = Some topic' →
  ∃ topic, topics ps !! t = Some topic ∧ Name topic' = Name topic
           ∧ MessageCount topic' = MessageCount topic
           ∧ CreatedAt topic' = CreatedAt topic
           ∧ MessageHistory topic' = MessageHistory topic.
Proof.
  unfold DisconnectClient. destruct (clientTopics ps !! c) as [topicsMap|]; simpl; [|eauto 10].
  rewrite foldl_remove_subscriber. destruct (topics ps !! t) as [topic|]; simpl; [|done].
  intros [= <-]. exists topic. by case_decide.
Qed.

Lemma DisconnectClient_clients c ps c' :
  clients (DisconnectClient c ps) !! c' =
  if decide (c' = c)
  then (λ cl, mkPubSubClient (ClientID cl) (Buffer cl) (WriteChan cl) (LastActive cl) false)
         <$> clients ps !! c
  else clients ps !! c'.
Proof.
  assert (clients (DisconnectClient c ps) =
          match clients ps !! c with
          | Some cl => <[c := mkPubSubClient (ClientID cl) (Buffer cl) (WriteChan cl)
                                (LastActive cl) false]> (clients ps)
          | None => clients ps
          end) as ->.
  { unfold DisconnectClient. by destruct (clientTopics ps !! c). }
  destruct (clients ps !! c) as [cl|] eqn:Hc; case_decide as Hd; subst; simpl.
  - by rewrite lookup_insert_eq.
  - by rewrite lookup_insert_ne.
  - done.
  - done.
Qed.

Lemma DisconnectClient_clientTopics c ps :
  clientTopics (DisconnectClient c ps) = delete c (clientTopics ps).
Proof.
  unfold DisconnectClient. destruct (clientTopics ps !! c) as [m|] eqn:Hc; simpl; [done|].
  symmetry. by apply delete_id.
Qed.

(** ** The further invariant along runs *)

Lemma NewPubSubSystem_aux now : aux_inv (NewPubSubSystem now).
Proof.
  split; simpl; unfold sub_lookup; intros *; rewrite ?lookup_empty; simpl; done.
Qed.

Lemma step_aux op w r w' :
  sys_inv (sys w) → aux_inv (sys w) → step op w = Some (r, w') → aux_inv (sys w').
Proof.
  intros Hinv [An Ac Ai Ae].
  destruct op as [name now|name uuid clock|c t lastN ch now|c t|t m sender now clock|c|f];
    simpl.
  - (* CreateTopic *)
    destruct (CreateTopic _ _ _) as [[e ps']|] eqn:H; simpl; [|done].
    intros [= <- <-]. simpl.
    apply CreateTopic_new in H as [(_ & -> & _)|(_ & Hnone & history & _ & ->)]; [done|].
    split; simpl; try done.
    + intros t topic. destruct (decide (t = name)) as [->|Hne].
      * rewrite lookup_insert_eq. by intros [= <-].
      * rewrite lookup_insert_ne by done. apply An.
    + intros t c s. rewrite sub_lookup_insert. case_decide; [|apply Ac].
      simpl. by rewrite lookup_empty.
  - (* DeleteTopic *)
    destruct (DeleteTopic _ _ _ _) as [r'|] eqn:H; simpl; [|done].
    intros [= <- <-]. destruct (topics (sys w) !! name) as [topic|] eqn:Htp.
    + destruct (DeleteTopic_Some _ _ _ _ _ _ Htp H) as (ct & h & Hloop & ->). simpl.
      destruct (evict_loop_frame _ _ _ _ _ _ _ _ _ Hloop) as [_ Hne].
      split; simpl; try done.
      * intros t topic' [_ ?]%lookup_delete_Some. eauto.
      * intros t c s. rewrite sub_lookup_delete. case_decide; [done|apply Ac].
      * by apply Hne.
    + rewrite DeleteTopic_missing in H by done. by injection H as <-.
  - (* Subscribe *)
    destruct (Subscribe _ _ _ _ _ _) as [r'|] eqn:H; simpl; [|done].
    intros [= <- <-]. simpl. destruct (topics (sys w) !! t) as [topic|] eqn:Htp.
    + destruct (Subscribe_found c t lastN ch now (sys w) topic Hinv Htp) as (client & Hreg & HS).
      rewrite HS in H. injection H as <-. simpl.
      assert (Connected client = true ∧ ClientID client = c) as [Hconn Hcid].
      { unfold register_client in Hreg. destruct (clients (sys w) !! c) as [old|] eqn:Hold.
        - injection Hreg as <-. simpl. split; [done|]. by apply Ai.
        - destruct (NewRingBuffer DefaultBufferSize); [|done]. by injection Hreg as <-. }
      split; simpl.
      * intros t' topic'. destruct (decide (t' = t)) as [->|Hne].
        -- rewrite lookup_insert_eq. intros [= <-]. simpl. by apply An.
        -- rewrite lookup_insert_ne by done. apply An.
      * intros t' c' s Hs.
        destruct (decide (c' = c)) as [->|Hnc]; [rewrite lookup_insert_eq; eauto|].
        rewrite lookup_insert_ne by done. apply (Ac t' c' s).
        rewrite sub_lookup_insert in Hs. case_decide as Hd; [|done].
        subst. simpl in Hs. rewrite lookup_insert_ne in Hs by done.
        unfold sub_lookup. by rewrite Htp.
      * intros c' client'. destruct (decide (c' = c)) as [->|Hnc].
        -- rewrite lookup_insert_eq. by intros [= <-].
        -- rewrite lookup_insert_ne by done. apply Ai.
      * intros c' inner. destruct (decide (c' = c)) as [->|Hnc].
        -- rewrite lookup_insert_eq. intros [= <-]. apply insert_non_empty.
        -- rewrite lookup_insert_ne by done. apply Ae.
    + rewrite Subscribe_missing in H by done. by injection H as <-.
  - (* Unsubscribe *)
    intros [= <- <-]. simpl. unfold Unsubscribe.
    destruct (clientTopics (sys w) !! c) as [inner|] eqn:Hc; [|done].
    destruct (negb _); [done|].
    destruct (topics (sys w) !! t) as [topic|] eqn:Htp; simpl.
    + split; simpl.
      * intros t' topic'. destruct (decide (t' = t)) as [->|Hne].
        -- rewrite lookup_insert_eq. intros [= <-]. simpl. by apply An.
        -- rewrite lookup_insert_ne by done. apply An.
      * intros t' c' s. rewrite sub_lookup_insert. case_decide as Hd; [|apply Ac].
        subst. simpl. intros [_ Hs]%lookup_delete_Some. apply (Ac t c' s).
        unfold sub_lookup. by rewrite Htp.
      * done.
      * by apply drop_edge_nonempty.
    + split; simpl; try done. by apply drop_edge_nonempty.
  - (* Publish *)
    destruct (Publish _ _ _ _ _ _) as [r'|] eqn:H; simpl; [|done].
    intros [= <- <-]. destruct (topics (sys w) !! t) as [topic|] eqn:Htp.
    + destruct (Publish_found t m sender now clock w topic Hinv Htp)
        as (history & cls & h & _ & Hkeys & _ & HP).
      rewrite HP in H. injection H as <-.
      destruct (Publish_Some _ _ _ _ _ _ _ _ Htp HP) as (? & ? & ? & _ & Hloop & [= _ <- <-]).
      simpl. destruct (deliver_loop_frame _ _ _ _ _ _ _ Hloop) as (_ & Hsame & _).
      split; simpl; try done.
      * intros t' topic'. destruct (decide (t' = t)) as [->|Hne].
        -- rewrite lookup_insert_eq. intros [= <-]. simpl. by apply An.
        -- rewrite lookup_insert_ne by done. apply An.
      * intros t' c' s Hs.
        assert (sub_lookup (topics (sys w)) t' c' = Some s) as Hs0.
        { rewrite sub_lookup_insert in Hs. case_decide as Hd; [|done].
          subst. simpl in Hs. unfold sub_lookup. by rewrite Htp. }
        destruct (Ac _ _ _ Hs0) as (cl & Hcl & Hconn).
        destruct (Hkeys c') as [_ [cl' Hcl']]; [by rewrite Hcl|].
        destruct (Hsame _ _ Hcl') as (cl0 & Hcl0 & _ & _ & Hco).
        exists cl'. split; [done|]. congruence.
      * intros c' cl' Hcl'. destruct (Hsame _ _ Hcl') as (cl0 & Hcl0 & Hid & _).
        rewrite Hid. by apply Ai.
    + rewrite Publish_missing in H by done. by injection H as <-.
  - (* Disconnect *)
    intros [= <- <-]. simpl. split.
    + intros t topic' (topic & Htp & -> & _)%DisconnectClient_topic. by apply An.
    + intros t c' s. rewrite DisconnectClient_sub_lookup by done.
      case_decide as Hd; [done|]. intros (cl & Hcl & Hconn)%Ac.
      exists cl. rewrite DisconnectClient_clients. by rewrite decide_False.
    + intros c' cl'. rewrite DisconnectClient_clients. case_decide as Hd.
      * subst. destruct (clients (sys w) !! c) as [cl|] eqn:Hcl; simpl; [|done].
        intros [= <-]. simpl. by apply Ai.
      * apply Ai.
    + intros c' inner. rewrite DisconnectClient_clientTopics.
      intros [_ ?]%lookup_delete_Some. eauto.
  - by intros [= <- <-].
Qed.

Lemma run_aux w log : run w log → aux_inv (sys w).
Proof.
  induction 1 as [now h|op w log r w' Hrun IH Hstep].
  - apply NewPubSubSystem_aux.
  - eapply step_aux; [|done..]. by apply run_inv in Hrun as [? _].
Qed.

(** ** History handed to a new subscriber *)

Lemma last_n_min {A} (n k : Z) (l : list A) :
  last_n (Z.to_nat (Z.min n (Z.of_nat (length (last_n (Z.to_nat k) l))))) (last_n (Z.to_nat k) l)
  = last_n (Z.to_nat (Z.min n k)) l.
Proof.
  rewrite last_n_length.
  destruct (decide (Z.of_nat (length l) ≤ k)) as [Hle|Hgt].
  - rewrite (last_n_all (Z.to_nat k)) by lia.
    destruct (decide (n ≤ Z.of_nat (length l))).
    + f_equal. lia.
    + rewrite !last_n_all by lia. done.
  - rewrite last_n_last_n by lia. f_equal. lia.
Qed.

Lemma topic_eta topic :
  mkTopic (Name topic) (Subscribers topic) (MessageCount topic) (CreatedAt topic)
    (MessageHistory topic) = topic.
Proof. by destruct topic. Qed.

Lemma system_eta ps :
  mkPubSubSystem (topics ps) (clients ps) (clientTopics ps) (startTime ps) = ps.
Proof. by destruct ps. Qed.

Lemma DisconnectClient_topic_keys c ps t :
  is_Some (topics (DisconnectClient c ps) !! t) ↔ is_Some (topics ps !! t).
Proof.
  unfold DisconnectClient. destruct (clientTopics ps !! c) as [topicsMap|]; simpl; [|done].
  rewrite foldl_remove_subscriber. apply fmap_is_Some.
Qed.

Lemma demo_client_lookup : clients (sys demo_world) !! "c1" = Some demo_client.
Proof. vm_compute. reflexivity. Defined.

Lemma heap_extends_mono (P Q : EventResponse → Prop) h h' :
  (∀ e, P e → Q e) → heap_extends P h h' → heap_extends Q h h'.
Proof.
  intros HPQ Hext ch. destruct (Hext ch) as [Hn Hs]. split; [done|].
  intros q Hq. destruct (Hs q Hq) as (l & Hl & HP & Hb). exists l. split_and!; try done.
  eapply list.Forall_impl; [exact HP|]. done.
Qed.

Lemma step_heap_extends op w r w' :
  (∀ f, op ≠ OpChannels f) → step op w = Some (r, w') →
  heap_extends core_frame (chans w) (chans w').
Proof.
  intros Hop Hstep.
  destruct op as [name now|name uuid clock|c t lastN ch now|c t|t m sender now clock|c|f];
    simpl in Hstep.
  - destruct (CreateTopic name now (sys w)) as [r0|]; [|done].
    injection Hstep as _ <-. apply heap_extends_refl.
  - destruct (topics (sys w) !! name) as [topic|] eqn:Ht.
    + destruct (DeleteTopic name uuid clock w) as [r0|] eqn:HD; [|done].
      destruct (DeleteTopic_Some _ _ _ _ _ _ Ht HD) as (ct & h & Hloop & ->).
      injection Hstep as _ <-. simpl.
      destruct (evict_loop_frame _ _ _ _ _ _ _ _ _ Hloop) as [Hext _].
      eapply heap_extends_mono; [|exact Hext]. intros e (? & _ & ?). by right.
    + rewrite DeleteTopic_missing in Hstep by done. injection Hstep as _ <-.
      apply heap_extends_refl.
  - destruct (Subscribe c t lastN ch now (sys w)) as [r0|]; [|done].
    injection Hstep as _ <-. apply heap_extends_refl.
  - injection Hstep as _ <-. apply heap_extends_refl.
  - destruct (topics (sys w) !! t) as [topic|] eqn:Ht.
    + destruct (Publish t m sender now clock w) as [r0|] eqn:HP; [|done].
      destruct (Publish_Some _ _ _ _ _ _ _ _ Ht HP) as (history & cls & h & _ & Hloop & ->).
      injection Hstep as _ <-. simpl.
      destruct (deliver_loop_frame _ _ _ _ _ _ _ Hloop) as (_ & _ & Hext & _).
      eapply heap_extends_mono; [|exact Hext]. intros e ->. by left.
    + rewrite Publish_missing in Hstep by done. injection Hstep as _ <-.
      apply heap_extends_refl.
  - injection Hstep as _ <-. apply heap_extends_refl.
  - by destruct (Hop f).
Qed.

Lemma foldl_snoc {A B} (f : A → B) (l : list A) (acc : list B) :
  foldl (λ acc x, acc ++ [f x]) acc l = acc ++ (f <$> l).
Proof.
  revert acc. induction l as [|x l IH]; intros acc; simpl.
  - by rewrite app_nil_r.
  - rewrite IH. by rewrite <- app_assoc.
Qed.

Lemma foldl_insert {V W} (f : string * V → W) (l : list (string * V)) (acc : gmap string W) :
  NoDup l.*1 →
  ∀ k, foldl (λ acc kv, <[kv.1 := f kv]> acc) acc l !! k =
       match list_find (λ kv, kv.1 = k) l with
       | Some (_, kv) => Some (f kv)
       | None => acc !! k
       end.
Proof.
  revert acc. induction l as [|[k0 v0] l IH]; intros acc Hnd k; simpl; [done|].
  apply list.NoDup_cons in Hnd as [Hk0 Hnd]. rewrite IH by done.
  destruct (decide (k0 = k)) as [->|Hne].
  - destruct (list_find (λ kv, kv.1 = k) l) as [[i [k1 v1]]|] eqn:Hf; simpl.
    + apply list_find_Some in Hf as (Hl & Hk & _). simpl in Hk. subst.
      destruct Hk0. apply list_elem_of_fmap. exists (k, v1). split; [done|].
      by eapply list_elem_of_lookup_2.
    + by rewrite lookup_insert_eq.
  - destruct (list_find (λ kv, kv.1 = k) l) as [[i kv]|]; simpl; [done|].
    by rewrite lookup_insert_ne.
Qed.

Lemma foldl_insert_map {V W} (f : string * V → W) (m : gmap string V) k :
  foldl (λ (acc : gmap string W) kv, <[kv.1 := f kv]> acc) ∅ (map_to_list m) !! k
  = (λ v, f (k, v)) <$> m !! k.
Proof.
  rewrite foldl_insert by apply NoDup_fst_map_to_list.
  destruct (list_find (λ kv, kv.1 = k) (map_to_list m)) as [[i [k1 v1]]|] eqn:Hf.
  - apply list_find_Some in Hf as (Hl & Hk & _). simpl in Hk. subst.
    apply list_elem_of_lookup_2, elem_of_map_to_list in Hl. by rewrite Hl.
  - rewrite lookup_empty. destruct (m !! k) as [v|] eqn:Hv; [|done].
    apply elem_of_map_to_list in Hv.
    apply list_find_None in Hf. rewrite list.Forall_forall in Hf.
    by destruct (Hf _ Hv).
Qed.

Lemma keys_of_spec {V} (m : gmap string V) :
  keys_of m = (map_to_list m).*1.
Proof. unfold keys_of. rewrite (foldl_snoc id). by rewrite list_fmap_id. Qed.

Lemma keys_of_elem {V} (m : gmap string V) k : k ∈ keys_of m ↔ is_Some (m !! k).
Proof.
  rewrite keys_of_spec. split.
  - intros ([k' v] & -> & Hkv%elem_of_map_to_list)%list_elem_of_fmap. by exists v.
  - intros [v Hv]. apply list_elem_of_fmap. exists (k, v). split; [done|].
    by apply elem_of_map_to_list.
Qed.

Lemma keys_of_NoDup {V} (m : gmap string V) : NoDup (keys_of m).
Proof. rewrite keys_of_spec. apply NoDup_fst_map_to_list. Qed.

Lemma keys_of_length {V} (m : gmap string V) : length (keys_of m) = size m.
Proof. rewrite keys_of_spec, length_fmap. by rewrite length_map_to_list. Qed.

Lemma GetClientTopics_elem ps c t :
  t ∈ GetClientTopics c ps ↔ is_Some (ct_lookup (clientTopics ps) c t).
Proof.
  unfold GetClientTopics, ct_lookup. destruct (clientTopics ps !! c) as [inner|]; simpl.
  - apply keys_of_elem.
  - split; [by intros ?%elem_of_nil|by intros [? ?]].
Qed.

Lemma GetClientTopics_NoDup ps c : NoDup (GetClientTopics c ps).
Proof.
  unfold GetClientTopics. destruct (clientTopics ps !! c); [apply keys_of_NoDup|constructor].
Qed.

Lemma client_edges_elem ps c t :
  (c, t) ∈ client_edges ps ↔ is_Some (ct_lookup (clientTopics ps) c t).
Proof.
  unfold client_edges, ct_lookup. rewrite list_elem_of_bind. split.
  - intros ([c' inner] & Hin & Hct%elem_of_map_to_list). simpl in Hin.
    apply list_elem_of_fmap in Hin as (t' & [= -> ->] & Ht). rewrite Hct. simpl.
    rewrite <- keys_of_spec in Ht. by apply keys_of_elem.
  - destruct (clientTopics ps !! c) as [inner|] eqn:Hct; simpl; [|by intros [? ?]].
    intros Ht. exists (c, inner). split; [|by apply elem_of_map_to_list]. simpl.
    apply list_elem_of_fmap. exists t. split; [done|].
    rewrite <- keys_of_spec. by apply keys_of_elem.
Qed.

Lemma topic_edges_elem ps c t :
  (c, t) ∈ topic_edges ps ↔ is_Some (sub_lookup (topics ps) t c).
Proof.
  unfold topic_edges, sub_lookup. rewrite list_elem_of_bind. split.
  - intros ([t' topic] & Hin & Ht%elem_of_map_to_list). simpl in Hin.
    apply list_elem_of_fmap in Hin as (c' & [= -> ->] & Hc). rewrite Ht. simpl.
    rewrite <- keys_of_spec in Hc. by apply keys_of_elem.
  - destruct (topics ps !! t) as [topic|] eqn:Ht; simpl; [|by intros [? ?]].
    intros Hc. exists (t, topic). split; [|by apply elem_of_map_to_list]. simpl.
    apply list_elem_of_fmap. exists c. split; [done|].
    rewrite <- keys_of_spec. by apply keys_of_elem.
Qed.

Lemma client_edges_NoDup ps : NoDup (client_edges ps).
Proof.
  unfold client_edges. apply NoDup_bind.
  - intros [c1 i1] [c2 i2] [c t] H1%elem_of_map_to_list H2%elem_of_map_to_list Hy1 Hy2.
    simpl in *. apply list_elem_of_fmap in Hy1 as (? & [= -> ->] & _).
    apply list_elem_of_fmap in Hy2 as (? & [= -> _] & _). congruence.
  - intros [c inner] _. simpl. apply NoDup_fmap_2; [|apply NoDup_fst_map_to_list].
    by intros ?? [= ->].
  - apply NoDup_map_to_list.
Qed.

Lemma topic_edges_NoDup ps : NoDup (topic_edges ps).
Proof.
  unfold topic_edges. apply NoDup_bind.
  - intros [t1 i1] [t2 i2] [c t] H1%elem_of_map_to_list H2%elem_of_map_to_list Hy1 Hy2.
    simpl in *. apply list_elem_of_fmap in Hy1 as (? & [= -> ->] & _).
    apply list_elem_of_fmap in Hy2 as (? & [= _ ->] & _). congruence.
  - intros [t topic] _. simpl. apply NoDup_fmap_2; [|apply NoDup_fst_map_to_list].
    by intros ?? [= ->].
  - apply NoDup_map_to_list.
Qed.

Lemma edges_length ps : sys_inv ps → length (topic_edges ps) = length (client_edges ps).
Proof.
  intros Hinv. apply Permutation_length, NoDup_Permutation.
  - apply topic_edges_NoDup.
  - apply client_edges_NoDup.
  - intros [c t]. rewrite topic_edges_elem, client_edges_elem. symmetry.
    apply (inv_edge _ Hinv).
Qed.

Lemma total_subscribers (l : list (string * Topic)) (a : Z) :
  foldl (λ total topic, wrap64 (total + Z.of_nat (size (Subscribers topic)))) (wrap64 a) l.*2
  = wrap64 (a + Z.of_nat (length
      (nt ← l; (λ c, (c, nt.1)) <$> (map_to_list (Subscribers nt.2)).*1))).
Proof.
  revert a. induction l as [|[t topic] l IH]; intros a; simpl.
  - f_equal. lia.
  - rewrite wrap64_add, IH. f_equal. rewrite length_app, !length_fmap, length_map_to_list.
    rewrite Nat2Z.inj_add. unfold mbind, list_bind. lia.
Qed.

Lemma subscriber_count_size ps t topic :
  sys_inv ps → topics ps !! t = Some topic →
  size (Subscribers topic) = subscriber_count ps t.
Proof.
  intros Hinv Ht. unfold subscriber_count. rewrite <- keys_of_length.
  apply Permutation_length, NoDup_Permutation.
  - apply keys_of_NoDup.
  - apply list.NoDup_filter, keys_of_NoDup.
  - intros c. rewrite list_elem_of_filter, !keys_of_elem, GetClientTopics_elem.
    rewrite (inv_edge _ Hinv). unfold sub_lookup. rewrite Ht. simpl. split.
    + intros Hc. split; [done|].
      assert (is_Some (ct_lookup (clientTopics ps) c t)) as [b Hb].
      { apply (inv_edge _ Hinv). unfold sub_lookup. by rewrite Ht. }
      unfold ct_lookup in Hb. destruct (clientTopics ps !! c); [done|by simpl in Hb].
    + by intros [? _].
Qed.

Lemma GetTopics_spec ps :
  GetTopics ps =
  (λ topic, mkTopicInfo (Name topic) (Z.of_nat (size (Subscribers topic))))
    <$> (map_to_list (topics ps)).*2.
Proof. unfold GetTopics. by rewrite foldl_snoc. Qed.

Lemma GetTopics_names ps :
  aux_inv ps → ti_Name <$> GetTopics ps = (map_to_list (topics ps)).*1.
Proof.
  intros Haux. rewrite GetTopics_spec, <- !list_fmap_compose.
  apply list_fmap_ext. intros i [t topic] Hi. simpl.
  apply (aux_name _ Haux). by apply elem_of_map_to_list, list_elem_of_lookup_2 with i.
Qed.

Lemma GetStats_lookup ps t :
  GetStats ps !! t =
  (λ topic, mkTopicStats (MessageCount topic) (Z.of_nat (size (Subscribers topic))))
    <$> topics ps !! t.
Proof.
  unfold GetStats.
  apply (foldl_insert_map
           (λ nt : string * Topic,
              mkTopicStats (MessageCount nt.2) (Z.of_nat (size (Subscribers nt.2))))).
Qed.

Lemma Subscriptions_elem ps sub :
  sub ∈ Subscriptions (GetSubscriptionsStatus ps) ↔
  ∃ inner, clientTopics ps !! cs_ClientID sub = Some inner ∧ cs_Topics sub = keys_of inner.
Proof.
  unfold GetSubscriptionsStatus. simpl.
  rewrite (foldl_snoc (λ ct : string * gmap string bool,
                         mkClientSubscription ct.1 (keys_of ct.2))). simpl.
  rewrite list_elem_of_fmap. split.
  - intros ([c inner] & -> & Hin%elem_of_map_to_list). simpl. by exists inner.
  - intros (inner & Hin & Hk). exists (cs_ClientID sub, inner). split.
    + destruct sub as [c ts]. simpl in *. by rewrite Hk.
    + by apply elem_of_map_to_list.
Qed.

Lemma Subscriptions_ids ps :
  cs_ClientID <$> Subscriptions (GetSubscriptionsStatus ps) = (map_to_list (clientTopics ps)).*1.
Proof.
  unfold GetSubscriptionsStatus. simpl.
  rewrite (foldl_snoc (λ ct : string * gmap string bool,
                         mkClientSubscription ct.1 (keys_of ct.2))). simpl.
  rewrite <- list_fmap_compose. by apply list_fmap_ext.
Qed.

Lemma TopicBreakdown_lookup ps t :
  TopicBreakdown (GetSubscriptionsStatus ps) !! t =
  (λ topic, keys_of (Subscribers topic)) <$> topics ps !! t.
Proof.
  unfold GetSubscriptionsStatus. simpl.
  apply (foldl_insert_map (λ nt : string * Topic, keys_of (Subscribers nt.2))).
Qed.

(** ** Session: supporting lemmas for the further properties *)

Lemma sendMessage_extends (P : EventResponse → Prop) message c h :
  P (to_event message) → heap_extends P h (sendMessage message c h).2.
Proof.
  intros HP. pose proof (offer_extends P (send c) (to_event message) h HP) as Hext.
  unfold sendMessage. by destruct (offer (send c) (to_event message) h).
Qed.

Lemma run_chans w log h : run w log → run (mkWorld (sys w) h) log.
Proof.
  intros Hrun.
  exact (run_step (OpChannels (λ _, h)) w log ([], None) (mkWorld (sys w) h) Hrun eq_refl).
Qed.

Lemma run_sys w w' log : run w log → sys w' = sys w → run w' log.
Proof. intros Hrun Hsys. destruct w' as [ps h]. simpl in Hsys. subst. by apply run_chans. Qed.

Lemma sendMessage_other message c h (ch : nat) :
  ch ≠ send c → (sendMessage message c h).2 !! ch = h !! ch.
Proof.
  intros Hne. unfold sendMessage.
  destruct (offer (send c) (to_event message) h) as [h'|] eqn:Ho; [|done]. simpl.
  apply offer_Some in Ho as (q & _ & _ & ->). by rewrite lookup_insert_ne.
Qed.

Lemma send_all_extends (P : EventResponse → Prop) c l h :
  Forall P l →
  heap_extends P h (foldl (λ h lastMsg, (sendMessage (OutEvent lastMsg) c h).2) h l).
Proof.
  revert h. induction l as [|e l IH]; intros h Hl; simpl; [apply heap_extends_refl|].
  apply list.Forall_cons in Hl as [He Hl].
  eapply heap_extends_trans; [|by apply IH]. by apply sendMessage_extends.
Qed.

Lemma send_all_other c l h (ch : nat) :
  ch ≠ send c →
  foldl (λ h lastMsg, (sendMessage (OutEvent lastMsg) c h).2) h l !! ch = h !! ch.
Proof.
  intros Hne. revert h. induction l as [|e l IH]; intros h; simpl; [done|].
  rewrite IH. by apply sendMessage_other.
Qed.

Lemma bind_client_inr id c c1 :
  bind_client id c = inr c1 →
  send c1 = send c ∧ clientID c1 = id ∧ (clientID c ≠ "" → c1 = c).
Proof.
  unfold bind_client. destruct (decide (clientID c = "")).
  - by intros [= <-].
  - destruct (decide (clientID c ≠ id)) as [|Heq]; [done|]. intros [= <-].
    apply dec_stable in Heq. done.
Qed.

Lemma sendMessage_full message c h q :
  h !! send c = Some q → ¬ (length (chQueue q) < chCap q)%nat →
  sendMessage message c h =
  (Some (ErrorOf (mkErrorData "CLIENT_OVERLOADED" "Client send buffer is full")), h).
Proof.
  intros Hq Hfull. unfold sendMessage, offer. rewrite Hq.
  by rewrite (decide_False (P := (length (chQueue q) < chCap q)%nat)).
Qed.

Lemma chan_eta q : mkChan (chCap q) (chQueue q) = q.
Proof. by destruct q. Qed.

Lemma send_all_take c l h q (ch : nat) :
  ch = send c → h !! ch = Some q → (length (chQueue q) ≤ chCap q)%nat →
  foldl (λ h lastMsg, (sendMessage (OutEvent lastMsg) c h).2) h l !! ch
  = Some (mkChan (chCap q) (chQueue q ++ take (chCap q - length (chQueue q)) l)).
Proof.
  intros ->. revert h q. induction l as [|e l IH]; intros h q Hq Hb; simpl.
  - by rewrite take_nil, app_nil_r, chan_eta.
  - destruct (decide (length (chQueue q) < chCap q)%nat) as [Hroom|Hfull].
    + rewrite (sendMessage_room _ _ _ q) by done. simpl.
      rewrite (IH _ (mkChan (chCap q) (chQueue q ++ [e]))).
      * simpl. rewrite length_app. simpl.
        replace (chCap q - length (chQueue q))%nat
          with (S (chCap q - (length (chQueue q) + 1)))%nat by lia.
        simpl. by rewrite <- app_assoc.
      * by rewrite lookup_insert_eq.
      * simpl. rewrite length_app. simpl. lia.
    + rewrite (sendMessage_full _ _ _ q) by done. simpl. rewrite (IH _ q) by done.
      by replace (chCap q - length (chQueue q))%nat with 0%nat by lia.
Qed.

Lemma step_topics op w r w' :
  session_op op → step op w = Some (r, w') →
  ∀ t, is_Some (topics (sys w') !! t) ↔ is_Some (topics (sys w) !! t).
Proof.
  intros Hop Hstep t0.
  destruct op as [name now|name uuid clock|c t lastN ch now|c t|t m sender now clock|c|f];
    try done; simpl in Hstep.
  - unfold Subscribe in Hstep. destruct (topics (sys w) !! t) as [topic|] eqn:Ht.
    + destruct (register_client c ch now (clients (sys w))) as [client|]; [|done].
      simpl in Hstep.
      destruct (if decide (lastN > 0) then GetLastN lastN (MessageHistory topic) else Some [])
        as [lastMessages|]; [|done].
      injection Hstep as _ <-. simpl. rewrite lookup_insert_is_Some.
      split; [intros [<-|[_ ?]]; [by rewrite Ht|done]|].
      intros ?. destruct (decide (t = t0)); [by left|by right].
    + by injection Hstep as _ <-.
  - injection Hstep as _ <-. simpl. unfold Unsubscribe.
    destruct (clientTopics (sys w) !! c) as [inner|]; [|done].
    destruct (negb (default false (inner !! t))); [done|].
    destruct (topics (sys w) !! t) as [topic|] eqn:Ht; [|done]. simpl.
    rewrite lookup_insert_is_Some.
    split; [intros [<-|[_ ?]]; [by rewrite Ht|done]|].
    intros ?. destruct (decide (t = t0)); [by left|by right].
  - destruct (topics (sys w) !! t) as [topic|] eqn:Ht.
    + destruct (Publish t m sender now clock w) as [r0|] eqn:HP; [|done].
      destruct (Publish_Some _ _ _ _ _ _ _ _ Ht HP) as (history & cls & h & _ & _ & ->).
      injection Hstep as _ <-. simpl. rewrite lookup_insert_is_Some.
      split; [intros [<-|[_ ?]]; [by rewrite Ht|done]|].
      intros ?. destruct (decide (t = t0)); [by left|by right].
    + rewrite Publish_missing in Hstep by done. by injection Hstep as _ <-.
Qed.

Section session_runs.

Variable uuid_Parse : string → bool.

Local Lemma handled_refl c w log : run w log → handled c w c w.
Proof. intros Hrun. split_and!; [by exists log|done|done|apply heap_extends_refl|done]. Qed.

Local Lemma handled_send c w c1 w1 message log :
  run w1 log → send c1 = send c → (clientID c ≠ "" → clientID c1 = clientID c) →
  heap_extends (λ _, True) (chans w) (chans w1) →
  (∀ t, is_Some (topics (sys w1) !! t) ↔ is_Some (topics (sys w) !! t)) →
  handled c w c1 (mkWorld (sys w1) (sendMessage message c1 (chans w1)).2).
Proof.
  intros Hrun Hs Hid Hext Hdom. split_and!; try done.
  - exists log. by apply (run_sys w1).
  - eapply heap_extends_trans; [exact Hext|]. by apply sendMessage_extends.
Qed.

Local Lemma handled_step op w r w1 log :
  run w log → session_op op → step op w = Some (r, w1) →
  run w1 (log_step op r log) ∧ heap_extends (λ _, True) (chans w) (chans w1)
  ∧ ∀ t, is_Some (topics (sys w1) !! t) ↔ is_Some (topics (sys w) !! t).
Proof.
  intros Hrun Hop Hstep. split_and!; [by apply (run_step op w)| |].
  - eapply heap_extends_mono; [|apply (step_heap_extends op w r w1); [|done]]; [done|].
    intros f ->. done.
  - by apply (step_topics op w r w1).
Qed.

Lemma handleSubscribe_run req now c w log :
  run w log →
  ∃ e c' w', handleSubscribe req now c w = Some (e, c', w') ∧ handled c w c' w'.
Proof.
  intros Hrun. pose proof Hrun as [Hinv _]%run_inv. unfold handleSubscribe.
  destruct (decide (sub_RequestID req = "")); [by eauto 10 using handled_refl|].
  destruct (decide (sub_ClientID req = "")); [by eauto 10 using handled_refl|].
  destruct (bind_client (sub_ClientID req) c) as [e|c1] eqn:Hbind;
    [by eauto 10 using handled_refl|].
  apply bind_client_inr in Hbind as (Hs & _ & Hid).
  assert (clientID c ≠ "" → clientID c1 = clientID c) as Hid' by (by intros ->%Hid).
  destruct (Subscribe_total (clientID c1) (sub_Topic req) (sub_LastN req) (send c1) now
              (sys w) Hinv) as [[[hist e] ps'] HS].
  rewrite HS. simpl.
  destruct (handled_step
              (OpSubscribe (clientID c1) (sub_Topic req) (sub_LastN req) (send c1) now)
              w (hist, e) (mkWorld ps' (chans w)) log) as (Hrun' & Hext & Hdom); try done.
  { simpl. by rewrite HS. }
  destruct e as [err|].
  - eexists _, _, _. split; [done|].
    by apply (handled_send c w c1 (mkWorld ps' (chans w)) _ _ Hrun').
  - set (ack := OutAck (mkAckResponse "ack" (sub_RequestID req) (sub_Topic req) "ok" now)).
    pose proof (handled_send c w c1 (mkWorld ps' (chans w)) ack _ Hrun' Hs Hid' Hext Hdom)
      as Hh.
    simpl in Hh. destruct (sendMessage ack c1 (chans w)) as [[err|] h]; simpl in *.
    + eexists _, _, _. split; [done|]. exact Hh.
    + eexists _, _, _. split; [done|].
      destruct Hh as ([log' Hl] & _ & _ & Hext' & _). split_and!; try done.
      * exists log'. by apply (run_sys _ _ _ Hl).
      * simpl. eapply heap_extends_trans; [exact Hext'|].
        apply send_all_extends, list.Forall_forall. done.
Qed.

Lemma handleUnsubscribe_run req now c w log :
  run w log →
  ∃ e c' w', handleUnsubscribe req now c w = Some (e, c', w') ∧ handled c w c' w'.
Proof.
  intros Hrun. unfold handleUnsubscribe.
  destruct (decide (unsub_RequestID req = "")); [by eauto 10 using handled_refl|].
  destruct (decide (unsub_ClientID req = "")); [by eauto 10 using handled_refl|].
  destruct (bind_client (unsub_ClientID req) c) as [e|c1] eqn:Hbind;
    [by eauto 10 using handled_refl|].
  apply bind_client_inr in Hbind as (Hs & _ & Hid).
  assert (clientID c ≠ "" → clientID c1 = clientID c) as Hid' by (by intros ->%Hid).
  destruct (Unsubscribe (clientID c1) (unsub_Topic req) (sys w)) as [e ps'] eqn:HU. simpl.
  destruct (handled_step (OpUnsubscribe (clientID c1) (unsub_Topic req))
              w ([], e) (mkWorld ps' (chans w)) log) as (Hrun' & Hext & Hdom); try done.
  { simpl. by rewrite HU. }
  destruct e as [err|]; eexists _, _, _; (split; [done|]);
    by apply (handled_send c w c1 (mkWorld ps' (chans w)) _ _ Hrun').
Qed.

Lemma handlePing_run req now c w log :
  run w log →
  ∃ e c' w', handlePing req now c w = Some (e, c', w') ∧ handled c w c' w'.
Proof.
  intros Hrun. unfold handlePing.
  destruct (decide (ping_RequestID req = "")); [by eauto 10 using handled_refl|].
  eexists _, _, _. split; [done|].
  apply (handled_send c w c w _ log); try done. apply heap_extends_refl.
Qed.

Lemma handlePublish_run req now clock c w log :
  run w log →
  ∃ e c' w', handlePublish uuid_Parse req now clock c w = Some (e, c', w')
             ∧ handled c w c' w'.
Proof.
  intros Hrun. pose proof Hrun as [Hinv _]%run_inv. unfold handlePublish.
  destruct (decide (pub_RequestID req = "")); [by eauto 10 using handled_refl|].
  set (bound := if decide (clientID c = "") then _ else _).
  assert (∀ c1, bound = inr c1 →
                send c1 = send c ∧ (clientID c ≠ "" → clientID c1 = clientID c)) as Hb.
  { intros c1. unfold bound. destruct (decide (clientID c = "")).
    - destruct (decide (pub_ClientID req = "")); [done|]. by intros [= <-].
    - destruct (decide (pub_ClientID req ≠ "" ∧ clientID c ≠ pub_ClientID req)); [done|].
      by intros [= <-]. }
  destruct bound as [e|c1]; [by eauto 10 using handled_refl|].
  destruct (Hb c1 eq_refl) as [Hs Hid].
  destruct (decide (ID (pub_Message req) = "")).
  { eexists _, _, _. split; [done|].
    apply (handled_send c w c1 w _ log); try done. apply heap_extends_refl. }
  destruct (uuid_Parse (ID (pub_Message req))); simpl.
  2:{ eexists _, _, _. split; [done|].
      apply (handled_send c w c1 w _ log); try done. apply heap_extends_refl. }
  destruct (Publish_total (pub_Topic req) (pub_Message req) (clientID c1) now clock w Hinv)
    as [[e w1] HP].
  rewrite HP. simpl.
  destruct (handled_step
              (OpPublish (pub_Topic req) (pub_Message req) (clientID c1) now clock)
              w ([], e) w1 log) as (Hrun' & Hext & Hdom); try done.
  { simpl. by rewrite HP. }
  destruct e as [err|]; eexists _, _, _; (split; [done|]);
    by apply (handled_send c w c1 w1 _ _ Hrun').
Qed.

Lemma processPump_run data now clock c w log :
  run w log →
  ∃ c' w', processPump uuid_Parse data now clock c w = Some (c', w') ∧ handled c w c' w'.
Proof.
  intros Hrun.
  assert (∃ e c' w', handleMessage uuid_Parse data now clock c w = Some (e, c', w')
                     ∧ handled c w c' w')
    as (e & c' & w' & HM & [log' Hrun'] & Hs & Hid & Hext & Hdom).
  { unfold handleMessage. destruct (ParseMessage data) as [err|[req|req|req|req]].
    - by eauto 10 using handled_refl.
    - by apply handleSubscribe_run with log.
    - by apply handleUnsubscribe_run with log.
    - by apply handlePublish_run with log.
    - by apply handlePing_run with log. }
  unfold processPump. rewrite HM. simpl.
  destruct e as [err|].
  - eexists _, _. split; [done|]. by apply (handled_send c w c' w' _ log').
  - eexists _, _. split; [done|]. split_and!; try done. by exists log'.
Qed.

Lemma replies_only_refl P c h : replies_only P c h h.
Proof. split; [apply heap_extends_refl|done]. Qed.

Lemma replies_only_send (P : EventResponse → Prop) c c1 h h1 message :
  send c1 = send c → P (to_event message) → replies_only P c h h1 →
  replies_only P c h (sendMessage message c1 h1).2.
Proof.
  intros Hs HP [Hext Hother]. split.
  - eapply heap_extends_trans; [exact Hext|]. by apply sendMessage_extends.
  - intros ch Hne. rewrite sendMessage_other by (by rewrite Hs). by apply Hother.
Qed.

Lemma rejected_handleMessage data now clock c w :
  (∀ req, ParseMessage data = inr req → invalid uuid_Parse c req ∨ mismatch c req) →
  ∃ e c1 w1, handleMessage uuid_Parse data now clock c w = Some (e, c1, w1)
    ∧ send c1 = send c ∧ sys w1 = sys w
    ∧ replies_only (λ e, evType e = "error") c (chans w) (chans w1).
Proof.
  intros Hrej. unfold handleMessage.
  destruct (ParseMessage data) as [err|req]; [by eauto 10 using replies_only_refl|].
  specialize (Hrej req eq_refl).
  destruct req as [req|req|req|req]; simpl in Hrej.
  - unfold handleSubscribe.
    destruct (decide (sub_RequestID req = "")); [by eauto 10 using replies_only_refl|].
    destruct (decide (sub_ClientID req = "")); [by eauto 10 using replies_only_refl|].
    destruct Hrej as [[?|?]|[Hb Hne]]; [done|done|].
    unfold bind_client. rewrite (decide_False (P := clientID c = "")) by done.
    rewrite (decide_True (P := clientID c ≠ sub_ClientID req)) by done.
    by eauto 10 using replies_only_refl.
  - unfold handleUnsubscribe.
    destruct (decide (unsub_RequestID req = "")); [by eauto 10 using replies_only_refl|].
    destruct (decide (unsub_ClientID req = "")); [by eauto 10 using replies_only_refl|].
    destruct Hrej as [[?|?]|[Hb Hne]]; [done|done|].
    unfold bind_client. rewrite (decide_False (P := clientID c = "")) by done.
    rewrite (decide_True (P := clientID c ≠ unsub_ClientID req)) by done.
    by eauto 10 using replies_only_refl.
  - unfold handlePublish.
    destruct (decide (pub_RequestID req = "")); [by eauto 10 using replies_only_refl|].
    set (bound := if decide (clientID c = "") then _ else _).
    assert (∀ c1, bound = inr c1 → send c1 = send c
                  ∧ (ID (pub_Message req) = "" ∨ uuid_Parse (ID (pub_Message req)) = false))
      as Hb.
    { intros c1. unfold bound. destruct (decide (clientID c = "")) as [Hc|Hc].
      - destruct (decide (pub_ClientID req = "")); [done|]. intros [= <-]. split; [done|].
        destruct Hrej as [[?|[[_ ?]|?]]|[? _]]; done.
      - destruct (decide (pub_ClientID req ≠ "" ∧ clientID c ≠ pub_ClientID req)) as [|Hn];
          [done|].
        intros [= <-]. split; [done|].
        destruct Hrej as [[?|[[? _]|?]]|[_ ?]]; done. }
    destruct bound as [e|c1]; [by eauto 10 using replies_only_refl|].
    destruct (Hb c1 eq_refl) as [Hs Hid].
    destruct (decide (ID (pub_Message req) = "")).
    + eexists _, _, _. split; [done|]. split_and!; try done. simpl.
      apply replies_only_send; [done|done|apply replies_only_refl].
    + destruct Hid as [|Hid]; [done|]. rewrite Hid. simpl.
      eexists _, _, _. split; [done|]. split_and!; try done. simpl.
      apply replies_only_send; [done|done|apply replies_only_refl].
  - unfold handlePing. destruct Hrej as [Hrid|[_ []]].
    rewrite decide_True by done. by eauto 10 using replies_only_refl.
Qed.

End session_runs.

(** ** The HTTP handlers and the server *)

Lemma world_eta w : mkWorld (sys w) (chans w) = w.
Proof. by destruct w. Qed.

(** * Further theorems *)

(** ** Ring buffer *)

(** X1: [Pop] is first-in first-out: it returns the oldest element of the
    contents (nil exactly when the buffer is empty) and leaves the rest,
    in order; a buffer it took an element from is no longer full. *)
Theorem X1_Pop_oldest_first (rb : RingBuffer) :
  rb_reachable rb →
  ∃ l o rb',
    contents rb = Some l ∧ Pop rb = Some (o, rb')
    ∧ o = head l
    ∧ contents rb' = Some (drop 1 l)
    ∧ Size rb' = Z.of_nat (length (drop 1 l))
    ∧ rb_capacity rb' = rb_capacity rb
    ∧ (is_Some o → IsFull rb' = false).
Proof.
  intros Hwf%rb_reachable_wf.
  destruct (Pop_total rb Hwf) as [[o rb'] HP].
  destruct (Pop_wf _ _ _ Hwf HP) as [Hwf' Hcap].
  destruct (Pop_elems _ _ _ Hwf HP) as [Ho Hel].
  exists (elems rb), o, rb'. split_and!; try done.
  - by apply contents_elems.
  - rewrite Ho. by destruct (elems rb).
  - rewrite contents_elems by done. by rewrite Hel.
  - rewrite <- Hel, length_elems. unfold Size. destruct Hwf'. lia.
  - intros [m ->]. unfold Pop in HP. destruct (decide (rb_size rb = 0)); [done|].
    destruct (index _ _); [|done]. simpl in HP.
    destruct (go_rem _ _); [|done]. simpl in HP. by injection HP as _ <-.
Qed.

Lemma X1_witness :
  ∃ l o rb',
    contents demo_ring = Some l ∧ Pop demo_ring = Some (o, rb')
    ∧ o = head l
    ∧ contents rb' = Some (drop 1 l)
    ∧ Size rb' = Z.of_nat (length (drop 1 l))
    ∧ rb_capacity rb' = rb_capacity demo_ring
    ∧ (is_Some o → IsFull rb' = false).
Proof. apply (X1_Pop_oldest_first demo_ring). exact demo_ring_reachable. Defined.

(** X2: with [l] the events a FIFO queue bounded by the buffer's
    capacity holds after the operations that built the buffer, oldest
    first: [PopAll] returns exactly [l] and leaves a buffer of size 0 that
    is not full and has the same capacity, from which [GetLastN] and [Pop]
    get nothing. *)
Theorem X2_PopAll_drains (c : Z) (rb : RingBuffer) (l : list EventResponse) :
  holds c rb l →
  ∃ rb',
    PopAll rb = Some (l, rb')
    ∧ Size rb' = 0 ∧ IsFull rb' = false
    ∧ rb_capacity rb' = rb_capacity rb
    ∧ (∀ n, GetLastN n rb' = Some [])
    ∧ Pop rb' = Some (None, rb').
Proof.
  intros (Hwf & _ & <-)%holds_elems.
  destruct (PopAll_total rb Hwf) as [[l rb'] HP].
  destruct (PopAll_wf _ _ _ Hwf HP) as [Hwf' Hcap].
  destruct (PopAll_elems _ _ _ Hwf HP) as [-> Hel].
  assert (rb_size rb' = 0) as Hsz.
  { pose proof (length_elems rb') as Hlen. rewrite Hel in Hlen. simpl in Hlen.
    destruct Hwf'. lia. }
  exists rb'. unfold Size, IsFull. split_and!; try done.
  - destruct (rb_full rb') eqn:Hfull; [|done].
    apply (wf_full _ Hwf') in Hfull. lia.
  - intros n. unfold GetLastN. rewrite decide_True by (by left). done.
  - unfold Pop. by rewrite decide_True.
Qed.

Lemma X2_witness :
  ∃ rb',
    PopAll demo_ring = Some ([demo_event 2; demo_event 3; demo_event 4], rb')
    ∧ Size rb' = 0 ∧ IsFull rb' = false
    ∧ rb_capacity rb' = rb_capacity demo_ring
    ∧ (∀ n, GetLastN n rb' = Some [])
    ∧ Pop rb' = Some (None, rb').
Proof.
  apply (X2_PopAll_drains 3 demo_ring [demo_event 2; demo_event 3; demo_event 4]).
  exact demo_ring_holds.
Defined.

(** X3: [Clear] forgets the contents and keeps the capacity: the cleared
    buffer is empty and not full, and a first push into it (capacity at
    least 1) leaves exactly the pushed event. *)
Theorem X3_Clear_resets (rb : RingBuffer) (e : EventResponse) :
  rb_reachable rb →
  contents (Clear rb) = Some [] ∧ Size (Clear rb) = 0 ∧ IsFull (Clear rb) = false
  ∧ rb_capacity (Clear rb) = rb_capacity rb
  ∧ (1 ≤ rb_capacity rb → ∃ rb', Push e (Clear rb) = Some rb' ∧ contents rb' = Some [e]).
Proof.
  intros Hwf%rb_reachable_wf. pose proof (Clear_wf rb Hwf) as Hwf'.
  assert (elems (Clear rb) = []) as Hel by done.
  split_and!; try done.
  intros Hcap. destruct (Push_total e (Clear rb) Hwf') as [rb' HP]; [simpl; lia|].
  exists rb'. split; [done|].
  destruct (Push_wf _ _ _ Hwf' HP) as [Hwf'' _].
  destruct (Push_elems _ _ _ Hwf' HP) as (Hel' & _ & _).
  rewrite contents_elems, Hel', Hel by done. simpl.
  by destruct (decide (0 = rb_capacity rb)); [lia|].
Qed.

Lemma X3_witness :
  contents (Clear demo_ring) = Some [] ∧ Size (Clear demo_ring) = 0
  ∧ IsFull (Clear demo_ring) = false
  ∧ rb_capacity (Clear demo_ring) = rb_capacity demo_ring
  ∧ (1 ≤ rb_capacity demo_ring →
     ∃ rb', Push (demo_event 7) (Clear demo_ring) = Some rb'
            ∧ contents rb' = Some [demo_event 7]).
Proof. apply (X3_Clear_resets demo_ring (demo_event 7)). exact demo_ring_reachable. Defined.

(** X4: the size of a ring buffer stays between 0 and its capacity, and
    [IsFull] answers true exactly when the size has reached a capacity of
    at least 1. *)
Theorem X4_IsFull_iff_at_capacity (rb : RingBuffer) :
  rb_reachable rb →
  0 ≤ Size rb ≤ rb_capacity rb
  ∧ (IsFull rb = true ↔ 1 ≤ rb_capacity rb ∧ Size rb = rb_capacity rb).
Proof.
  intros [Hc Hl Hs Ht Hh Hw Hf]%rb_reachable_wf. unfold Size, IsFull.
  split; [done|]. rewrite Hf. split; intros [? ?]; split; lia.
Qed.

Lemma X4_witness :
  0 ≤ Size demo_ring ≤ rb_capacity demo_ring
  ∧ (IsFull demo_ring = true ↔ 1 ≤ rb_capacity demo_ring ∧ Size demo_ring = rb_capacity demo_ring).
Proof. apply (X4_IsFull_iff_at_capacity demo_ring). exact demo_ring_reachable. Defined.

(** X5: pushing a sequence of events into a fresh buffer of capacity [c]
    (at least 1) never fails and keeps the newest [c] of them, in push
    order; [GetLastN n] then returns the newest [min n c] of them, and
    [PopAll] all that were kept. *)
Theorem X5_pushes_keep_newest (c : Z) (es : list EventResponse) :
  1 ≤ c →
  ∃ rb0 rb,
    NewRingBuffer c = Some rb0 ∧ range_loop Push es rb0 = Some rb
    ∧ contents rb = Some (last_n (Z.to_nat c) es)
    ∧ Size rb = Z.min (Z.of_nat (length es)) c
    ∧ (∀ n, GetLastN n rb = Some (last_n (Z.to_nat (Z.min n c)) es))
    ∧ ∃ rb', PopAll rb = Some (last_n (Z.to_nat c) es, rb').
Proof.
  intros Hc. destruct (NewRingBuffer c) as [rb0|] eqn:Hnew.
  2:{ unfold NewRingBuffer in Hnew. by destruct (decide (c < 0)); [lia|]. }
  destruct (NewRingBuffer_wf _ _ Hnew) as (Hwf0 & Hcap0 & Hsz0).
  assert (elems rb0 = []) as Hel0.
  { pose proof (length_elems rb0) as Hlen. rewrite Hsz0 in Hlen.
    by destruct (elems rb0). }
  destruct (pushes_elems es rb0 [] Hwf0) as (rb & Hloop & Hwf & Hcap & Hel);
    [lia|by rewrite Hel0|].
  simpl in Hel. rewrite Hcap0 in *.
  assert (rb_size rb = Z.min (Z.of_nat (length es)) c) as Hsz.
  { pose proof (length_elems rb) as Hlen. rewrite Hel, last_n_length in Hlen.
    destruct Hwf. lia. }
  exists rb0, rb. unfold Size. split_and!; try done.
  - rewrite contents_elems by done. by rewrite Hel.
  - intros n. rewrite GetLastN_elems, Hel, Hsz by done. f_equal.
    destruct (decide (Z.of_nat (length es) ≤ c)) as [Hle|Hgt].
    + rewrite (last_n_all (Z.to_nat c)) by lia.
      destruct (decide (n ≤ Z.of_nat (length es))).
      * f_equal. lia.
      * rewrite !last_n_all by lia. done.
    + rewrite last_n_last_n by lia. f_equal. lia.
  - destruct (PopAll_total rb Hwf) as [[l rb'] HP].
    destruct (PopAll_elems _ _ _ Hwf HP) as [-> _]. exists rb'. by rewrite <- Hel.
Qed.

Lemma X5_witness :
  ∃ rb0 rb,
    NewRingBuffer 2 = Some rb0
    ∧ range_loop Push [demo_event 1; demo_event 2; demo_event 3] rb0 = Some rb
    ∧ contents rb = Some (last_n (Z.to_nat 2) [demo_event 1; demo_event 2; demo_event 3])
    ∧ Size rb = Z.min (Z.of_nat (length [demo_event 1; demo_event 2; demo_event 3])) 2
    ∧ (∀ n, GetLastN n rb =
            Some (last_n (Z.to_nat (Z.min n 2)) [demo_event 1; demo_event 2; demo_event 3]))
    ∧ ∃ rb', PopAll rb =
             Some (last_n (Z.to_nat 2) [demo_event 1; demo_event 2; demo_event 3], rb').
Proof.
  apply (X5_pushes_keep_newest 2 [demo_event 1; demo_event 2; demo_event 3]). lia.
Defined.

(** ** The registry *)

(** X6: [CreateTopic] refuses a name that is taken, leaving the registry
    as it was; for a free name it installs a topic named after its key,
    with no subscriber, a zero counter and an empty history ring of
    capacity 1000, and touches no other topic, client or edge. *)
Theorem X6_CreateTopic_fresh_or_refused (ps : PubSubSystem) (name : string) (now : Time) :
  (is_Some (topics ps !! name) →
     CreateTopic name now ps =
     Some (Some (ErrorString ("topic " +:+ name +:+ " already exists")), ps))
  ∧ (topics ps !! name = None →
       ∃ ps' topic,
         CreateTopic name now ps = Some (None, ps')
         ∧ topics ps' !! name = Some topic
         ∧ Name topic = name ∧ Subscribers topic = ∅ ∧ MessageCount topic = 0
         ∧ CreatedAt topic = now
         ∧ contents (MessageHistory topic) = Some []
         ∧ rb_capacity (MessageHistory topic) = TopicHistoryBufferSize
         ∧ (∀ t, t ≠ name → topics ps' !! t = topics ps !! t)
         ∧ clients ps' = clients ps ∧ clientTopics ps' = clientTopics ps).
Proof.
  split.
  - intros [topic Ht]. unfold CreateTopic. by rewrite Ht.
  - intros Ht. unfold CreateTopic. rewrite Ht. simpl.
    eexists _, _. split; [done|]. simpl. rewrite lookup_insert_eq.
    split; [done|]. simpl. split_and!; try done.
    intros t Hne. by rewrite lookup_insert_ne.
Qed.

Lemma X6_witness :
  (is_Some (topics (sys demo_world) !! "T") →
     CreateTopic "T" 9 (sys demo_world) =
     Some (Some (ErrorString ("topic " +:+ "T" +:+ " already exists")), sys demo_world))
  ∧ (topics (sys demo_world) !! "T" = None →
       ∃ ps' topic,
         CreateTopic "T" 9 (sys demo_world) = Some (None, ps')
         ∧ topics ps' !! "T" = Some topic
         ∧ Name topic = "T" ∧ Subscribers topic = ∅ ∧ MessageCount topic = 0
         ∧ CreatedAt topic = 9
         ∧ contents (MessageHistory topic) = Some []
         ∧ rb_capacity (MessageHistory topic) = TopicHistoryBufferSize
         ∧ (∀ t, t ≠ "T" → topics ps' !! t = topics (sys demo_world) !! t)
         ∧ clients ps' = clients (sys demo_world)
         ∧ clientTopics ps' = clientTopics (sys demo_world)).
Proof. apply (X6_CreateTopic_fresh_or_refused (sys demo_world) "T" 9). Defined.

(** X7: [DeleteTopic] of a name the registry does not hold returns the
    not-found error and changes nothing.  Of an existing topic it removes
    that topic only: the other topics, every client record and the edges
    to other topics stay, the channels only receive "topic_deleted"
    notices at their end, and afterwards [Publish] and [Subscribe] under
    that name fail with not-found and change nothing. *)
Theorem X7_DeleteTopic_removes_only_that_topic (w : World) (log : Log) (name : string)
    (uuid : string → string) (clock : string → Time) :
  run w log →
  (topics (sys w) !! name = None →
     DeleteTopic name uuid clock w =
     Some (Some (ErrorString ("topic " +:+ name +:+ " not found")), w))
  ∧ (is_Some (topics (sys w) !! name) →
       ∃ w', DeleteTopic name uuid clock w = Some (None, w')
         ∧ (∀ t, t ≠ name → topics (sys w') !! t = topics (sys w) !! t)
         ∧ clients (sys w') = clients (sys w)
         ∧ (∀ c t, t ≠ name →
              (in_client_topics (sys w') c t ↔ in_client_topics (sys w) c t))
         ∧ heap_extends (is_notice name) (chans w) (chans w')
         ∧ (∀ m sender now clock',
              Publish name m sender now clock' w' =
              Some (Some (ErrorString ("topic " +:+ name +:+ " not found")), w'))
         ∧ (∀ c lastN ch now,
              Subscribe c name lastN ch now (sys w') =
              Some ([], Some (ErrorString ("topic " +:+ name +:+ " not found")), sys w'))).
Proof.
  intros [Hinv _]%run_inv. split; [apply DeleteTopic_missing|].
  intros [topic Ht].
  destruct (DeleteTopic_found name uuid clock w topic Hinv Ht) as (ct & h & Hct & HD).
  destruct (DeleteTopic_Some _ _ _ _ _ _ Ht HD) as (? & ? & Hloop & [= <- <-]).
  destruct (evict_loop_frame _ _ _ _ _ _ _ _ _ Hloop) as [Hext _].
  eexists. split; [exact HD|]. simpl. split_and!; try done.
  - intros t Hne. by rewrite lookup_delete_ne.
  - intros c t Hne. rewrite !in_client_topics_lookup. simpl. rewrite Hct.
    by rewrite decide_False.
  - intros m sender now clock'. apply Publish_missing. simpl. apply lookup_delete_eq.
  - intros c lastN ch now. apply Subscribe_missing. simpl. apply lookup_delete_eq.
Qed.

Lemma X7_witness :
  (topics (sys demo_world) !! "T" = None →
     DeleteTopic "T" (λ _, "u") (λ _, 9) demo_world =
     Some (Some (ErrorString ("topic " +:+ "T" +:+ " not found")), demo_world))
  ∧ (is_Some (topics (sys demo_world) !! "T") →
       ∃ w', DeleteTopic "T" (λ _, "u") (λ _, 9) demo_world = Some (None, w')
         ∧ (∀ t, t ≠ "T" → topics (sys w') !! t = topics (sys demo_world) !! t)
         ∧ clients (sys w') = clients (sys demo_world)
         ∧ (∀ c t, t ≠ "T" →
              (in_client_topics (sys w') c t ↔ in_client_topics (sys demo_world) c t))
         ∧ heap_extends (is_notice "T") (chans demo_world) (chans w')
         ∧ (∀ m sender now clock',
              Publish "T" m sender now clock' w' =
              Some (Some (ErrorString ("topic " +:+ "T" +:+ " not found")), w'))
         ∧ (∀ c lastN ch now,
              Subscribe c "T" lastN ch now (sys w') =
              Some ([], Some (ErrorString ("topic " +:+ "T" +:+ " not found")), sys w'))).
Proof.
  apply (X7_DeleteTopic_removes_only_that_topic demo_world demo_log "T" (λ _, "u") (λ _, 9)).
  exact demo_run.
Defined.

(** X8: a topic deleted and created again under the same name starts
    over: no subscriber, counter 0, empty history, so that a [Subscribe]
    asking for any number of past events gets none. *)
Theorem X8_recreated_topic_has_no_history (w : World) (log : Log) (name : string)
    (uuid : string → string) (clock : string → Time) (now : Time) :
  run w log → is_Some (topics (sys w) !! name) →
  ∃ w1 ps2 topic,
    DeleteTopic name uuid clock w = Some (None, w1)
    ∧ CreateTopic name now (sys w1) = Some (None, ps2)
    ∧ topics ps2 !! name = Some topic
    ∧ Subscribers topic = ∅ ∧ MessageCount topic = 0
    ∧ contents (MessageHistory topic) = Some []
    ∧ ∀ c lastN ch now', ∃ ps3, Subscribe c name lastN ch now' ps2 = Some ([], None, ps3).
Proof.
  intros Hrun [topic Ht]. pose proof Hrun as [Hinv _]%run_inv.
  destruct (DeleteTopic_found name uuid clock w topic Hinv Ht) as (ct & h & Hct & HD).
  pose proof (DeleteTopic_inv _ _ _ _ _ Hinv HD) as Hinv1. simpl in Hinv1.
  set (ps1 := mkPubSubSystem (delete name (topics (sys w))) (clients (sys w)) ct
                (startTime (sys w))) in *.
  assert (topics ps1 !! name = None) as Hnone by apply lookup_delete_eq.
  destruct (CreateTopic name now ps1) as [[e ps2]|] eqn:HC.
  2:{ by destruct (CreateTopic_total name now ps1) as [? ?]; congruence. }
  pose proof (CreateTopic_inv _ _ _ _ _ Hinv1 HC) as Hinv2.
  apply CreateTopic_new in HC as [(_ & _ & [? ?])|(-> & _ & history & Hnew & ->)];
    [congruence|].
  unfold NewRingBuffer in Hnew. simpl in Hnew. injection Hnew as <-.
  eexists _, _, _. split; [exact HD|]. simpl.
  split; [unfold CreateTopic; by rewrite Hnone|].
  split; [apply lookup_insert_eq|]. simpl. split_and!; try done.
  intros c lastN ch now'.
  edestruct (Subscribe_found c name lastN ch now') as (client & _ & ->);
    [exact Hinv2|apply lookup_insert_eq|].
  simpl. eexists. f_equal. f_equal. f_equal. by case_decide.
Qed.

Lemma X8_witness :
  ∃ w1 ps2 topic,
    DeleteTopic "T" (λ _, "u") (λ _, 9) demo_world = Some (None, w1)
    ∧ CreateTopic "T" 10 (sys w1) = Some (None, ps2)
    ∧ topics ps2 !! "T" = Some topic
    ∧ Subscribers topic = ∅ ∧ MessageCount topic = 0
    ∧ contents (MessageHistory topic) = Some []
    ∧ ∀ c lastN ch now', ∃ ps3, Subscribe c "T" lastN ch now' ps2 = Some ([], None, ps3).
Proof.
  apply (X8_recreated_topic_has_no_history demo_world demo_log "T" (λ _, "u") (λ _, 9) 10).
  - exact demo_run.
  - exists demo_topic. exact demo_topic_lookup.
Defined.

(** X9: [Subscribe] to a topic the registry does not hold returns the
    not-found error and registers nothing.  To an existing topic it
    returns the newest [min lastN 1000] events published to the topic since
    it was created, in publish order (none when [lastN <= 0]); afterwards
    the client is a subscriber of the topic, holds it in its topic set, and
    is registered as connected on the channel given, keeping the overflow
    ring it had; the other clients are untouched. *)
Theorem X9_Subscribe_hands_back_recent_history (w : World) (log : Log) (c t : string)
    (lastN : Z) (ch : ChanRef) (now : Time) :
  run w log →
  (topics (sys w) !! t = None →
     Subscribe c t lastN ch now (sys w) =
     Some ([], Some (ErrorString ("topic " +:+ t +:+ " not found")), sys w))
  ∧ (is_Some (topics (sys w) !! t) →
       ∃ ps' client,
         Subscribe c t lastN ch now (sys w) =
         Some (if decide (lastN > 0)
               then last_n (Z.to_nat (Z.min lastN TopicHistoryBufferSize)) (live log t)
               else [],
               None, ps')
         ∧ subscribed ps' c t ∧ in_client_topics ps' c t
         ∧ clients ps' !! c = Some client
         ∧ WriteChan client = ch ∧ Connected client = true ∧ LastActive client = now
         ∧ (∀ old, clients (sys w) !! c = Some old → Buffer client = Buffer old)
         ∧ (∀ c', c' ≠ c → clients ps' !! c' = clients (sys w) !! c')).
Proof.
  intros [Hinv [_ Hlog]]%run_inv. split; [apply Subscribe_missing|].
  intros [topic Ht].
  destruct (Subscribe_found c t lastN ch now (sys w) topic Hinv Ht) as (client & Hreg & HS).
  destruct (register_client_spec c ch now (clients (sys w)) (inv_buf _ Hinv))
    as (client' & Hreg' & Hch & Hconn & Hla & _ & _ & Hold).
  rewrite Hreg in Hreg'. injection Hreg' as <-.
  destruct (inv_hist _ Hinv _ _ Ht) as [Hrb _]. destruct (Hlog _ _ Ht) as [Hel _].
  eexists _, client. split.
  - rewrite HS. do 3 f_equal. case_decide; [|done].
    assert (rb_size (MessageHistory topic)
            = Z.of_nat (length (elems (MessageHistory topic)))) as ->.
    { rewrite length_elems. destruct Hrb. lia. }
    rewrite Hel. apply last_n_min.
  - simpl. split_and!; try done.
    + exists (mkTopic (Name topic) (<[c := mkSubscriber c t c]> (Subscribers topic))
                (MessageCount topic) (CreatedAt topic) (MessageHistory topic)).
      simpl. rewrite lookup_insert_eq. split; [done|]. simpl. by rewrite lookup_insert_eq.
    + eexists. simpl. rewrite lookup_insert_eq. split; [done|]. by rewrite lookup_insert_eq.
    + apply lookup_insert_eq.
    + intros old Hc. by destruct (Hold old Hc).
    + intros c' Hne. by rewrite lookup_insert_ne.
Qed.

Lemma X9_witness :
  (topics (sys demo_world) !! "T" = None →
     Subscribe "c3" "T" 5 7%nat 9 (sys demo_world) =
     Some ([], Some (ErrorString ("topic " +:+ "T" +:+ " not found")), sys demo_world))
  ∧ (is_Some (topics (sys demo_world) !! "T") →
       ∃ ps' client,
         Subscribe "c3" "T" 5 7%nat 9 (sys demo_world) =
         Some (if decide (5 > 0)
               then last_n (Z.to_nat (Z.min 5 TopicHistoryBufferSize)) (live demo_log "T")
               else [],
               None, ps')
         ∧ subscribed ps' "c3" "T" ∧ in_client_topics ps' "c3" "T"
         ∧ clients ps' !! "c3" = Some client
         ∧ WriteChan client = 7%nat ∧ Connected client = true ∧ LastActive client = 9
         ∧ (∀ old, clients (sys demo_world) !! "c3" = Some old → Buffer client = Buffer old)
         ∧ (∀ c', c' ≠ "c3" → clients ps' !! c' = clients (sys demo_world) !! c')).
Proof.
  apply (X9_Subscribe_hands_back_recent_history demo_world demo_log "c3" "T" 5 7%nat 9).
  exact demo_run.
Defined.

(** X10: for a client that is not subscribed to an existing topic,
    [Subscribe] followed by [Unsubscribe] succeeds and puts the topics and
    the client topic sets back exactly as they were; what stays is the
    client record. *)
Theorem X10_Subscribe_Unsubscribe_round_trip (w : World) (log : Log) (c t : string)
    (lastN : Z) (ch : ChanRef) (now : Time) :
  run w log → is_Some (topics (sys w) !! t) → ¬ in_client_topics (sys w) c t →
  ∃ l ps1 ps2,
    Subscribe c t lastN ch now (sys w) = Some (l, None, ps1)
    ∧ Unsubscribe c t ps1 = (None, ps2)
    ∧ topics ps2 = topics (sys w)
    ∧ clientTopics ps2 = clientTopics (sys w)
    ∧ is_Some (clients ps2 !! c).
Proof.
  intros Hrun [topic Ht] Hnot. pose proof Hrun as [Hinv _]%run_inv.
  pose proof (run_aux _ _ Hrun) as Haux.
  destruct (Subscribe_found c t lastN ch now (sys w) topic Hinv Ht) as (client & Hreg & HS).
  assert (Subscribers topic !! c = None) as Hsub.
  { destruct (Subscribers topic !! c) as [s|] eqn:Hs; [|done]. exfalso. apply Hnot.
    apply in_client_topics_lookup, (inv_edge _ Hinv). unfold sub_lookup.
    rewrite Ht. simpl. by rewrite Hs. }
  assert (ct_lookup (clientTopics (sys w)) c t = None) as Hedge.
  { destruct (ct_lookup (clientTopics (sys w)) c t) eqn:He; [|done]. exfalso. apply Hnot.
    apply in_client_topics_lookup. by rewrite He. }
  eexists _, _, _. split; [exact HS|]. unfold Unsubscribe. simpl.
  rewrite !lookup_insert_eq. simpl.
  split; [done|]. simpl. split_and!.
  - rewrite insert_insert_eq. rewrite delete_insert_id by done.
    rewrite topic_eta. by apply insert_id.
  - unfold drop_edge. rewrite delete_insert_id.
    2:{ unfold ct_lookup in Hedge. destruct (clientTopics (sys w) !! c); [done|].
        apply lookup_empty. }
    destruct (clientTopics (sys w) !! c) as [inner|] eqn:Hc; simpl.
    + rewrite decide_False.
      2:{ intros ?%map_size_empty_iff. by apply (aux_nonempty _ Haux c inner). }
      rewrite insert_insert_eq. by apply insert_id.
    + rewrite decide_True by apply map_size_empty.
      by apply delete_insert_id.
  - by rewrite lookup_insert_eq.
Qed.

Lemma X10_witness :
  ∃ l ps1 ps2,
    Subscribe "c3" "T" 5 7%nat 9 (sys demo_world) = Some (l, None, ps1)
    ∧ Unsubscribe "c3" "T" ps1 = (None, ps2)
    ∧ topics ps2 = topics (sys demo_world)
    ∧ clientTopics ps2 = clientTopics (sys demo_world)
    ∧ is_Some (clients ps2 !! "c3").
Proof.
  apply (X10_Subscribe_Unsubscribe_round_trip demo_world demo_log "c3" "T" 5 7%nat 9).
  - exact demo_run.
  - exists demo_topic. exact demo_topic_lookup.
  - vm_compute. intros (inner & Hc & _). discriminate Hc.
Defined.

(** X11: [Unsubscribe] of an edge that does not exist returns the
    not-subscribed error and changes nothing.  Of an existing edge it
    returns no error and removes that edge from both indices and nothing
    else: every other edge, every client record and every topic's history
    and counter stay. *)
Theorem X11_Unsubscribe_removes_one_edge (w : World) (log : Log) (c t : string) :
  run w log →
  (¬ in_client_topics (sys w) c t →
     Unsubscribe c t (sys w) = (Some (not_subscribed c t), sys w))
  ∧ (in_client_topics (sys w) c t →
       ∃ ps', Unsubscribe c t (sys w) = (None, ps')
         ∧ ¬ in_client_topics ps' c t ∧ ¬ subscribed ps' c t
         ∧ (∀ c' t', (c', t') ≠ (c, t) →
              (in_client_topics ps' c' t' ↔ in_client_topics (sys w) c' t')
              ∧ (subscribed ps' c' t' ↔ subscribed (sys w) c' t'))
         ∧ clients ps' = clients (sys w)
         ∧ histories_kept (topics (sys w)) (topics ps')).
Proof.
  intros [Hinv _]%run_inv. split.
  - intros Hnot. unfold Unsubscribe.
    destruct (clientTopics (sys w) !! c) as [inner|] eqn:Hc; [|done].
    destruct (inner !! t) as [b|] eqn:Hb; simpl; [|done].
    exfalso. apply Hnot. exists inner. by rewrite Hb.
  - intros (inner & Hc & [b Hb]).
    assert (ct_lookup (clientTopics (sys w)) c t = Some b) as Hedge.
    { unfold ct_lookup. by rewrite Hc. }
    assert (b = true) as -> by (by apply (inv_true _ Hinv c t)).
    assert (is_Some (sub_lookup (topics (sys w)) t c)) as [s Hsub]
      by (apply (inv_edge _ Hinv); by rewrite Hedge).
    apply sub_lookup_Some in Hsub as (topic & Ht & Hs).
    unfold Unsubscribe. rewrite Hc, Hb, Ht. simpl.
    eexists. split; [done|]. simpl.
    assert (∀ c' t',
              ct_lookup (drop_edge c t inner (clientTopics (sys w))) c' t' =
              if decide (c' = c ∧ t' = t) then None else ct_lookup (clientTopics (sys w)) c' t')
      as Hct by (intros; by apply ct_lookup_drop_edge).
    split_and!; try done.
    + rewrite in_client_topics_lookup. simpl. rewrite Hct, decide_True by done.
      by intros [? ?].
    + rewrite subscribed_lookup. simpl. rewrite sub_lookup_insert, decide_True by done.
      simpl. rewrite lookup_delete_eq. by intros [? ?].
    + intros c' t' Hne. rewrite !in_client_topics_lookup, !subscribed_lookup. simpl.
      rewrite Hct, sub_lookup_insert. simpl.
      rewrite (decide_False (P := c' = c ∧ t' = t)) by (intros [-> ->]; done).
      split; [done|]. case_decide as Hd; [|done]. subst t'.
      rewrite lookup_delete_ne by congruence.
      unfold sub_lookup. by rewrite Ht.
    + by apply (histories_kept_insert _ _ topic).
Qed.

Lemma X11_witness :
  (¬ in_client_topics (sys demo_world) "c1" "T" →
     Unsubscribe "c1" "T" (sys demo_world) = (Some (not_subscribed "c1" "T"), sys demo_world))
  ∧ (in_client_topics (sys demo_world) "c1" "T" →
       ∃ ps', Unsubscribe "c1" "T" (sys demo_world) = (None, ps')
         ∧ ¬ in_client_topics ps' "c1" "T" ∧ ¬ subscribed ps' "c1" "T"
         ∧ (∀ c' t', (c', t') ≠ ("c1", "T") →
              (in_client_topics ps' c' t' ↔ in_client_topics (sys demo_world) c' t')
              ∧ (subscribed ps' c' t' ↔ subscribed (sys demo_world) c' t'))
         ∧ clients ps' = clients (sys demo_world)
         ∧ histories_kept (topics (sys demo_world)) (topics ps')).
Proof.
  apply (X11_Unsubscribe_removes_one_edge demo_world demo_log "c1" "T"). exact demo_run.
Defined.

(** X12: after [DisconnectClient c] the client holds no topic and is a
    subscriber of none, and its record, if it has one, is marked
    disconnected; the edges and records of every other client, the set of
    topics and their histories and counters are as before. *)
Theorem X12_DisconnectClient_scrubs_client (w : World) (log : Log) (c : string) :
  run w log →
  (∀ t, ¬ in_client_topics (DisconnectClient c (sys w)) c t
        ∧ ¬ subscribed (DisconnectClient c (sys w)) c t)
  ∧ clients (DisconnectClient c (sys w)) !! c =
    (λ cl, mkPubSubClient (ClientID cl) (Buffer cl) (WriteChan cl) (LastActive cl) false)
      <$> clients (sys w) !! c
  ∧ (∀ c' t, c' ≠ c →
       (in_client_topics (DisconnectClient c (sys w)) c' t ↔ in_client_topics (sys w) c' t)
       ∧ (subscribed (DisconnectClient c (sys w)) c' t ↔ subscribed (sys w) c' t)
       ∧ clients (DisconnectClient c (sys w)) !! c' = clients (sys w) !! c')
  ∧ (∀ t, is_Some (topics (DisconnectClient c (sys w)) !! t) ↔ is_Some (topics (sys w) !! t))
  ∧ histories_kept (topics (sys w)) (topics (DisconnectClient c (sys w))).
Proof.
  intros [Hinv _]%run_inv. split_and!.
  - intros t. rewrite in_client_topics_lookup, subscribed_lookup.
    rewrite DisconnectClient_clientTopics, ct_lookup_delete, DisconnectClient_sub_lookup by done.
    rewrite !decide_True by done. split; by intros [? ?].
  - rewrite DisconnectClient_clients. by rewrite decide_True.
  - intros c' t Hne. rewrite !in_client_topics_lookup, !subscribed_lookup.
    rewrite DisconnectClient_clientTopics, ct_lookup_delete, DisconnectClient_sub_lookup by done.
    rewrite DisconnectClient_clients. by rewrite !decide_False by done.
  - apply DisconnectClient_topic_keys.
  - intros t topic' (topic & Ht & _ & ? & _ & ?)%DisconnectClient_topic. eauto.
Qed.

Lemma X12_witness :
  (∀ t, ¬ in_client_topics (DisconnectClient "c1" (sys demo_world)) "c1" t
        ∧ ¬ subscribed (DisconnectClient "c1" (sys demo_world)) "c1" t)
  ∧ clients (DisconnectClient "c1" (sys demo_world)) !! "c1" =
    (λ cl, mkPubSubClient (ClientID cl) (Buffer cl) (WriteChan cl) (LastActive cl) false)
      <$> clients (sys demo_world) !! "c1"
  ∧ (∀ c' t, c' ≠ "c1" →
       (in_client_topics (DisconnectClient "c1" (sys demo_world)) c' t
        ↔ in_client_topics (sys demo_world) c' t)
       ∧ (subscribed (DisconnectClient "c1" (sys demo_world)) c' t
          ↔ subscribed (sys demo_world) c' t)
       ∧ clients (DisconnectClient "c1" (sys demo_world)) !! c' = clients (sys demo_world) !! c')
  ∧ (∀ t, is_Some (topics (DisconnectClient "c1" (sys demo_world)) !! t)
          ↔ is_Some (topics (sys demo_world) !! t))
  ∧ histories_kept (topics (sys demo_world)) (topics (DisconnectClient "c1" (sys demo_world))).
Proof. apply (X12_DisconnectClient_scrubs_client demo_world demo_log "c1"). exact demo_run. Defined.

(** X13: [DisconnectClient] is idempotent on every registry state, and on
    a client the registry has never seen it changes nothing. *)
Theorem X13_DisconnectClient_idempotent (ps : PubSubSystem) (c : string) :
  DisconnectClient c (DisconnectClient c ps) = DisconnectClient c ps
  ∧ (clients ps !! c = None → clientTopics ps !! c = None → DisconnectClient c ps = ps).
Proof.
  split.
  - pose proof (DisconnectClient_clients c ps c) as Hcl. rewrite decide_True in Hcl by done.
    pose proof (DisconnectClient_clientTopics c ps) as Hct.
    assert (clientTopics (DisconnectClient c ps) !! c = None) as Hnone
      by (rewrite Hct; apply lookup_delete_eq).
    unfold DisconnectClient at 1. rewrite Hnone, Hcl.
    etrans; [|apply (system_eta (DisconnectClient c ps))]. f_equal.
    destruct (clients ps !! c) as [cl|] eqn:Hc; simpl; [|done].
    apply insert_id. by rewrite Hcl.
  - intros Hc Hct. unfold DisconnectClient. rewrite Hc, Hct. apply system_eta.
Qed.

Lemma X13_witness :
  DisconnectClient "ghost" (DisconnectClient "ghost" (NewPubSubSystem 0))
  = DisconnectClient "ghost" (NewPubSubSystem 0)
  ∧ DisconnectClient "ghost" (NewPubSubSystem 0) = NewPubSubSystem 0.
Proof.
  destruct (X13_DisconnectClient_idempotent (NewPubSubSystem 0) "ghost") as [Hidem Hnew].
  split; [exact Hidem|apply Hnew; reflexivity].
Defined.

(** X14: a successful [Publish] to topic [t] is confined to that topic:
    the other topics and all edges stay; so does the record of every
    client that is not a subscriber of [t], and every channel that is not
    the outbound channel of a subscriber of [t]; the subscribers of [t]
    stay the same; and channels only receive copies of the event at their
    end, never beyond their capacity. *)
Theorem X14_Publish_confined_to_topic (w : World) (log : Log) (t : string)
    (m : MessageData) (sender : string) (now : Time) (clock : string → Time) (topic : Topic) :
  run w log → topics (sys w) !! t = Some topic →
  ∃ w', Publish t m sender now clock w = Some (None, w')
    ∧ (∀ t', t' ≠ t → topics (sys w') !! t' = topics (sys w) !! t')
    ∧ clientTopics (sys w') = clientTopics (sys w)
    ∧ (∀ c t', subscribed (sys w') c t' ↔ subscribed (sys w) c t')
    ∧ (∀ c, Subscribers topic !! c = None → clients (sys w') !! c = clients (sys w) !! c)
    ∧ (∀ ch : nat,
         (∀ c cl, is_Some (Subscribers topic !! c) → clients (sys w) !! c = Some cl →
                  WriteChan cl ≠ ch) →
         chans w' !! ch = chans w !! ch)
    ∧ heap_extends (λ e, e = mkEventResponse "event" t m now) (chans w) (chans w').
Proof.
  intros [Hinv _]%run_inv Ht.
  destruct (Publish_found t m sender now clock w topic Hinv Ht)
    as (history & cls & h & _ & _ & _ & HP).
  destruct (Publish_Some _ _ _ _ _ _ _ _ Ht HP) as (? & ? & ? & _ & Hloop & [= _ <- <-]).
  destruct (deliver_loop_frame _ _ _ _ _ _ _ Hloop) as (Hframe & _ & Hext & Hch).
  destruct (subscribers_NoDup _ _ _ Hinv Ht) as [_ Hvals].
  assert (∀ s, s ∈ (map_to_list (Subscribers topic)).*2 →
               Subscribers topic !! subClient s = Some s) as Hin.
  { intros s ([c s'] & -> & Hcs%elem_of_map_to_list)%list_elem_of_fmap. simpl.
    destruct (Hvals _ _ Hcs) as [_ ->]. done. }
  eexists. split; [exact HP|]. simpl. split_and!; try done.
  - intros t' Hne. by rewrite lookup_insert_ne.
  - intros c t'. rewrite !subscribed_lookup. simpl. rewrite sub_lookup_insert.
    case_decide as Hd; [|done]. subst. simpl. unfold sub_lookup. by rewrite Ht.
  - intros c Hc. apply Hframe. intros (s & -> & Hs)%list_elem_of_fmap.
    apply Hin in Hs. congruence.
  - intros ch Hne. apply Hch. intros s cl Hs Hcl _. apply (Hne (subClient s) cl); [|done].
    apply Hin in Hs. by rewrite Hs.
Qed.

Lemma X14_witness :
  ∃ w', Publish "T" demo_message "c2" 9 (λ _, 9) demo_world = Some (None, w')
    ∧ (∀ t', t' ≠ "T" → topics (sys w') !! t' = topics (sys demo_world) !! t')
    ∧ clientTopics (sys w') = clientTopics (sys demo_world)
    ∧ (∀ c t', subscribed (sys w') c t' ↔ subscribed (sys demo_world) c t')
    ∧ (∀ c, Subscribers demo_topic !! c = None →
            clients (sys w') !! c = clients (sys demo_world) !! c)
    ∧ (∀ ch : nat,
         (∀ c cl, is_Some (Subscribers demo_topic !! c) →
                  clients (sys demo_world) !! c = Some cl → WriteChan cl ≠ ch) →
         chans w' !! ch = chans demo_world !! ch)
    ∧ heap_extends (λ e, e = mkEventResponse "event" "T" demo_message 9)
        (chans demo_world) (chans w').
Proof.
  apply (X14_Publish_confined_to_topic demo_world demo_log "T" demo_message "c2" 9 (λ _, 9)
           demo_topic).
  - exact demo_run.
  - exact demo_topic_lookup.
Defined.

(** X15: a successful [Publish] reaches every subscriber of the topic:
    the event is pushed into the overflow ring of each (dropping the
    oldest entry of a full ring), whose id, channel and connected flag
    stay; and a subscriber whose outbound channel has room and is shared
    with no other subscriber of the topic finds the event appended to that
    channel and its [LastActive] refreshed. *)
Theorem X15_Publish_reaches_every_subscriber (w : World) (log : Log) (t : string)
    (m : MessageData) (sender : string) (now : Time) (clock : string → Time)
    (topic : Topic) (c : string) (cl : PubSubClient) :
  run w log → topics (sys w) !! t = Some topic →
  is_Some (Subscribers topic !! c) → clients (sys w) !! c = Some cl →
  ∃ w' cl' l,
    Publish t m sender now clock w = Some (None, w')
    ∧ clients (sys w') !! c = Some cl'
    ∧ ClientID cl' = ClientID cl ∧ WriteChan cl' = WriteChan cl ∧ Connected cl' = true
    ∧ contents (Buffer cl) = Some l
    ∧ contents (Buffer cl') =
      Some ((if decide (Size (Buffer cl) = DefaultBufferSize) then drop 1 l else l)
            ++ [mkEventResponse "event" t m now])
    ∧ ∀ q, chans w !! WriteChan cl = Some q → (length (chQueue q) < chCap q)%nat →
           (∀ c' cl0, is_Some (Subscribers topic !! c') → clients (sys w) !! c' = Some cl0 →
                      WriteChan cl0 = WriteChan cl → c' = c) →
           chans w' !! WriteChan cl =
           Some (mkChan (chCap q) (chQueue q ++ [mkEventResponse "event" t m now]))
           ∧ LastActive cl' = clock c.
Proof.
  intros Hrun Ht [s Hs] Hcl. pose proof Hrun as [Hinv _]%run_inv.
  pose proof (run_aux _ _ Hrun) as Haux.
  destruct (Publish_found t m sender now clock w topic Hinv Ht)
    as (history & cls & h & _ & _ & _ & HP).
  destruct (Publish_Some _ _ _ _ _ _ _ _ Ht HP) as (? & ? & ? & _ & Hloop & [= _ <- <-]).
  destruct (deliver_loop_frame _ _ _ _ _ _ _ Hloop) as (_ & Hsame & _).
  destruct (subscribers_NoDup _ _ _ Hinv Ht) as [Hnd Hvals].
  destruct (Hvals _ _ Hs) as [Hin Hkey].
  assert (∀ s', s' ∈ (map_to_list (Subscribers topic)).*2 →
                Subscribers topic !! subClient s' = Some s') as Hback.
  { intros s' ([c' s''] & -> & Hcs%elem_of_map_to_list)%list_elem_of_fmap. simpl.
    destruct (Hvals _ _ Hcs) as [_ ->]. done. }
  assert (Connected cl = true) as Hconn.
  { destruct (aux_conn _ Haux t c s) as (cl0 & Hcl0 & ?); [|congruence].
    unfold sub_lookup. by rewrite Ht. }
  rewrite <- Hkey in Hcl.
  destruct (deliver_loop_push _ _ _ _ _ _ _ _ _ Hloop Hnd Hin Hcl Hconn)
    as (cl' & Hcl' & Hpush).
  destruct (Hsame _ _ Hcl') as (cl0 & Hcl0 & Hid & Hw & Hco).
  assert (cl0 = cl) as -> by congruence.
  destruct (inv_buf _ Hinv _ _ Hcl) as [Hrb Hcap].
  destruct (Push_wf _ _ _ Hrb Hpush) as [Hrb' _].
  destruct (Push_elems _ _ _ Hrb Hpush) as (Hel & _ & _).
  rewrite Hkey in *.
  exists (mkWorld (mkPubSubSystem
                     (<[t := mkTopic (Name topic) (Subscribers topic)
                               (wrap64 (MessageCount topic + 1)) (CreatedAt topic) history]>
                        (topics (sys w)))
                     cls (clientTopics (sys w)) (startTime (sys w))) h),
    cl', (elems (Buffer cl)).
  split; [exact HP|]. simpl. split_and!; try done; try congruence.
  - by apply contents_elems.
  - rewrite contents_elems, Hel by done. unfold Size. by rewrite Hcap.
  - intros q Hq Hroom Huniq.
    destruct (deliver_loop_send _ _ _ _ _ _ _ s cl q Hloop Hnd Hin) as [Hq' (cl2 & Hcl2 & Hla)];
      try done; try (by rewrite Hkey).
    + intros s' cl1 Hs' Hc1 _ Hw1. rewrite Hkey. apply (Huniq _ cl1); try done.
      apply Hback in Hs'. by rewrite Hs'.
    + split; [done|]. rewrite Hkey in Hcl2, Hla. congruence.
Qed.

Lemma X15_witness :
  ∃ w' cl' l,
    Publish "T" demo_message "c2" 9 (λ _, 9) demo_world = Some (None, w')
    ∧ clients (sys w') !! "c1" = Some cl'
    ∧ ClientID cl' = ClientID demo_client ∧ WriteChan cl' = WriteChan demo_client
    ∧ Connected cl' = true
    ∧ contents (Buffer demo_client) = Some l
    ∧ contents (Buffer cl') =
      Some ((if decide (Size (Buffer demo_client) = DefaultBufferSize) then drop 1 l else l)
            ++ [mkEventResponse "event" "T" demo_message 9])
    ∧ ∀ q, chans demo_world !! WriteChan demo_client = Some q →
           (length (chQueue q) < chCap q)%nat →
           (∀ c' cl0, is_Some (Subscribers demo_topic !! c') →
                      clients (sys demo_world) !! c' = Some cl0 →
                      WriteChan cl0 = WriteChan demo_client → c' = "c1") →
           chans w' !! WriteChan demo_client =
           Some (mkChan (chCap q) (chQueue q ++ [mkEventResponse "event" "T" demo_message 9]))
           ∧ LastActive cl' = 9.
Proof.
  apply (X15_Publish_reaches_every_subscriber demo_world demo_log "T" demo_message "c2" 9
           (λ _, 9) demo_topic "c1" demo_client).
  - exact demo_run.
  - exact demo_topic_lookup.
  - vm_compute. eexists. reflexivity.
  - exact demo_client_lookup.
Defined.

(** X16: no core operation ([CreateTopic], [DeleteTopic], [Subscribe],
    [Unsubscribe], [Publish], [DisconnectClient]) creates, removes, drains
    or overfills a channel: every channel keeps its capacity and its queued
    frames, in order; what is added is added at the end, is a copy of a
    published event or a topic-deletion notice, and never takes a queue
    beyond its capacity. *)
Theorem X16_core_ops_never_overfill_channels (op : Op) (w w' : World) (r : Ret) :
  (∀ f, op ≠ OpChannels f) → step op w = Some (r, w') →
  heap_extends core_frame (chans w) (chans w')
  ∧ (heap_bounded (chans w) → heap_bounded (chans w')).
Proof.
  intros Hop Hstep. pose proof (step_heap_extends _ _ _ _ Hop Hstep) as Hext.
  split; [done|]. by apply heap_extends_bounded with core_frame.
Qed.

Lemma X16_witness :
  heap_extends core_frame (chans demo_init) (chans demo_world)
  ∧ (heap_bounded (chans demo_init) → heap_bounded (chans demo_world)).
Proof.
  assert (∃ w2, exec (take 2 demo_ops) demo_init (mkLog (λ _, []) (λ _, [])) = Some w2
                ∧ chans w2.1 = chans demo_init
                ∧ ∃ r, step (OpPublish "T" demo_message "c2" 3 (λ _, 4)) w2.1
                       = Some (r, demo_world)) as (w2 & _ & Hch & r & Hstep).
  { eexists (_, _). split; [vm_compute; reflexivity|]. split; [reflexivity|].
    eexists (_, _). vm_compute. reflexivity. }
  rewrite <- Hch.
  apply (X16_core_ops_never_overfill_channels (OpPublish "T" demo_message "c2" 3 (λ _, 4))
           w2.1 demo_world r); [done|exact Hstep].
Defined.

(** X17: each core operation, run from start to end on a registry
    whose two indices agree and whose records agree with the keys they are
    stored under, leaves such a registry: afterwards a topic's [Name] is
    its key; every subscriber entry carries the id of its key and belongs
    to a registered client that is connected; a client's [ClientID] is its
    key and its overflow ring has capacity 100 and holds at most 100
    events; and no client has an empty topic set.  (Between the critical
    sections of a [Subscribe] this need not hold, see
    [Interleaved.race_disconnect].) *)
Theorem X17_operations_keep_records_consistent (op : Op) (w w' : World) (r : Ret) :
  sys_inv (sys w) → aux_inv (sys w) → step op w = Some (r, w') →
  sys_inv (sys w') ∧ aux_inv (sys w')
  ∧ (∀ t topic, topics (sys w') !! t = Some topic → Name topic = t)
  ∧ (∀ t topic c s, topics (sys w') !! t = Some topic → Subscribers topic !! c = Some s →
       subClientID s = c
       ∧ ∃ client, clients (sys w') !! c = Some client ∧ Connected client = true
                   ∧ ClientID client = c)
  ∧ (∀ c client, clients (sys w') !! c = Some client →
       ClientID client = c ∧ rb_capacity (Buffer client) = DefaultBufferSize
       ∧ 0 ≤ Size (Buffer client) ≤ DefaultBufferSize)
  ∧ (∀ c inner, clientTopics (sys w') !! c = Some inner → ∃ t, inner !! t = Some true).
Proof.
  intros Hinv0 Haux0 Hstep.
  pose proof (step_inv _ _ _ _ Hinv0 Hstep) as Hinv.
  pose proof (step_aux _ _ _ _ Hinv0 Haux0 Hstep) as Haux.
  split_and!; try done.
  - apply (aux_name _ Haux).
  - intros t topic c s Ht Hs.
    assert (sub_lookup (topics (sys w')) t c = Some s) as Hsl.
    { unfold sub_lookup. by rewrite Ht. }
    destruct (inv_sub _ Hinv _ _ _ Hsl) as (Hid & _ & _). split; [done|].
    destruct (aux_conn _ Haux _ _ _ Hsl) as (client & Hcl & Hconn).
    exists client. split_and!; try done. by apply (aux_cid _ Haux).
  - intros c client Hcl. destruct (inv_buf _ Hinv _ _ Hcl) as [Hwf Hcap].
    split_and!; [by apply (aux_cid _ Haux)|done| |]; unfold Size;
      pose proof (wf_size _ Hwf); lia.
  - intros c inner Hin. pose proof (aux_nonempty _ Haux _ _ Hin) as Hne.
    destruct (map_choose _ Hne) as (t & b & Hb). exists t.
    rewrite Hb. f_equal. apply (inv_true _ Hinv c t). unfold ct_lookup. by rewrite Hin.
Qed.

Lemma X17_witness :
  ∃ w', step (OpUnsubscribe "c1" "T") demo_world = Some (([], None), w')
  ∧ sys_inv (sys w') ∧ aux_inv (sys w')
  ∧ (∀ t topic, topics (sys w') !! t = Some topic → Name topic = t)
  ∧ (∀ t topic c s, topics (sys w') !! t = Some topic → Subscribers topic !! c = Some s →
       subClientID s = c
       ∧ ∃ client, clients (sys w') !! c = Some client ∧ Connected client = true
                   ∧ ClientID client = c)
  ∧ (∀ c client, clients (sys w') !! c = Some client →
       ClientID client = c ∧ rb_capacity (Buffer client) = DefaultBufferSize
       ∧ 0 ≤ Size (Buffer client) ≤ DefaultBufferSize)
  ∧ (∀ c inner, clientTopics (sys w') !! c = Some inner → ∃ t, inner !! t = Some true).
Proof.
  eexists. split; [reflexivity|].
  apply (X17_operations_keep_records_consistent (OpUnsubscribe "c1" "T") demo_world _
           ([], None)).
  - exact (proj1 (run_inv _ _ demo_run)).
  - exact (run_aux _ _ demo_run).
  - reflexivity.
Defined.

(** ** The read-only queries *)

(** X18: in every world reached by completed operations,
    [GetClientTopics] of a client lists, without repetition, exactly the
    topics that have the client among their subscribers; and it is empty
    once the client has been disconnected. *)
Theorem X18_GetClientTopics_lists_subscriptions (w : World) (log : Log) (c : string) :
  run w log →
  NoDup (GetClientTopics c (sys w))
  ∧ (∀ t, t ∈ GetClientTopics c (sys w) ↔ subscribed (sys w) c t)
  ∧ GetClientTopics c (DisconnectClient c (sys w)) = [].
Proof.
  intros [Hinv _]%run_inv. split_and!.
  - apply GetClientTopics_NoDup.
  - intros t. rewrite GetClientTopics_elem, subscribed_lookup. apply (inv_edge _ Hinv).
  - unfold GetClientTopics. rewrite DisconnectClient_clientTopics.
    by rewrite lookup_delete_eq.
Qed.

Lemma X18_witness :
  NoDup (GetClientTopics "c1" (sys demo_world))
  ∧ (∀ t, t ∈ GetClientTopics "c1" (sys demo_world) ↔ subscribed (sys demo_world) "c1" t)
  ∧ GetClientTopics "c1" (DisconnectClient "c1" (sys demo_world)) = [].
Proof.
  apply (X18_GetClientTopics_lists_subscriptions demo_world demo_log "c1"). exact demo_run.
Defined.

(** X19: in every world reached by completed operations, [GetTopics]
    lists every topic of the registry exactly once, under the name it is
    registered with, and the subscriber count it reports for a topic is the
    number of clients whose topic set contains that topic. *)
Theorem X19_GetTopics_lists_each_topic_once (w : World) (log : Log) :
  run w log →
  length (GetTopics (sys w)) = size (topics (sys w))
  ∧ NoDup (ti_Name <$> GetTopics (sys w))
  ∧ ∀ t n, mkTopicInfo t n ∈ GetTopics (sys w) ↔
      is_Some (topics (sys w) !! t) ∧ n = Z.of_nat (subscriber_count (sys w) t).
Proof.
  intros Hrun. pose proof (run_aux _ _ Hrun) as Haux.
  destruct (run_inv _ _ Hrun) as [Hinv _]. split_and!.
  - rewrite GetTopics_spec, !length_fmap. apply length_map_to_list.
  - rewrite GetTopics_names by done. apply NoDup_fst_map_to_list.
  - intros t n. rewrite GetTopics_spec, list_elem_of_fmap. split.
    + intros (topic & [= -> ->] & ([t' topic'] & -> & Hin%elem_of_map_to_list)%list_elem_of_fmap).
      simpl in *. rewrite (aux_name _ Haux _ _ Hin). split; [by exists topic'|].
      f_equal. by apply subscriber_count_size.
    + intros [[topic Ht] ->]. exists topic. split.
      * rewrite (aux_name _ Haux _ _ Ht). f_equal. f_equal. symmetry.
        by apply subscriber_count_size.
      * apply list_elem_of_fmap. exists (t, topic). split; [done|].
        by apply elem_of_map_to_list.
Qed.

Lemma X19_witness :
  length (GetTopics (sys demo_world)) = size (topics (sys demo_world))
  ∧ NoDup (ti_Name <$> GetTopics (sys demo_world))
  ∧ ∀ t n, mkTopicInfo t n ∈ GetTopics (sys demo_world) ↔
      is_Some (topics (sys demo_world) !! t)
      ∧ n = Z.of_nat (subscriber_count (sys demo_world) t).
Proof. apply (X19_GetTopics_lists_each_topic_once demo_world demo_log). exact demo_run. Defined.

(** X20: in every world reached by completed operations, [GetStats] has
    an entry exactly for the topics of the registry; its [Messages] is the
    number of events published to the topic since it was (last) created,
    as an [int64], and its [Subscribers] is the number of clients whose
    topic set contains the topic. *)
Theorem X20_GetStats_counts_publishes (w : World) (log : Log) (t : string) :
  run w log →
  GetStats (sys w) !! t =
  (λ _, mkTopicStats (wrap64 (Z.of_nat (length (live log t))))
          (Z.of_nat (subscriber_count (sys w) t)))
    <$> topics (sys w) !! t.
Proof.
  intros [Hinv [_ Hlog]]%run_inv. rewrite GetStats_lookup.
  destruct (topics (sys w) !! t) as [topic|] eqn:Ht; [|done]. simpl.
  destruct (Hlog _ _ Ht) as [_ ->]. by rewrite (subscriber_count_size _ _ _ Hinv Ht).
Qed.

Lemma X20_witness :
  GetStats (sys demo_world) !! "T" =
  (λ _, mkTopicStats (wrap64 (Z.of_nat (length (live demo_log "T"))))
          (Z.of_nat (subscriber_count (sys demo_world) "T")))
    <$> topics (sys demo_world) !! "T".
Proof. apply (X20_GetStats_counts_publishes demo_world demo_log "T"). exact demo_run. Defined.

(** X21: in every world reached by completed operations, [GetHealth]
    reports as [Topics] the number of entries of [GetTopics], and as
    [Subscribers] the number of subscriptions, that is of pairs of a
    client and a topic in its topic set (as a Go [int]). *)
Theorem X21_GetHealth_counts_subscriptions (w : World) (log : Log) (since : Time → Z) :
  run w log →
  h_Topics (GetHealth since (sys w)) = Z.of_nat (length (GetTopics (sys w)))
  ∧ h_Subscribers (GetHealth since (sys w))
    = wrap64 (Z.of_nat (length (client_edges (sys w))))
  ∧ NoDup (client_edges (sys w))
  ∧ ∀ c t, (c, t) ∈ client_edges (sys w) ↔ in_client_topics (sys w) c t.
Proof.
  intros [Hinv _]%run_inv. split_and!.
  - simpl. rewrite GetTopics_spec, !length_fmap. by rewrite length_map_to_list.
  - simpl. change 0 with (wrap64 0) at 1. rewrite total_subscribers.
    fold (topic_edges (sys w)). by rewrite edges_length.
  - apply client_edges_NoDup.
  - intros c t. by rewrite client_edges_elem, in_client_topics_lookup.
Qed.

Lemma X21_witness :
  h_Topics (GetHealth (λ start, 7 - start) (sys demo_world))
  = Z.of_nat (length (GetTopics (sys demo_world)))
  ∧ h_Subscribers (GetHealth (λ start, 7 - start) (sys demo_world))
    = wrap64 (Z.of_nat (length (client_edges (sys demo_world))))
  ∧ NoDup (client_edges (sys demo_world))
  ∧ ∀ c t, (c, t) ∈ client_edges (sys demo_world) ↔ in_client_topics (sys demo_world) c t.
Proof.
  apply (X21_GetHealth_counts_subscriptions demo_world demo_log (λ start, 7 - start)).
  exact demo_run.
Defined.

(** X22: in every world reached by completed operations, the two views
    of [GetSubscriptionsStatus] agree: a client's entry lists a topic
    exactly when the breakdown of that topic lists the client; the clients
    listed are exactly those holding at least one subscription, each once,
    and [TotalClients] is their number; the breakdown has an entry exactly
    for the topics of the registry. *)
Theorem X22_GetSubscriptionsStatus_views_agree (w : World) (log : Log) :
  run w log →
  (∀ c t,
     (∃ sub, sub ∈ Subscriptions (GetSubscriptionsStatus (sys w))
             ∧ cs_ClientID sub = c ∧ t ∈ cs_Topics sub)
     ↔ (∃ cs, TopicBreakdown (GetSubscriptionsStatus (sys w)) !! t = Some cs ∧ c ∈ cs))
  ∧ (∀ c, (∃ sub, sub ∈ Subscriptions (GetSubscriptionsStatus (sys w)) ∧ cs_ClientID sub = c)
          ↔ ∃ t, subscribed (sys w) c t)
  ∧ NoDup (cs_ClientID <$> Subscriptions (GetSubscriptionsStatus (sys w)))
  ∧ TotalClients (GetSubscriptionsStatus (sys w))
    = Z.of_nat (length (Subscriptions (GetSubscriptionsStatus (sys w))))
  ∧ (∀ t, is_Some (TopicBreakdown (GetSubscriptionsStatus (sys w)) !! t)
          ↔ is_Some (topics (sys w) !! t)).
Proof.
  intros Hrun. pose proof (run_aux _ _ Hrun) as Haux.
  destruct (run_inv _ _ Hrun) as [Hinv _].
  assert (∀ c t,
            (∃ sub, sub ∈ Subscriptions (GetSubscriptionsStatus (sys w))
                    ∧ cs_ClientID sub = c ∧ t ∈ cs_Topics sub)
            ↔ is_Some (ct_lookup (clientTopics (sys w)) c t)) as Hleft.
  { intros c t. unfold ct_lookup. split.
    - intros (sub & (inner & Hin & Hk)%Subscriptions_elem & <- & Ht).
      rewrite Hin. simpl. apply keys_of_elem. by rewrite <- Hk.
    - destruct (clientTopics (sys w) !! c) as [inner|] eqn:Hin; simpl; [|by intros [? ?]].
      intros Ht. exists (mkClientSubscription c (keys_of inner)). split_and!; try done.
      + apply Subscriptions_elem. by exists inner.
      + by apply keys_of_elem. }
  split_and!.
  - intros c t. rewrite Hleft, (inv_edge _ Hinv). unfold sub_lookup.
    rewrite TopicBreakdown_lookup.
    destruct (topics (sys w) !! t) as [topic|]; simpl.
    + split.
      * intros Hc. exists (keys_of (Subscribers topic)). split; [done|]. by apply keys_of_elem.
      * intros (cs & [= <-] & Hc). by apply keys_of_elem.
    + split; [by intros [? ?]|by intros (? & ? & _)].
  - intros c. split.
    + intros (sub & (inner & Hin & Hk)%Subscriptions_elem & <-).
      destruct (map_choose _ (aux_nonempty _ Haux _ _ Hin)) as (t & b & Hb).
      exists t. apply subscribed_lookup, (inv_edge _ Hinv). unfold ct_lookup.
      rewrite Hin. simpl. by exists b.
    + intros [t Ht]. apply subscribed_lookup, (inv_edge _ Hinv), Hleft in Ht.
      destruct Ht as (sub & ? & ? & _). by exists sub.
  - rewrite Subscriptions_ids. apply NoDup_fst_map_to_list.
  - rewrite <- (length_fmap cs_ClientID), Subscriptions_ids, length_fmap.
    simpl. by rewrite length_map_to_list.
  - intros t. rewrite TopicBreakdown_lookup. apply fmap_is_Some.
Qed.

Lemma X22_witness :
  (∀ c t,
     (∃ sub, sub ∈ Subscriptions (GetSubscriptionsStatus (sys demo_world))
             ∧ cs_ClientID sub = c ∧ t ∈ cs_Topics sub)
     ↔ (∃ cs, TopicBreakdown (GetSubscriptionsStatus (sys demo_world)) !! t = Some cs
              ∧ c ∈ cs))
  ∧ (∀ c, (∃ sub, sub ∈ Subscriptions (GetSubscriptionsStatus (sys demo_world))
                  ∧ cs_ClientID sub = c)
          ↔ ∃ t, subscribed (sys demo_world) c t)
  ∧ NoDup (cs_ClientID <$> Subscriptions (GetSubscriptionsStatus (sys demo_world)))
  ∧ TotalClients (GetSubscriptionsStatus (sys demo_world))
    = Z.of_nat (length (Subscriptions (GetSubscriptionsStatus (sys demo_world))))
  ∧ (∀ t, is_Some (TopicBreakdown (GetSubscriptionsStatus (sys demo_world)) !! t)
          ↔ is_Some (topics (sys demo_world) !! t)).
Proof. apply (X22_GetSubscriptionsStatus_views_agree demo_world demo_log). exact demo_run. Defined.

(** ** The session *)

(** X23: in a world reached by completed operations, one turn of
    [processPump] of a session whose outbound channel is open (in the
    heap), on any frame, returns and leaves a world that is again reached
    by completed operations, with the session's channel still open.  The
    session keeps its outbound channel, and its client id once one is
    bound; the turn only adds frames at the end of channels, never beyond
    their capacity; and it neither creates nor deletes a topic. *)
Theorem X23_processPump_keeps_reachability (uuid_Parse : string → bool)
    (data : string + Frame) (now : Time) (clock : string → Time) (c : Client)
    (w : World) (log : Log) :
  run w log → is_Some (chans w !! send c) →
  ∃ c' w' log',
    processPump uuid_Parse data now clock c w = Some (c', w')
    ∧ run w' log'
    ∧ send c' = send c ∧ is_Some (chans w' !! send c')
    ∧ (clientID c ≠ "" → clientID c' = clientID c)
    ∧ heap_extends (λ _, True) (chans w) (chans w')
    ∧ (heap_bounded (chans w) → heap_bounded (chans w'))
    ∧ ∀ t, is_Some (topics (sys w') !! t) ↔ is_Some (topics (sys w) !! t).
Proof.
  intros Hrun [q Hq].
  destruct (processPump_run uuid_Parse data now clock c w log Hrun)
    as (c' & w' & HP & [log' Hrun'] & Hs & Hid & Hext & Hdom).
  exists c', w', log'. split_and!; try done.
  - rewrite Hs. destruct (Hext (send c)) as [_ Hsome].
    destruct (Hsome q Hq) as (l & Hl & _). eexists. exact Hl.
  - by apply heap_extends_bounded with (λ _, True).
Qed.

Lemma X23_witness :
  ∃ c' w' log',
    processPump (λ _, true)
      (inr (mkFrame "publish" "T" "c1" 0 "r1" demo_message)) 9 (λ _, 9)
      (mkClient 1%nat "c1") demo_world = Some (c', w')
    ∧ run w' log'
    ∧ send c' = send (mkClient 1%nat "c1") ∧ is_Some (chans w' !! send c')
    ∧ (clientID (mkClient 1%nat "c1") ≠ "" → clientID c' = clientID (mkClient 1%nat "c1"))
    ∧ heap_extends (λ _, True) (chans demo_world) (chans w')
    ∧ (heap_bounded (chans demo_world) → heap_bounded (chans w'))
    ∧ ∀ t, is_Some (topics (sys w') !! t) ↔ is_Some (topics (sys demo_world) !! t).
Proof.
  apply (X23_processPump_keeps_reachability (λ _, true)
           (inr (mkFrame "publish" "T" "c1" 0 "r1" demo_message)) 9 (λ _, 9)
           (mkClient 1%nat "c1") demo_world demo_log).
  - exact demo_run.
  - vm_compute. eexists. reflexivity.
Defined.

(** X24: on a session whose outbound channel is open (in the heap), a
    frame that does not parse, a request that fails the validation of its
    handler (no [request_id], no [client_id] where one is required, a
    publish whose [message.id] is not a UUID), and a request that names a
    client id other than the one the connection is bound to, are all
    turned down before the registry is touched: the turn returns, the
    registry is as it was, and all that may have been added to the
    channels are error frames at the end of the session's own channel. *)
Theorem X24_rejected_requests_leave_registry (uuid_Parse : string → bool)
    (data : string + Frame) (now : Time) (clock : string → Time) (c : Client) (w : World) :
  is_Some (chans w !! send c) →
  (∀ req, ParseMessage data = inr req → invalid uuid_Parse c req ∨ mismatch c req) →
  ∃ c' w', processPump uuid_Parse data now clock c w = Some (c', w')
    ∧ sys w' = sys w
    ∧ replies_only (λ e, evType e = "error") c (chans w) (chans w').
Proof.
  intros _ Hrej.
  destruct (rejected_handleMessage uuid_Parse data now clock c w Hrej)
    as (e & c1 & w1 & HM & Hs & Hsys & Hrep).
  unfold processPump. rewrite HM. simpl.
  destruct e as [err|]; [|by eauto 10].
  eexists _, _. split; [done|]. split; [done|]. simpl.
  by apply replies_only_send.
Qed.

Lemma X24_witness :
  ∃ c' w',
    processPump (λ _, true)
      (inr (mkFrame "subscribe" "T" "c2" 0 "r1" demo_message)) 9 (λ _, 9)
      (mkClient 1%nat "c1") demo_world = Some (c', w')
    ∧ sys w' = sys demo_world
    ∧ replies_only (λ e, evType e = "error") (mkClient 1%nat "c1")
        (chans demo_world) (chans w').
Proof.
  apply (X24_rejected_requests_leave_registry (λ _, true)
           (inr (mkFrame "subscribe" "T" "c2" 0 "r1" demo_message)) 9 (λ _, 9)
           (mkClient 1%nat "c1") demo_world).
  - vm_compute. eexists. reflexivity.
  - intros req [= <-]. right. split; simpl; done.
Defined.

(** X25: a ping with a request id is answered by one pong frame that
    carries the request id, queued at the end of the session's channel when
    it has room; when the channel is full nothing is queued at all.  Either
    way the registry and the session are as they were: a ping neither
    needs nor binds a client id. *)
Theorem X25_ping_is_answered_by_pong (uuid_Parse : string → bool) (topic cid rid : string)
    (last_n : Z) (message : MessageData) (now : Time) (clock : string → Time)
    (c : Client) (w : World) (q : Chan) :
  rid ≠ "" → chans w !! send c = Some q →
  processPump uuid_Parse (inr (mkFrame "ping" topic cid last_n rid message)) now clock c w
  = Some (c,
          mkWorld (sys w)
            (if decide (length (chQueue q) < chCap q)%nat
             then <[send c :=
                      mkChan (chCap q)
                        (chQueue q ++
                         [mkEventResponse "pong" "" (mkMessageData rid (PayloadText "pong"))
                            now])]> (chans w)
             else chans w)).
Proof.
  intros Hrid Hq. unfold processPump, handleMessage. simpl. unfold handlePing. simpl.
  rewrite (decide_False (P := rid = "")) by done. simpl.
  destruct (decide (length (chQueue q) < chCap q)%nat) as [Hroom|Hfull].
  - by erewrite (sendMessage_room _ c _ q).
  - erewrite (sendMessage_full _ c _ q) by done. simpl.
    by erewrite (sendMessage_full _ c _ q).
Qed.

Lemma X25_witness :
  processPump (λ _, true) (inr (mkFrame "ping" "" "" 0 "r7" demo_message)) 9 (λ _, 9)
    (mkClient 1%nat "") demo_init
  = Some (mkClient 1%nat "",
          mkWorld (sys demo_init)
            (if decide (length (chQueue (mkChan 10 [])) < chCap (mkChan 10 []))%nat
             then <[send (mkClient 1%nat "") :=
                      mkChan (chCap (mkChan 10 []))
                        (chQueue (mkChan 10 []) ++
                         [mkEventResponse "pong" "" (mkMessageData "r7" (PayloadText "pong"))
                            9])]> (chans demo_init)
             else chans demo_init)).
Proof.
  apply (X25_ping_is_answered_by_pong (λ _, true) "" "" "r7" 0 demo_message 9 (λ _, 9)
           (mkClient 1%nat "") demo_init (mkChan 10 [])).
  - discriminate.
  - vm_compute. reflexivity.
Defined.

(** X26: a valid subscribe request for an existing topic, on a
    connection that is unbound or bound to the same client id, binds the
    connection to that id, leaves the registry as [Subscribe] leaves it,
    and queues on the session's channel the ack followed by the history
    that [Subscribe] handed back, in order, as far as the channel has
    room: what does not fit is dropped from the end (with no room at all
    nothing is queued, though the client is subscribed).  No other channel
    changes. *)
Theorem X26_subscribe_queues_ack_then_history (uuid_Parse : string → bool) (w : World)
    (log : Log) (c : Client) (t cid rid : string) (lastN : Z) (message : MessageData)
    (now : Time) (clock : string → Time) (topic : Topic) (q : Chan) :
  run w log → topics (sys w) !! t = Some topic →
  rid ≠ "" → cid ≠ "" → (clientID c = "" ∨ clientID c = cid) →
  chans w !! send c = Some q → (length (chQueue q) ≤ chCap q)%nat →
  ∃ history ps' w',
    Subscribe cid t lastN (send c) now (sys w) = Some (history, None, ps')
    ∧ processPump uuid_Parse (inr (mkFrame "subscribe" t cid lastN rid message)) now clock c w
      = Some (mkClient (send c) cid, w')
    ∧ sys w' = ps'
    ∧ chans w' !! send c =
      Some (mkChan (chCap q)
              (chQueue q ++
               take (chCap q - length (chQueue q))
                 (mkEventResponse "ack" t (mkMessageData rid (PayloadStatus "ok")) now
                  :: history)))
    ∧ ∀ ch : nat, ch ≠ send c → chans w' !! ch = chans w !! ch.
Proof.
  intros [Hinv _]%run_inv Ht Hrid Hcid Hc Hq Hb.
  destruct (Subscribe_found cid t lastN (send c) now (sys w) topic Hinv Ht) as (client & _ & HS).
  eexists _, _. 
  assert (bind_client cid c = inr (mkClient (send c) cid)) as Hbind.
  { unfold bind_client. destruct (decide (clientID c = "")); [done|].
    destruct Hc as [|Hc]; [done|]. rewrite decide_False by (by intros []).
    destruct c. simpl in *. by subst. }
  unfold processPump, handleMessage. simpl. unfold handleSubscribe. simpl.
  rewrite (decide_False (P := rid = "")) by done.
  rewrite (decide_False (P := cid = "")) by done.
  rewrite Hbind. simpl. rewrite HS. simpl.
  destruct (decide (length (chQueue q) < chCap q)%nat) as [Hroom|Hfull].
  - erewrite (sendMessage_room _ (mkClient (send c) cid) _ q) by done. simpl.
    eexists. split; [done|]. split; [done|]. split; [done|]. simpl. split.
    + erewrite (send_all_take (mkClient (send c) cid));
        [|done|simpl; by rewrite lookup_insert_eq|].
      * simpl. rewrite length_app. simpl.
        replace (chCap q - length (chQueue q))%nat
          with (S (chCap q - (length (chQueue q) + 1)))%nat by lia.
        simpl. by rewrite <- app_assoc.
      * simpl. rewrite length_app. simpl. lia.
    + intros ch Hne. rewrite send_all_other by done. by rewrite lookup_insert_ne.
  - erewrite (sendMessage_full _ (mkClient (send c) cid) _ q) by done. simpl.
    erewrite (sendMessage_full _ (mkClient (send c) cid) _ q) by done. simpl.
    eexists. split; [done|]. split; [done|]. split; [done|]. simpl. split; [|done].
    replace (chCap q - length (chQueue q))%nat with 0%nat by lia.
    by rewrite take_0, app_nil_r, chan_eta.
Qed.

Lemma X26_witness :
  ∃ history ps' w',
    Subscribe "c2" "T" 5 1%nat 9 (sys demo_world) = Some (history, None, ps')
    ∧ processPump (λ _, true) (inr (mkFrame "subscribe" "T" "c2" 5 "r1" demo_message)) 9
        (λ _, 9) (mkClient 1%nat "") demo_world
      = Some (mkClient 1%nat "c2", w')
    ∧ sys w' = ps'
    ∧ chans w' !! 1%nat =
      Some (mkChan 10
              ([mkEventResponse "event" "T" demo_message 3] ++
               take (10 - 1)
                 (mkEventResponse "ack" "T" (mkMessageData "r1" (PayloadStatus "ok")) 9
                  :: history)))
    ∧ ∀ ch : nat, ch ≠ 1%nat → chans w' !! ch = chans demo_world !! ch.
Proof.
  apply (X26_subscribe_queues_ack_then_history (λ _, true) demo_world demo_log
           (mkClient 1%nat "") "T" "c2" "r1" 5 demo_message 9 (λ _, 9) demo_topic
           (mkChan 10 [mkEventResponse "event" "T" demo_message 3])).
  - exact demo_run.
  - exact demo_topic_lookup.
  - discriminate.
  - discriminate.
  - by left.
  - vm_compute. reflexivity.
  - simpl. lia.
Defined.

(** X27: a well-formed request that the registry turns down is
    answered, when the session's channel has room, by exactly one error
    frame that carries the request id, the code of the operation
    (SUBSCRIBE_FAILED, PUBLISH_FAILED, UNSUBSCRIBE_FAILED) and the message
    of the registry's error; the registry is left as it was.  This is the
    case for a subscribe or a publish to a topic the registry does not
    hold, and for an unsubscribe from a topic the client is not subscribed
    to. *)
Theorem X27_core_refusals_are_reported (uuid_Parse : string → bool) (w : World) (log : Log)
    (c : Client) (t cid rid : string) (lastN : Z) (message : MessageData)
    (now : Time) (clock : string → Time) (q : Chan) :
  run w log →
  rid ≠ "" → cid ≠ "" → (clientID c = "" ∨ clientID c = cid) →
  chans w !! send c = Some q → (length (chQueue q) < chCap q)%nat →
  let reply code msg :=
    Some (mkClient (send c) cid,
          mkWorld (sys w)
            (<[send c := mkChan (chCap q) (chQueue q ++ [failed_frame code rid msg now])]>
               (chans w))) in
  (topics (sys w) !! t = None →
     processPump uuid_Parse (inr (mkFrame "subscribe" t cid lastN rid message)) now clock c w
     = reply "SUBSCRIBE_FAILED" ("topic " +:+ t +:+ " not found"))
  ∧ (topics (sys w) !! t = None → ID message ≠ "" → uuid_Parse (ID message) = true →
     processPump uuid_Parse (inr (mkFrame "publish" t cid lastN rid message)) now clock c w
     = reply "PUBLISH_FAILED" ("topic " +:+ t +:+ " not found"))
  ∧ (¬ subscribed (sys w) cid t →
     processPump uuid_Parse (inr (mkFrame "unsubscribe" t cid lastN rid message)) now clock c w
     = reply "UNSUBSCRIBE_FAILED"
         ("client " +:+ cid +:+ " is not subscribed to topic " +:+ t)).
Proof.
  intros [Hinv _]%run_inv Hrid Hcid Hc Hq Hroom reply.
  assert (bind_client cid c = inr (mkClient (send c) cid)) as Hbind.
  { unfold bind_client. destruct (decide (clientID c = "")); [done|].
    destruct Hc as [|Hc]; [done|]. rewrite decide_False by (by intros []).
    destruct c. simpl in *. by subst. }
  split_and!.
  - intros Ht. unfold processPump, handleMessage. simpl. unfold handleSubscribe. simpl.
    rewrite (decide_False (P := rid = "")) by done.
    rewrite (decide_False (P := cid = "")) by done.
    rewrite Hbind. simpl. rewrite Subscribe_missing by done. simpl.
    by erewrite (sendMessage_room _ (mkClient (send c) cid) _ q).
  - intros Ht Hid Hu. unfold processPump, handleMessage. simpl. unfold handlePublish. simpl.
    rewrite (decide_False (P := rid = "")) by done.
    rewrite (decide_False (P := cid = "")) by done.
    assert ((if decide (clientID c = "") then inr (mkClient (send c) cid)
             else if decide (cid ≠ "" ∧ clientID c ≠ cid)
                  then inl (bad_request "client_id mismatch with existing connection")
                  else inr c)
            = (inr (mkClient (send c) cid) : error + Client)) as ->.
    { destruct (decide (clientID c = "")); [done|]. destruct Hc as [|Hc]; [done|].
      rewrite decide_False by (by intros [_ []]). destruct c. simpl in *. by subst. }
    simpl. rewrite (decide_False (P := ID message = "")) by done. rewrite Hu. simpl.
    rewrite Publish_missing by done. simpl.
    by erewrite (sendMessage_room _ (mkClient (send c) cid) _ q).
  - intros Hns. unfold processPump, handleMessage. simpl. unfold handleUnsubscribe. simpl.
    rewrite (decide_False (P := rid = "")) by done.
    rewrite (decide_False (P := cid = "")) by done.
    rewrite Hbind. simpl.
    assert (Unsubscribe cid t (sys w) = (Some (not_subscribed cid t), sys w)) as ->.
    { unfold Unsubscribe. destruct (clientTopics (sys w) !! cid) as [inner|] eqn:Hin; [|done].
      destruct (inner !! t) as [b|] eqn:Hb; [|done]. destruct Hns.
      apply subscribed_lookup, (inv_edge _ Hinv). unfold ct_lookup. rewrite Hin. simpl.
      by exists b. }
    simpl. by erewrite (sendMessage_room _ (mkClient (send c) cid) _ q).
Qed.

Lemma X27_witness :
  let reply code msg :=
    Some (mkClient 1%nat "c1",
          mkWorld (sys demo_world)
            (<[1%nat := mkChan 10 ([mkEventResponse "event" "T" demo_message 3]
                                   ++ [failed_frame code "r1" msg 9])]>
               (chans demo_world))) in
  (topics (sys demo_world) !! "U" = None →
     processPump (λ _, true) (inr (mkFrame "subscribe" "U" "c1" 0 "r1" demo_message)) 9
       (λ _, 9) (mkClient 1%nat "c1") demo_world
     = reply "SUBSCRIBE_FAILED" ("topic " +:+ "U" +:+ " not found"))
  ∧ (topics (sys demo_world) !! "U" = None → ID demo_message ≠ "" →
     (λ _ : string, true) (ID demo_message) = true →
     processPump (λ _, true) (inr (mkFrame "publish" "U" "c1" 0 "r1" demo_message)) 9
       (λ _, 9) (mkClient 1%nat "c1") demo_world
     = reply "PUBLISH_FAILED" ("topic " +:+ "U" +:+ " not found"))
  ∧ (¬ subscribed (sys demo_world) "c1" "U" →
     processPump (λ _, true) (inr (mkFrame "unsubscribe" "U" "c1" 0 "r1" demo_message)) 9
       (λ _, 9) (mkClient 1%nat "c1") demo_world
     = reply "UNSUBSCRIBE_FAILED"
         ("client " +:+ "c1" +:+ " is not subscribed to topic " +:+ "U")).
Proof.
  apply (X27_core_refusals_are_reported (λ _, true) demo_world demo_log (mkClient 1%nat "c1")
           "U" "c1" "r1" 0 demo_message 9 (λ _, 9)
           (mkChan 10 [mkEventResponse "event" "T" demo_message 3])).
  - exact demo_run.
  - discriminate.
  - discriminate.
  - by right.
  - vm_compute. reflexivity.
  - simpl. lia.
Defined.

(** ** The HTTP handlers *)

(** X28: [POST /topics] always answers, with 201 exactly when the body
    names a topic (a non-empty name) the registry does not hold, 409
    exactly when it names one it holds, and 400 exactly when the body does
    not decode or the name is empty.  Only a 201 changes the registry;
    after a 201 or a 409 the topic exists, and the same request again is
    answered with 409 and changes nothing.  The handler touches no channel
    and never creates a topic with the empty name. *)
Theorem X28_http_CreateTopic_status (body : option HTTPHandlers.CreateTopicRequest)
    (now : Time) (w : World) :
  ∃ resp w',
    HTTPHandlers.CreateTopic body now w = Some (resp, w')
    ∧ chans w' = chans w
    ∧ (HTTPHandlers.StatusCode resp = 201 ↔
       ∃ req, body = Some req ∧ HTTPHandlers.req_Name req ≠ ""
              ∧ topics (sys w) !! HTTPHandlers.req_Name req = None)
    ∧ (HTTPHandlers.StatusCode resp = 409 ↔
       ∃ req, body = Some req ∧ HTTPHandlers.req_Name req ≠ ""
              ∧ is_Some (topics (sys w) !! HTTPHandlers.req_Name req))
    ∧ (HTTPHandlers.StatusCode resp = 400 ↔
       body = None ∨ ∃ req, body = Some req ∧ HTTPHandlers.req_Name req = "")
    ∧ (HTTPHandlers.StatusCode resp ≠ 201 → w' = w)
    ∧ (∀ req, body = Some req → HTTPHandlers.StatusCode resp ≠ 400 →
         is_Some (topics (sys w') !! HTTPHandlers.req_Name req)
         ∧ ∀ now2, ∃ resp2,
             HTTPHandlers.CreateTopic body now2 w' = Some (resp2, w')
             ∧ HTTPHandlers.StatusCode resp2 = 409)
    ∧ topics (sys w') !! "" = topics (sys w) !! "".
Proof.
  unfold HTTPHandlers.CreateTopic at 1. destruct body as [req|].
  2:{ eexists _, _. split; [done|]. simpl. split_and!; try done; naive_solver. }
  destruct (decide (HTTPHandlers.req_Name req = "")) as [Hname|Hname].
  { eexists _, _. split; [done|]. simpl. split_and!; try done; naive_solver. }
  destruct (CreateTopic_total (HTTPHandlers.req_Name req) now (sys w)) as [[e ps'] HC].
  rewrite HC. simpl.
  destruct (CreateTopic_new _ _ _ _ _ HC)
    as [(He & -> & Hex)|(-> & Hno & history & _ & ->)].
  - destruct e as [err|]; [|done]. eexists _, _. split; [done|]. simpl.
    rewrite world_eta. split_and!; try done.
    + split; [done|]. intros (? & [= <-] & _ & Hnone). rewrite Hnone in Hex. by destruct Hex.
    + split; [by exists req|done].
    + split; [done|]. intros [|(? & [= <-] & ?)]; done.
    + intros ? [= <-] _. split; [done|]. intros now2. unfold HTTPHandlers.CreateTopic.
      rewrite (decide_False (P := HTTPHandlers.req_Name req = "")) by done.
      unfold CreateTopic. destruct Hex as [topic ->]. simpl. rewrite world_eta. by eexists.
  - eexists _, _. split; [done|]. simpl. split_and!; try done.
    + split; [by exists req|done].
    + split; [done|]. intros (? & [= <-] & _ & Hex). rewrite Hno in Hex. by destruct Hex.
    + split; [done|]. intros [|(? & [= <-] & ?)]; done.
    + intros ? [= <-] _. rewrite lookup_insert_eq. split; [done|]. intros now2.
      unfold HTTPHandlers.CreateTopic.
      rewrite (decide_False (P := HTTPHandlers.req_Name req = "")) by done.
      unfold CreateTopic. simpl. rewrite lookup_insert_eq. simpl. by eexists.
    + by rewrite lookup_insert_ne.
Qed.

(** X29: in every world reached by completed operations,
    [DELETE /topics/{name}] answers with 200 exactly when the name is not
    empty and the registry holds the topic, 404 exactly when it is not
    empty and the registry does not hold it, and 400 exactly when it is
    empty.  Only a 200 changes anything; after a 200 the topic is gone and
    no client's topic set contains it, and the body echoes the name. *)
Theorem X29_http_DeleteTopic_status (w : World) (log : Log) (topicName : string)
    (uuid : string → string) (clock : string → Time) :
  run w log →
  ∃ resp w',
    HTTPHandlers.DeleteTopic topicName uuid clock w = Some (resp, w')
    ∧ (HTTPHandlers.StatusCode resp = 200 ↔
       topicName ≠ "" ∧ is_Some (topics (sys w) !! topicName))
    ∧ (HTTPHandlers.StatusCode resp = 404 ↔
       topicName ≠ "" ∧ topics (sys w) !! topicName = None)
    ∧ (HTTPHandlers.StatusCode resp = 400 ↔ topicName = "")
    ∧ (HTTPHandlers.StatusCode resp ≠ 200 → w' = w)
    ∧ (HTTPHandlers.StatusCode resp = 200 →
         topics (sys w') !! topicName = None
         ∧ (∀ c, ¬ in_client_topics (sys w') c topicName)
         ∧ HTTPHandlers.ResponseBody resp
           = HTTPHandlers.BodyDeleteTopicResponse "deleted" topicName)
    ∧ (HTTPHandlers.StatusCode resp = 404 →
         HTTPHandlers.ResponseBody resp = HTTPHandlers.BodyErrorMap "Topic not found").
Proof.
  intros [Hinv _]%run_inv. unfold HTTPHandlers.DeleteTopic.
  destruct (decide (topicName = "")) as [Hname|Hname].
  { eexists _, _. split; [done|]. simpl. split_and!; try done; naive_solver. }
  destruct (topics (sys w) !! topicName) as [topic|] eqn:Ht.
  - destruct (DeleteTopic_found topicName uuid clock w topic Hinv Ht) as (ct & h & Hct & ->).
    eexists _, _. split; [done|]. simpl. split_and!; try done.
    + split; [done|]. by intros [_ ?].
    + intros _. split_and!; try done.
      * apply lookup_delete_eq.
      * intros c Hin%in_client_topics_lookup. simpl in Hin. rewrite Hct in Hin.
        rewrite decide_True in Hin by done. by destruct Hin.
  - rewrite DeleteTopic_missing by done. eexists _, _. split; [done|]. simpl.
    split_and!; try done. split; [done|]. intros [_ [? ?]]. done.
Qed.

Lemma X29_witness :
  ∃ resp w',
    HTTPHandlers.DeleteTopic "T" (λ _, "u") (λ _, 9) demo_world = Some (resp, w')
    ∧ (HTTPHandlers.StatusCode resp = 200 ↔
       "T" ≠ "" ∧ is_Some (topics (sys demo_world) !! "T"))
    ∧ (HTTPHandlers.StatusCode resp = 404 ↔
       "T" ≠ "" ∧ topics (sys demo_world) !! "T" = None)
    ∧ (HTTPHandlers.StatusCode resp = 400 ↔ "T" = "")
    ∧ (HTTPHandlers.StatusCode resp ≠ 200 → w' = demo_world)
    ∧ (HTTPHandlers.StatusCode resp = 200 →
         topics (sys w') !! "T" = None
         ∧ (∀ c, ¬ in_client_topics (sys w') c "T")
         ∧ HTTPHandlers.ResponseBody resp
           = HTTPHandlers.BodyDeleteTopicResponse "deleted" "T")
    ∧ (HTTPHandlers.StatusCode resp = 404 →
         HTTPHandlers.ResponseBody resp = HTTPHandlers.BodyErrorMap "Topic not found").
Proof.
  apply (X29_http_DeleteTopic_status demo_world demo_log "T" (λ _, "u") (λ _, 9)).
  exact demo_run.
Defined.



Lemma X28_witness :
  ∃ resp w',
    HTTPHandlers.CreateTopic (Some (HTTPHandlers.mkCreateTopicRequest "T")) 1 demo_init
    = Some (resp, w')
    ∧ chans w' = chans demo_init
    ∧ (HTTPHandlers.StatusCode resp = 201 ↔
       ∃ req, Some (HTTPHandlers.mkCreateTopicRequest "T") = Some req
              ∧ HTTPHandlers.req_Name req ≠ ""
              ∧ topics (sys demo_init) !! HTTPHandlers.req_Name req = None)
    ∧ (HTTPHandlers.StatusCode resp = 409 ↔
       ∃ req, Some (HTTPHandlers.mkCreateTopicRequest "T") = Some req
              ∧ HTTPHandlers.req_Name req ≠ ""
              ∧ is_Some (topics (sys demo_init) !! HTTPHandlers.req_Name req))
    ∧ (HTTPHandlers.StatusCode resp = 400 ↔
       Some (HTTPHandlers.mkCreateTopicRequest "T") = None
       ∨ ∃ req, Some (HTTPHandlers.mkCreateTopicRequest "T") = Some req
                ∧ HTTPHandlers.req_Name req = "")
    ∧ (HTTPHandlers.StatusCode resp ≠ 201 → w' = demo_init)
    ∧ (∀ req, Some (HTTPHandlers.mkCreateTopicRequest "T") = Some req →
         HTTPHandlers.StatusCode resp ≠ 400 →
         is_Some (topics (sys w') !! HTTPHandlers.req_Name req)
         ∧ ∀ now2, ∃ resp2,
             HTTPHandlers.CreateTopic (Some (HTTPHandlers.mkCreateTopicRequest "T")) now2 w'
             = Some (resp2, w')
             ∧ HTTPHandlers.StatusCode resp2 = 409)
    ∧ topics (sys w') !! "" = topics (sys demo_init) !! "".
Proof.
  apply (X28_http_CreateTopic_status (Some (HTTPHandlers.mkCreateTopicRequest "T")) 1
           demo_init).
Defined.
